(** * Standalone analysis pipeline: a shallow embedding

    The development models [src/services/standalone_analyzer.py],
    the request validation and the endpoints of [src/api/analyze.py], the
    reference parser of [src/utils/github_url.py], the mock of
    [src/api/rules.py] and the keyword arguments the providers of
    [src/integrations/providers] build.

    - JSON-like Python values are the inductive [pyval]; a Python dict with
      string keys is a [gmap string pyval].
    - Coroutines are run sequentially, so an [async def] is a computation in
      the monad [M]: it threads the state of the outside world, records
      every call made to an external collaborator, and either returns a
      value or raises.  Only exceptions deriving from [Exception] are
      modelled (cancellation is outside the model); an exception is
      represented by its message, i.e. by [str(e)].
    - The collaborators that are not part of the analysed sources (the
      repository API client, the evaluation engine, the YAML reader, the
      rule loader, the violation model, the configuration) are the fields
      of the record [Env]. *)

From stdpp Require Import gmap strings list pretty.
From Stdlib Require Import ZArith Lia Ascii.

Set Warnings "-register-all".
Set Default Proof Using "Type".
Open Scope Z_scope.

(** ** Python values *)

Inductive pyval :=
| PNone
| PBool (b : bool)
| PInt (z : Z)
| PStr (s : string)
| PList (l : list pyval)
| PDict (d : gmap string pyval).

(** [str(e)] of the exception that was raised. *)
Definition exn := string.

Inductive outcome (A : Type) :=
| Ok (a : A)
| Raise (e : exn).
Arguments Ok {A} a.
Arguments Raise {A} e.

#[global] Instance outcome_ret : MRet outcome := fun A a => Ok a.
#[global] Instance outcome_bind : MBind outcome := fun A B f m =>
  match m with
  | Ok a => f a
  | Raise e => Raise e
  end.

#[global] Instance outcome_fmap : FMap outcome := fun A B f m =>
  match m with
  | Ok a => Ok (f a)
  | Raise e => Raise e
  end.

(** The value returned, or [dflt] when the computation raised. *)
Definition value_or {A} (dflt : A) (o : outcome A) : A :=
  match o with
  | Ok a => a
  | Raise _ => dflt
  end.

(** [try: body except Exception as e: handler(e)] for code without effects. *)
Definition try_pure {A} (body : outcome A) (handler : exn -> outcome A) : outcome A :=
  match body with
  | Ok a => Ok a
  | Raise e => handler e
  end.

Fixpoint mapM_outcome {A B} (f : A -> outcome B) (l : list A) : outcome (list B) :=
  match l with
  | [] => Ok []
  | a :: l' => b ← f a; bs ← mapM_outcome f l'; Ok (b :: bs)
  end.

(** Truth value of an object, as tested by [if x:] and [not x]. *)
Definition truthy (v : pyval) : bool :=
  match v with
  | PNone => false
  | PBool b => b
  | PInt z => negb (z =? 0)
  | PStr s => negb (String.eqb s "")
  | PList l => match l with [] => false | _ :: _ => true end
  | PDict d => negb (Nat.eqb (size d) 0)
  end.

(** Truth value of a [str | None]. *)
Definition str_truthy (o : option string) : bool :=
  match o with
  | Some s => negb (String.eqb s "")
  | None => false
  end.

(** Truth value of an [int | None]. *)
Definition int_truthy (o : option Z) : bool :=
  match o with
  | Some z => negb (z =? 0)
  | None => false
  end.

Definition type_name (v : pyval) : string :=
  match v with
  | PNone => "NoneType"
  | PBool _ => "bool"
  | PInt _ => "int"
  | PStr _ => "str"
  | PList _ => "list"
  | PDict _ => "dict"
  end.

(** [v.get(key, dflt)]: only a dict has the method. *)
Definition py_get (v : pyval) (key : string) (dflt : pyval) : outcome pyval :=
  match v with
  | PDict d => Ok (default dflt (d !! key))
  | _ => Raise ("'" +:+ type_name v +:+ "' object has no attribute 'get'")
  end.

(** [a or b] *)
Definition py_or (a b : pyval) : pyval := if truthy a then a else b.

(** The items a [for] loop or a comprehension draws from [v]. *)
Definition py_iter (v : pyval) : outcome (list pyval) :=
  match v with
  | PList l => Ok l
  | PDict d => Ok ((λ kv, PStr kv.1) <$> map_to_list d)
  | PStr s => Ok ((λ c, PStr (String c EmptyString)) <$> String.list_ascii_of_string s)
  | _ => Raise ("'" +:+ type_name v +:+ "' object is not iterable")
  end.

(** ** Data model *)

(** [GitHubRepoInfo] of [src/utils/github_url.py]. *)
Record GitHubRepoInfo := {
  owner : string;
  repo : string;
  pr_number : option Z;
  branch : option string;
}.

Definition full_name (r : GitHubRepoInfo) : string := owner r +:+ "/" +:+ repo r.

Definition url (r : GitHubRepoInfo) : string := "https://github.com/" +:+ full_name r.

(** Modelled from the spec: the [Violation] model of [src.core.models] is
    not among the sources; the spec gives it as [{..., prNumber?}], an
    evaluator record on which the PR number is stamped afterwards. *)
Record Violation := {
  v_fields : pyval;
  v_pr_number : pyval;
}.

(** One entry of [prs_analyzed]: a dict with the keys [number], [title],
    [violations_count] and, on the batch path, [violations] and (for a
    failed PR) [error]. An absent key is [None]. *)
Record PRSummary := {
  ps_number : pyval;
  ps_title : pyval;
  ps_violations_count : Z;
  ps_violations : option (list pyval);
  ps_error : option string;
}.

Record AnalysisResult := {
  success : bool;
  violations : list Violation;
  rules_loaded : Z;
  processing_time_ms : Z;
  error : option string;
  repo_info : option GitHubRepoInfo;
  pr_data : option pyval;
  prs_analyzed : list PRSummary;
}.

(** The request an HTTP call is made for:
    [f"{base}/repos/{repo}/pulls/{number}{suffix}"]. *)
Record Url := {
  url_base : string;
  url_repo : string;
  url_number : pyval;
  url_suffix : string;
}.

(** What [session.get] yields: the status and what [response.json()] does. *)
Record Response := {
  status : Z;
  json : outcome pyval;
}.

(** The value stored under ["evaluation_result"]: [er_violations] is the
    [violations] attribute when the object has one. *)
Record EvaluationResult := {
  er_violations : option pyval;
}.

(** What the engine agent returns: [data] is a dict or [None]. *)
Record AgentResult := {
  data : option (gmap string EvaluationResult);
}.

(** ** The outside world and the monad of coroutines *)

Section Analyzer.
Context {W Rule Time : Type}.

(** A call to an external collaborator, with its arguments. *)
Inductive Call :=
| CGetRepository (repo_full_name : string) (user_token : option string)
| CGetFileContent (repo_full_name path : string) (user_token : option string)
| CListPullRequests (repo_full_name : string) (user_token : option string) (per_page : Z)
| CFetchAllPullRequests (repo_full_name : string) (user_token : option string) (limit : Z)
| CGetAuthHeaders (user_token : option string)
| CGetSession
| CSessionGet (u : Url) (headers : pyval)
| CExecute (event_data : gmap string pyval) (rules : list Rule)
| CLocalRulesExists
| CLocalRulesReadText.

(** The collaborators. Those that reach the network or the file system
    read and change the world [W] and may raise; the parsers and the
    violation model are functions of their argument. *)
Record Env := {
  (* GitHubClient *)
  get_repository : string -> option string -> W -> outcome pyval * W;
  get_file_content : string -> string -> option string -> W -> outcome (option string) * W;
  list_pull_requests : string -> option string -> Z -> W -> outcome (list (gmap string pyval)) * W;
  fetch_all_pull_requests : string -> option string -> Z -> W -> outcome (list (gmap string pyval)) * W;
  get_auth_headers : option string -> W -> outcome pyval * W;
  get_session : W -> outcome unit * W;
  session_get : Url -> pyval -> W -> outcome Response * W;
  (* the engine agent *)
  execute : gmap string pyval -> list Rule -> W -> outcome AgentResult * W;
  (* Violation.model_validate, v.model_dump *)
  model_validate : pyval -> outcome Violation;
  model_dump : Violation -> pyval;
  (* yaml.safe_load, GitHubRuleLoader._parse_rule (None: a falsy result) *)
  safe_load : string -> outcome pyval;
  parse_rule : gmap string pyval -> outcome (option Rule);
  (* LOCAL_RULES_PATH.exists(), LOCAL_RULES_PATH.read_text() *)
  local_rules_exists : W -> outcome bool * W;
  local_rules_read_text : W -> outcome string * W;
  (* config.github.api_base_url, config.repo_config.base_path/rules_file *)
  api_base_url : string;
  rules_file_path : string;
  (* time.time(), and int((t1 - t0) * 1000) *)
  time_time : W -> Time;
  elapsed_ms : Time -> Time -> Z;
}.

Record St := {
  world : W;
  calls : list Call;
}.

Definition M (A : Type) : Type := St -> outcome A * St.

#[global] Instance M_ret : MRet M := fun A a s => (Ok a, s).
#[global] Instance M_bind : MBind M := fun A B f m s =>
  match m s with
  | (Ok a, s') => f a s'
  | (Raise e, s') => (Raise e, s')
  end.

Definition lift {A} (o : outcome A) : M A := fun s => (o, s).

(** [try: body except Exception as e: handler(e)] *)
Definition try_except {A} (body : M A) (handler : exn -> M A) : M A := fun s =>
  match body s with
  | (Ok a, s') => (Ok a, s')
  | (Raise e, s') => handler e s'
  end.

(** An awaited call to a collaborator: it is recorded, then performed. *)
Definition perform {A} (c : Call) (f : W -> outcome A * W) : M A := fun s =>
  let '(r, w') := f (world s) in
  (r, {| world := w'; calls := calls s ++ [c] |}).

Context (E : Env).

Definition now : M Time := fun s => (Ok (time_time E (world s)), s).

(** ** [StandaloneAnalyzer] *)

Fixpoint parse_rules_loop (entries : list pyval) (rules : list Rule) : list Rule :=
  match entries with
  | [] => rules
  | rule_data :: rest =>
      match rule_data with
      | PDict d =>
          match parse_rule E d with
          | Ok (Some rule) => parse_rules_loop rest (rules ++ [rule])
          | Ok None => parse_rules_loop rest rules
          | Raise _ => parse_rules_loop rest rules
          end
      | _ => parse_rules_loop rest rules
      end
  end.

Definition _parse_rules_from_yaml (yaml_content : string) : outcome (list Rule) :=
  try_pure
    (rules_data ← safe_load E yaml_content;
     match rules_data with
     | PDict d =>
         match d !! "rules" with
         | Some rs => entries ← py_iter rs; Ok (parse_rules_loop entries [])
         | None => Ok []
         end
     | _ => Ok []
     end)
    (fun _ => Ok []).

Definition _load_rules (repo_full_name : string) (rules_yaml github_token : option string)
  : M (list Rule) :=
  if str_truthy rules_yaml then
    lift (_parse_rules_from_yaml (default "" rules_yaml))
  else
    from_repo ← try_except
      (content ← perform (CGetFileContent repo_full_name (rules_file_path E) github_token)
                   (get_file_content E repo_full_name (rules_file_path E) github_token);
       if str_truthy content then
         rules ← lift (_parse_rules_from_yaml (default "" content)); mret (Some rules)
       else mret None)
      (fun _ => mret None);
    match from_repo with
    | Some rules => mret rules
    | None =>
        ex ← perform CLocalRulesExists (local_rules_exists E);
        if ex : bool then
          content ← perform CLocalRulesReadText (local_rules_read_text E);
          lift (_parse_rules_from_yaml content)
        else mret []
    end.

Definition _fetch_pr_data (repo_full_name : string) (pr_number : Z) (github_token : option string)
  : M pyval :=
  try_except
    (headers ← perform (CGetAuthHeaders github_token) (get_auth_headers E github_token);
     if negb (truthy headers) then mret PNone
     else
       let u := {| url_base := api_base_url E; url_repo := repo_full_name;
                   url_number := PInt pr_number; url_suffix := "" |} in
       _ ← perform CGetSession (get_session E);
       response ← perform (CSessionGet u headers) (session_get E u headers);
       if status response =? 200 then lift (json response) else mret PNone)
    (fun _ => mret PNone).

Definition _fetch_pr_reviews (repo_full_name : string) (pr_number : pyval)
    (github_token : option string) : M pyval :=
  try_except
    (headers ← perform (CGetAuthHeaders github_token) (get_auth_headers E github_token);
     if negb (truthy headers) then mret (PList [])
     else
       let u := {| url_base := api_base_url E; url_repo := repo_full_name;
                   url_number := pr_number; url_suffix := "/reviews" |} in
       _ ← perform CGetSession (get_session E);
       response ← perform (CSessionGet u headers) (session_get E u headers);
       if status response =? 200 then lift (json response) else mret (PList []))
    (fun _ => mret (PList [])).

Definition _fetch_pr_files (repo_full_name : string) (pr_number : pyval)
    (github_token : option string) : M pyval :=
  try_except
    (headers ← perform (CGetAuthHeaders github_token) (get_auth_headers E github_token);
     if negb (truthy headers) then mret (PList [])
     else
       let u := {| url_base := api_base_url E; url_repo := repo_full_name;
                   url_number := pr_number; url_suffix := "/files" |} in
       _ ← perform CGetSession (get_session E);
       response ← perform (CSessionGet u headers) (session_get E u headers);
       if status response =? 200 then lift (json response) else mret (PList []))
    (fun _ => mret (PList [])).

Definition codeowners_paths : list string :=
  [".github/CODEOWNERS"; "CODEOWNERS"; "docs/CODEOWNERS"].

Fixpoint fetch_codeowners_loop (repo_full_name : string) (github_token : option string)
    (paths : list string) : M (option string) :=
  match paths with
  | [] => mret None
  | path :: rest =>
      found ← try_except
        (content ← perform (CGetFileContent repo_full_name path github_token)
                     (get_file_content E repo_full_name path github_token);
         if str_truthy content then mret content else mret None)
        (fun _ => mret None);
      match found with
      | Some content => mret (Some content)
      | None => fetch_codeowners_loop repo_full_name github_token rest
      end
  end.

Definition _fetch_codeowners (repo_full_name : string) (github_token : option string)
  : M (option string) :=
  fetch_codeowners_loop repo_full_name github_token codeowners_paths.

(** One element of the [changed_files] comprehension. *)
Definition changed_file (f : pyval) : outcome pyval :=
  filename ← py_get f "filename" PNone;
  st ← py_get f "status" PNone;
  additions ← py_get f "additions" PNone;
  deletions ← py_get f "deletions" PNone;
  Ok (PDict (<["filename" := filename]> (<["status" := st]>
        (<["additions" := additions]> (<["deletions" := deletions]> ∅))))).

(** The [github_client] entry of the event data is a handle on the
    client, not data: it is left out. *)
Definition _build_event_data (repo_full_name : string) (pr_data : pyval)
    (github_token : option string) : M (gmap string pyval) :=
  login ← lift (user ← py_get pr_data "user" PNone;
                py_get (py_or user (PDict ∅)) "login" PNone);
  let event_data : gmap string pyval :=
    <["pull_request_details" := pr_data]>
    (<["triggering_user" := PDict {["login" := login]}]>
    (<["repository" := PDict {["full_name" := PStr repo_full_name]}]>
    (<["organization" := PDict ∅]>
    (<["event_id" := PNone]>
    (<["timestamp" := PNone]>
    (<["installation" := PDict {["id" := PNone]}]> ∅)))))) in
  pr_number ← lift (py_get pr_data "number" PNone);
  if truthy pr_number then
    reviews ← _fetch_pr_reviews repo_full_name pr_number github_token;
    let event_data := <["reviews" := py_or reviews (PList [])]> event_data in
    files ← _fetch_pr_files repo_full_name pr_number github_token;
    let event_data := <["files" := py_or files (PList [])]> event_data in
    changed ← lift (items ← py_iter (py_or files (PList []));
                    mapM_outcome changed_file items);
    let event_data := <["changed_files" := PList changed]> event_data in
    codeowners_content ← _fetch_codeowners repo_full_name github_token;
    if str_truthy codeowners_content then
      mret (<["codeowners_content" := PStr (default "" codeowners_content)]> event_data)
    else mret event_data
  else mret event_data.

(** [violation.pr_number = pr_number] *)
Definition stamp (pr_number : pyval) (v : Violation) : Violation :=
  {| v_fields := v_fields v; v_pr_number := pr_number |}.

Definition _evaluate_rules (rules : list Rule) (event_data : gmap string pyval)
  : M (list Violation) :=
  try_except
    (pr_number ← lift (details ← py_get (PDict event_data) "pull_request_details" (PDict ∅);
                       py_get details "number" PNone);
     result ← perform (CExecute event_data rules) (execute E event_data rules);
     match data result with
     | Some d =>
         if negb (Nat.eqb (size d) 0) then
           match d !! "evaluation_result" with
           | Some eval_result =>
               match er_violations eval_result with
               | Some raw =>
                   validated ← lift (items ← py_iter raw; mapM_outcome (model_validate E) items);
                   mret (stamp pr_number <$> validated)
               | None => mret []
               end
           | None => mret []
           end
         else mret []
     | None => mret []
     end)
    (fun _ => mret []).

Definition len {A} (l : list A) : Z := Z.of_nat (length l).

(** [str(n)] for an [int]. *)
Definition str_of_int (n : Z) : string := pretty n.

Definition _analyze_single_pr (repo_info : GitHubRepoInfo) (pr_number : Z)
    (rules : list Rule) (rules_loaded : Z) (github_token : option string)
    (start_time : Time) : M AnalysisResult :=
  pr_data ← _fetch_pr_data (full_name repo_info) pr_number github_token;
  if negb (truthy pr_data) then
    t ← now;
    mret {| success := false;
            violations := [];
            rules_loaded := rules_loaded;
            processing_time_ms := elapsed_ms E start_time t;
            error := Some ("PR #" +:+ str_of_int pr_number +:+ " not found or access denied");
            repo_info := Some repo_info;
            pr_data := None;
            prs_analyzed := [] |}
  else
    event_data ← _build_event_data (full_name repo_info) pr_data github_token;
    violations ← _evaluate_rules rules event_data;
    t ← now;
    number ← lift (py_get pr_data "number" PNone);
    title ← lift (py_get pr_data "title" PNone);
    mret {| success := true;
            violations := violations;
            rules_loaded := rules_loaded;
            processing_time_ms := elapsed_ms E start_time t;
            error := None;
            repo_info := Some repo_info;
            pr_data := Some pr_data;
            prs_analyzed := [ {| ps_number := number;
                                 ps_title := title;
                                 ps_violations_count := len violations;
                                 ps_violations := None;
                                 ps_error := None |} ] |}.

(** The [for i, pr in enumerate(prs)] loop. The two lists it mutates are
    threaded through. Logging is not modelled, and [model_dump] is a
    total function, so the [try] body can only raise before it has
    touched either list. *)
Fixpoint analyze_prs_loop (repo_info : GitHubRepoInfo) (rules : list Rule)
    (github_token : option string) (prs : list (gmap string pyval))
    (all_violations : list Violation) (prs_analyzed : list PRSummary)
  : M (list Violation * list PRSummary) :=
  match prs with
  | [] => mret (all_violations, prs_analyzed)
  | pr :: rest =>
      let pr_number := default PNone (pr !! "number") in
      let pr_title := default (PStr "") (pr !! "title") in
      acc ← try_except
        (event_data ← _build_event_data (full_name repo_info) (PDict pr) github_token;
         violations ← _evaluate_rules rules event_data;
         mret (all_violations ++ violations,
               prs_analyzed ++ [ {| ps_number := pr_number;
                                    ps_title := pr_title;
                                    ps_violations_count := len violations;
                                    ps_violations := Some (model_dump E <$> violations);
                                    ps_error := None |} ]))
        (fun e =>
         mret (all_violations,
               prs_analyzed ++ [ {| ps_number := pr_number;
                                    ps_title := pr_title;
                                    ps_violations_count := 0;
                                    ps_violations := Some [];
                                    ps_error := Some e |} ]));
      analyze_prs_loop repo_info rules github_token rest acc.1 acc.2
  end.

Definition _fetch_open_prs (repo_full_name : string) (github_token : option string)
    (limit : Z) : M (list (gmap string pyval)) :=
  try_except
    (perform (CListPullRequests repo_full_name github_token limit)
       (list_pull_requests E repo_full_name github_token limit))
    (fun _ => mret []).

Definition _fetch_all_prs_paginated (repo_full_name : string) (github_token : option string)
    (limit : Z) : M (list (gmap string pyval)) :=
  try_except
    (perform (CFetchAllPullRequests repo_full_name github_token limit)
       (fetch_all_pull_requests E repo_full_name github_token limit))
    (fun _ => mret []).

Definition _analyze_latest_prs (repo_info : GitHubRepoInfo) (rules : list Rule)
    (rules_loaded : Z) (github_token : option string) (max_prs : Z)
    (start_time : Time) (batch_mode : bool) : M AnalysisResult :=
  prs ← (if 20 <? max_prs
         then _fetch_all_prs_paginated (full_name repo_info) github_token max_prs
         else _fetch_open_prs (full_name repo_info) github_token max_prs);
  match prs with
  | [] =>
      t ← now;
      mret {| success := false;
              violations := [];
              rules_loaded := rules_loaded;
              processing_time_ms := elapsed_ms E start_time t;
              error := Some "No open pull requests found in this repository.";
              repo_info := Some repo_info;
              pr_data := None;
              prs_analyzed := [] |}
  | _ :: _ =>
      acc ← analyze_prs_loop repo_info rules github_token prs [] [];
      t ← now;
      mret {| success := true;
              violations := acc.1;
              rules_loaded := rules_loaded;
              processing_time_ms := elapsed_ms E start_time t;
              error := None;
              repo_info := Some repo_info;
              pr_data := PDict <$> head prs;
              prs_analyzed := acc.2 |}
  end.

Definition rate_limit_note : string :=
  ". Note: GitHub API has a rate limit of 60 req/hr for anonymous access. If you're seeing this frequently, consider adding a GitHub Personal Access Token for higher limits (5,000 req/hr).".

Definition analyze (repo_info : GitHubRepoInfo) (requested_pr : option Z)
    (rules_yaml github_token : option string) (max_prs : Z) (batch_mode : bool)
  : M AnalysisResult :=
  start_time ← now;
  let pr_number := match requested_pr with
                   | None => pr_number repo_info
                   | Some _ => requested_pr
                   end in
  try_except
    (repo_data ← perform (CGetRepository (full_name repo_info) github_token)
                   (get_repository E (full_name repo_info) github_token);
     if negb (truthy repo_data) then
       let error_msg := "Repository not found or access denied: " +:+ full_name repo_info in
       let error_msg := if negb (str_truthy github_token)
                        then error_msg +:+ rate_limit_note else error_msg in
       t ← now;
       mret {| success := false;
               violations := [];
               rules_loaded := 0;
               processing_time_ms := elapsed_ms E start_time t;
               error := Some error_msg;
               repo_info := Some repo_info;
               pr_data := None;
               prs_analyzed := [] |}
     else
       rules ← _load_rules (full_name repo_info) rules_yaml github_token;
       let rules_loaded := len rules in
       match rules with
       | [] =>
           t ← now;
           mret {| success := false;
                   violations := [];
                   rules_loaded := 0;
                   processing_time_ms := elapsed_ms E start_time t;
                   error := Some "No rules found. Please provide rules or ensure .watchflow/rules.yaml exists.";
                   repo_info := Some repo_info;
                   pr_data := None;
                   prs_analyzed := [] |}
       | _ :: _ =>
           if int_truthy pr_number then
             _analyze_single_pr repo_info (default 0 pr_number) rules rules_loaded
               github_token start_time
           else
             _analyze_latest_prs repo_info rules rules_loaded github_token max_prs
               start_time batch_mode
       end)
    (fun e =>
     t ← now;
     mret {| success := false;
             violations := [];
             rules_loaded := 0;
             processing_time_ms := elapsed_ms E start_time t;
             error := Some e;
             repo_info := Some repo_info;
             pr_data := None;
             prs_analyzed := [] |}).

End Analyzer.

Arguments Env : clear implicits.
Arguments Call : clear implicits.
Arguments St : clear implicits.
Arguments M : clear implicits.

(** ** Request validation ([AnalyzeRequest] of [src/api/analyze.py]) *)

(** [max_prs: int = Field(5, ge=1, le=200)]: the value the request model
    accepts, or [None] when validation rejects the request. *)
Definition validate_max_prs (supplied : option Z) : option Z :=
  match supplied with
  | None => Some 5
  | Some n => if (1 <=? n) && (n <=? 200) then Some n else None
  end.

(** ** Repository references ([src/utils/github_url.py]) *)

Module GitHubURL.

(** The fragment of Python's [re] syntax the four patterns use. A string
    is a list of characters with code points below 256. *)
Inductive regex :=
| RBegin                                          (* ^ *)
| REnd                                            (* $ *)
| RLit (l : list ascii)                           (* literal text *)
| RPlus (greedy : bool) (cls : ascii -> bool)     (* [cls]+ and [cls]+? *)
| ROpt (r : regex)                                (* (?:r)? *)
| RAlt (r1 r2 : regex)                            (* r1|r2 *)
| RGroup (name : string) (r : regex)              (* (?P<name>r) *)
| RSeq (r1 r2 : regex).

Definition groups := gmap string (list ascii).

(** What remains to be matched: called with the position reached, the
    rest of the subject and the groups bound so far. *)
Definition cont := nat -> list ascii -> groups -> option groups.

Fixpoint strip_prefix (l s : list ascii) : option (list ascii) :=
  match l, s with
  | [], _ => Some s
  | a :: l', b :: s' => if Ascii.eqb a b then strip_prefix l' s' else None
  | _ :: _, [] => None
  end.

(** [cls*], longest first. *)
Fixpoint star_greedy (cls : ascii -> bool) (s : list ascii) (pos : nat) (g : groups)
    (k : cont) : option groups :=
  match s with
  | c :: s' =>
      if cls c then
        match star_greedy cls s' (S pos) g k with
        | Some m => Some m
        | None => k pos s g
        end
      else k pos s g
  | [] => k pos s g
  end.

(** [cls*?], shortest first. *)
Fixpoint star_lazy (cls : ascii -> bool) (s : list ascii) (pos : nat) (g : groups)
    (k : cont) : option groups :=
  match k pos s g with
  | Some m => Some m
  | None =>
      match s with
      | c :: s' => if cls c then star_lazy cls s' (S pos) g k else None
      | [] => None
      end
  end.

Definition newline : ascii := "010"%char.

(** The backtracking matcher: alternatives are tried in the order of the
    pattern, and the first way to complete the match wins. *)
Fixpoint rmatch (r : regex) (s : list ascii) (pos : nat) (g : groups) (k : cont)
  : option groups :=
  match r with
  | RBegin => if Nat.eqb pos 0 then k pos s g else None
  | REnd =>
      match s with
      | [] => k pos s g
      | [c] => if Ascii.eqb c newline then k pos s g else None
      | _ => None
      end
  | RLit l =>
      match strip_prefix l s with
      | Some s' => k (pos + length l)%nat s' g
      | None => None
      end
  | RPlus greedy cls =>
      match s with
      | c :: s' =>
          if cls c then
            (if greedy then star_greedy else star_lazy) cls s' (S pos) g k
          else None
      | [] => None
      end
  | ROpt r' =>
      match rmatch r' s pos g k with
      | Some m => Some m
      | None => k pos s g
      end
  | RAlt r1 r2 =>
      match rmatch r1 s pos g k with
      | Some m => Some m
      | None => rmatch r2 s pos g k
      end
  | RGroup name r' =>
      rmatch r' s pos g (fun pos' s' g' => k pos' s' (<[name := take (pos' - pos) s]> g'))
  | RSeq r1 r2 =>
      rmatch r1 s pos g (fun pos' s' g' => rmatch r2 s' pos' g' k)
  end.

(** Nothing remains to be matched: the groups bound so far are the match. *)
Definition accept : cont := fun _ _ g => Some g.

(** [pattern.match(s)] *)
Definition re_match (r : regex) (s : list ascii) : option groups :=
  rmatch r s 0 ∅ accept.

Fixpoint rseq (rs : list regex) : regex :=
  match rs with
  | [] => RLit []
  | [r] => r
  | r :: rs' => RSeq r (rseq rs')
  end.

Definition lit (s : string) : list ascii := String.list_ascii_of_string s.
Definition str (l : list ascii) : string := String.string_of_list_ascii l.

Definition code (c : ascii) : N := Ascii.N_of_ascii c.

(** [[^/]] *)
Definition not_slash (c : ascii) : bool := negb (Ascii.eqb c "/").
(** [\d] *)
Definition digit (c : ascii) : bool := ((48 <=? code c) && (code c <=? 57))%N.
Definition alnum (c : ascii) : bool :=
  (((48 <=? code c) && (code c <=? 57)) || ((65 <=? code c) && (code c <=? 90))
   || ((97 <=? code c) && (code c <=? 122)))%N.
(** [[a-zA-Z0-9_-]] *)
Definition owner_char (c : ascii) : bool :=
  alnum c || Ascii.eqb c "_" || Ascii.eqb c "-".
(** [[a-zA-Z0-9_.-]] *)
Definition repo_char (c : ascii) : bool :=
  alnum c || Ascii.eqb c "_" || Ascii.eqb c "." || Ascii.eqb c "-".

(** The part the first two patterns share, after the host. *)
Definition path_pattern : list regex :=
  [ RGroup "owner" (RPlus true not_slash); RLit (lit "/");
    RGroup "repo" (RPlus false not_slash); ROpt (RLit (lit "/"));
    ROpt (rseq [RAlt (RLit (lit "tree")) (RLit (lit "blob")); RLit (lit "/");
                RGroup "branch" (RPlus true not_slash)]);
    ROpt (rseq [RLit (lit "pull/"); RGroup "pr" (RPlus true digit)]);
    ROpt (RLit (lit ".git"));
    ROpt (RLit (lit "/"));
    REnd ].

Definition HTTPS_PATTERN : regex :=
  rseq ([RLit (lit "http"); ROpt (RLit (lit "s")); RLit (lit "://github.com/")]
        ++ path_pattern).

Definition BARE_PATTERN : regex :=
  rseq ([RBegin; RLit (lit "github.com/")] ++ path_pattern).

Definition SSH_PATTERN : regex :=
  rseq [ RLit (lit "git@github.com:");
         RGroup "owner" (RPlus true not_slash); RLit (lit "/");
         RGroup "repo" (RPlus false not_slash);
         ROpt (RLit (lit ".git")); ROpt (RLit (lit "/")); REnd ].

Definition SHORT_PATTERN : regex :=
  rseq [ RBegin; RGroup "owner" (RPlus true owner_char); RLit (lit "/");
         RGroup "repo" (RPlus true repo_char); REnd ].

(** The characters [str.strip()] removes, among those below 256. *)
Definition whitespace (c : ascii) : bool :=
  (((9 <=? code c) && (code c <=? 13)) || ((28 <=? code c) && (code c <=? 32))
   || (code c =? 133) || (code c =? 160))%N.

Fixpoint lstrip (s : list ascii) : list ascii :=
  match s with
  | c :: s' => if whitespace c then lstrip s' else s
  | [] => []
  end.

Definition strip (s : list ascii) : list ascii := rev (lstrip (rev (lstrip s))).

(** The value of a run of decimal digits. *)
Definition decimal (s : list ascii) : Z :=
  fold_left (fun acc c => 10 * acc + (Z.of_N (code c) - 48)) s 0.

(** [sys.get_int_max_str_digits()], as the interpreter starts with. *)
Definition int_max_str_digits : Z := 4300.

(** [str(e)] of the [ValueError] that [int] raises on a run of [n]
    digits that is over the limit. *)
Definition int_limit_message (n : Z) : exn :=
  "Exceeds the limit (4300 digits) for integer string conversion: value has "
  +:+ pretty n +:+ " digits; use sys.set_int_max_str_digits() to increase the limit".

(** [int(s)] on a run of decimal digits: its value, or a [ValueError]
    when the run has more digits than the interpreter converts (leading
    zeros count). *)
Definition int (s : list ascii) : outcome Z :=
  if int_max_str_digits <? len s then Raise (int_limit_message (len s))
  else Ok (decimal s).

Definition group (m : groups) (name : string) : option string := str <$> m !! name.

(** The reference the first two patterns give; the conversion of the
    [pr] group is the one step that can raise. *)
Definition with_branch_and_pr (m : groups) : outcome GitHubRepoInfo :=
  pr ← match m !! "pr" with
       | Some (c :: d) => Some <$> int (c :: d)
       | _ => Ok None
       end;
  Ok {| owner := default "" (group m "owner");
        repo := default "" (group m "repo");
        branch := group m "branch";
        pr_number := pr |}.

Definition owner_and_repo (m : groups) : GitHubRepoInfo :=
  {| owner := default "" (group m "owner");
     repo := default "" (group m "repo");
     branch := None;
     pr_number := None |}.

(** [GitHubURLParser.parse]: the reference, [None] for a text that no
    pattern matches, or the [ValueError] of [int]. *)
Definition parse (url : string) : outcome (option GitHubRepoInfo) :=
  let url := strip (lit url) in
  match re_match HTTPS_PATTERN url with
  | Some m => Some <$> with_branch_and_pr m
  | None =>
      match re_match BARE_PATTERN url with
      | Some m => Some <$> with_branch_and_pr m
      | None =>
          match re_match SSH_PATTERN url with
          | Some m => Ok (Some (owner_and_repo m))
          | None =>
              match re_match SHORT_PATTERN url with
              | Some m => Ok (Some (owner_and_repo m))
              | None => Ok None
              end
          end
      end
  end.

(** [GitHubURLParser.is_valid_github_url]: [cls.parse(url) is not None]. *)
Definition is_valid_github_url (url : string) : outcome bool :=
  info ← parse url;
  Ok (match info with
      | Some _ => true
      | None => false
      end).

End GitHubURL.

(** *** The shapes of an accepted reference *)

Module ReferenceShapes.
Import GitHubURL.

Definition ends_with_git (name : list ascii) : bool :=
  match rev name with
  | "t"%char :: "i"%char :: "g"%char :: "."%char :: _ => true
  | _ => false
  end.

Definition nonempty (l : list ascii) : bool :=
  match l with
  | [] => false
  | _ :: _ => true
  end.

(** An owner: [[a-zA-Z0-9_-]+]. *)
Definition owner_name (o : list ascii) : bool := nonempty o && forallb owner_char o.

(** A repository name: [[a-zA-Z0-9_.-]+], not ending in [.git]. *)
Definition repo_name (r : list ascii) : bool :=
  nonempty r && forallb repo_char r && negb (ends_with_git r).

(** A branch without slash: [[a-zA-Z0-9_.-]+]. *)
Definition branch_name (b : list ascii) : bool := nonempty b && forallb repo_char b.

(** A PR number: [[0-9]+]. *)
Definition pr_digits (n : list ascii) : bool := nonempty n && forallb digit n.

(** What may follow [owner/repo] in a web URL or in the bare form. *)
Inductive Trailer :=
| NoTrailer
| Slash
| DotGit
| Tree (b : list ascii)
| Blob (b : list ascii)
| Pull (n : list ascii).

Definition trailer_text (t : Trailer) : list ascii :=
  match t with
  | NoTrailer => []
  | Slash => lit "/"
  | DotGit => lit ".git"
  | Tree b => lit "/tree/" ++ b
  | Blob b => lit "/blob/" ++ b
  | Pull n => lit "/pull/" ++ n
  end.

Definition trailer_ok (t : Trailer) : bool :=
  match t with
  | Tree b | Blob b => branch_name b
  | Pull n => pr_digits n
  | _ => true
  end.

(** The reference that [owner], [repo] and the trailer stand for. *)
Definition reference (o r : list ascii) (t : Trailer) : GitHubRepoInfo :=
  {| owner := str o;
     repo := str r;
     pr_number := match t with
                  | Pull n => Some (decimal n)
                  | _ => None
                  end;
     branch := match t with
               | Tree b | Blob b => Some (str b)
               | _ => None
               end |}.

(** The PR number of the trailer, when it has one, has no more digits
    than [int] converts. *)
Definition convertible (t : Trailer) : bool :=
  match t with
  | Pull n => len n <=? int_max_str_digits
  | _ => true
  end.

(** The number of digits of the trailer's PR number. *)
Definition pr_length (t : Trailer) : Z :=
  match t with
  | Pull n => len n
  | _ => 0
  end.

(** The groups the trailer binds. *)
Definition trailer_groups (t : Trailer) (g : groups) : groups :=
  match t with
  | Tree b | Blob b => <["branch" := b]> g
  | Pull n => <["pr" := n]> g
  | _ => g
  end.

(** What the first two patterns have after the repository name. *)
Definition trailer_pattern : regex :=
  rseq [ ROpt (RLit (lit "/"));
         ROpt (rseq [RAlt (RLit (lit "tree")) (RLit (lit "blob")); RLit (lit "/");
                     RGroup "branch" (RPlus true not_slash)]);
         ROpt (rseq [RLit (lit "pull/"); RGroup "pr" (RPlus true digit)]);
         ROpt (RLit (lit ".git"));
         ROpt (RLit (lit "/"));
         REnd ].

(** What the SSH pattern has after the repository name. *)
Definition ssh_trailer_pattern : regex :=
  rseq [ROpt (RLit (lit ".git")); ROpt (RLit (lit "/")); REnd].

Definition visible (c : ascii) : bool := negb (whitespace c).

(** Every group of the pattern is a run of characters other than [/]. *)
Fixpoint slash_free_groups (r : regex) : Prop :=
  match r with
  | RBegin | REnd | RLit _ | RPlus _ _ => True
  | ROpt r' => slash_free_groups r'
  | RAlt r1 r2 | RSeq r1 r2 => slash_free_groups r1 /\ slash_free_groups r2
  | RGroup _ (RPlus _ cls) => forall c, cls c = true -> not_slash c = true
  | RGroup _ _ => False
  end.

(** Every group that is bound holds no [/]. *)
Definition slash_free (g : groups) : Prop :=
  forall name x, g !! name = Some x -> forallb not_slash x = true.

(** The subject neither starts nor ends with a character that
    [str.strip()] removes. *)
Definition clean (s : list ascii) : bool :=
  match s with
  | [] => true
  | c :: _ => negb (whitespace c)
  end
  && match rev s with
     | [] => true
     | c :: _ => negb (whitespace c)
     end.

(** The rest of the subject starts with a character outside [cls], or is
    empty. *)
Definition stops (cls : ascii -> bool) (s : list ascii) : Prop :=
  match s with
  | [] => True
  | c :: _ => cls c = false
  end.

End ReferenceShapes.

(** ** Notions the statements are phrased with *)

Section Notions.
Context {W Rule Time : Type} (E : Env W Rule Time).

Local Abbreviation M := (M W Rule).
Local Abbreviation St := (St W Rule).

(** [m] returns a value from every state: it never raises. *)
Definition never_raises {A} (m : M A) : Prop :=
  forall s, exists a s', m s = (Ok a, s').

(** [m] only adds calls to the record of calls, and each call it makes
    satisfies [P]. *)
Definition performs {A} (P : Call Rule -> Prop) (m : M A) : Prop :=
  forall s r s', m s = (r, s') -> exists l, calls s' = calls s ++ l /\ Forall P l.

(** An ordered chain of attempts: the first one that yields a result
    wins, and [dflt] is returned when none does. *)
Fixpoint first_success {A} (attempts : list (M (option A))) (dflt : A) : M A :=
  match attempts with
  | [] => mret dflt
  | a :: rest =>
      r ← a;
      match r with
      | Some x => mret x
      | None => first_success rest dflt
      end
  end.

(** *** Rule sources *)

(** A source is available when its text is at hand: explicit text that
    is given and not empty, a repository file that is fetched without
    error and not empty, a local file that exists. An available source
    yields whatever its text parses to, be it no rule at all. *)
Definition explicit_source (rules_yaml : option string) : M (option (list Rule)) :=
  match rules_yaml with
  | Some text =>
      if String.eqb text "" then mret None
      else rules ← lift (_parse_rules_from_yaml E text); mret (Some rules)
  | None => mret None
  end.

Definition repository_source (repo_full_name : string) (github_token : option string)
  : M (option (list Rule)) :=
  try_except
    (content ← perform (CGetFileContent repo_full_name (rules_file_path E) github_token)
                 (get_file_content E repo_full_name (rules_file_path E) github_token);
     match content with
     | Some text =>
         if String.eqb text "" then mret None
         else rules ← lift (_parse_rules_from_yaml E text); mret (Some rules)
     | None => mret None
     end)
    (fun _ => mret None).

Definition local_source : M (option (list Rule)) :=
  ex ← perform CLocalRulesExists (local_rules_exists E);
  if ex : bool then
    text ← perform CLocalRulesReadText (local_rules_read_text E);
    rules ← lift (_parse_rules_from_yaml E text); mret (Some rules)
  else mret None.

Definition resolve_first_available (repo_full_name : string)
    (rules_yaml github_token : option string) : M (list Rule) :=
  first_success
    [explicit_source rules_yaml; repository_source repo_full_name github_token; local_source]
    [].

(** The reading in which an attempt succeeds only when it parses to at
    least one rule (for the local file: when the file exists). *)
Definition unless_empty {A} (o : option (list A)) : option (list A) :=
  match o with
  | Some (x :: l) => Some (x :: l)
  | _ => None
  end.

Definition resolve_first_nonempty (repo_full_name : string)
    (rules_yaml github_token : option string) : M (list Rule) :=
  first_success
    [(r ← explicit_source rules_yaml; mret (unless_empty r));
     (r ← repository_source repo_full_name github_token; mret (unless_empty r));
     local_source]
    [].

(** *** Rule documents *)

(** The rule a well-formed entry stands for: the entry is a mapping and
    the loader turns it into a rule. *)
Definition parsed_entry (entry : pyval) : option Rule :=
  match entry with
  | PDict d =>
      match parse_rule E d with
      | Ok (Some rule) => Some rule
      | _ => None
      end
  | _ => None
  end.

Definition well_formed (entry : pyval) : bool := bool_decide (is_Some (parsed_entry entry)).

(** *** The batch loop *)

(** What the [try] block of the loop computes for one PR. *)
Definition process_pr (repo_info : GitHubRepoInfo) (rules : list Rule)
    (github_token : option string) (pr : gmap string pyval) : M (list Violation) :=
  event_data ← _build_event_data E (full_name repo_info) (PDict pr) github_token;
  _evaluate_rules E rules event_data.

Definition processed_summary (pr : gmap string pyval) (found : list Violation) : PRSummary :=
  {| ps_number := default PNone (pr !! "number");
     ps_title := default (PStr "") (pr !! "title");
     ps_violations_count := len found;
     ps_violations := Some (model_dump E <$> found);
     ps_error := None |}.

Definition failed_summary (pr : gmap string pyval) (message : exn) : PRSummary :=
  {| ps_number := default PNone (pr !! "number");
     ps_title := default (PStr "") (pr !! "title");
     ps_violations_count := 0;
     ps_violations := Some [];
     ps_error := Some message |}.

(** [batch_run s prs found summaries s']: processing [prs] one after the
    other from state [s] ends in [s'], finds [found] and leaves one
    summary per PR, a failed one where processing raised. *)
Inductive batch_run (repo_info : GitHubRepoInfo) (rules : list Rule)
    (github_token : option string)
  : St -> list (gmap string pyval) -> list Violation -> list PRSummary -> St -> Prop :=
| batch_done s :
    batch_run repo_info rules github_token s [] [] [] s
| batch_processed s pr prs found s1 more summaries s2 :
    process_pr repo_info rules github_token pr s = (Ok found, s1) ->
    batch_run repo_info rules github_token s1 prs more summaries s2 ->
    batch_run repo_info rules github_token s (pr :: prs) (found ++ more)
      (processed_summary pr found :: summaries) s2
| batch_failed s pr prs message s1 more summaries s2 :
    process_pr repo_info rules github_token pr s = (Raise message, s1) ->
    batch_run repo_info rules github_token s1 prs more summaries s2 ->
    batch_run repo_info rules github_token s (pr :: prs) more
      (failed_summary pr message :: summaries) s2.

(** A summary of [pr]: that of a processed PR or that of a failed one. *)
Definition summary_of_pr (pr : gmap string pyval) (p : PRSummary) : Prop :=
  (exists found, p = processed_summary pr found)
  \/ (exists message, p = failed_summary pr message).

(** The candidate PRs, as the first statement of [_analyze_latest_prs]
    fetches them. *)
Definition candidate_prs (repo_info : GitHubRepoInfo) (github_token : option string)
    (max_prs : Z) : M (list (gmap string pyval)) :=
  if 20 <? max_prs
  then _fetch_all_prs_paginated E (full_name repo_info) github_token max_prs
  else _fetch_open_prs E (full_name repo_info) github_token max_prs.

Definition summary_violations (p : PRSummary) : list pyval := default [] (ps_violations p).

Definition total_count (summaries : list PRSummary) : Z :=
  foldr (fun p acc => ps_violations_count p + acc) 0 summaries.

(** A summary that records an error has no violation. *)
Definition failed_is_empty (p : PRSummary) : Prop :=
  is_Some (ps_error p) -> summary_violations p = [] /\ ps_violations_count p = 0.

End Notions.

Section Outcomes.
Context {W Rule Time : Type} (E : Env W Rule Time).

Local Abbreviation M := (M W Rule).
Local Abbreviation St := (St W Rule).

(** *** Calls, by what they are for *)

(** The calls made while a PR context is built. *)
Definition context_call (c : Call Rule) : Prop :=
  match c with
  | CGetAuthHeaders _ | CGetSession | CSessionGet _ _ | CGetFileContent _ _ _ => True
  | _ => False
  end.

(** A call to the evaluator, with the rule set [rules]. *)
Definition evaluation_with (rules : list Rule) (c : Call Rule) : Prop :=
  match c with
  | CExecute _ rules' => rules' = rules
  | _ => False
  end.

(** The calls of the evaluation phase: none of them lists PRs or reads
    the local rules file, and the evaluator always gets [rules]. *)
Definition evaluation_phase_call (rules : list Rule) (c : Call Rule) : Prop :=
  context_call c \/ evaluation_with rules c.

(** The calls that list the open PRs. *)
Definition listing_call (c : Call Rule) : Prop :=
  match c with
  | CListPullRequests _ _ _ | CFetchAllPullRequests _ _ _ => True
  | _ => False
  end.

(** The calls made once the rules are resolved. *)
Definition dispatch_call (rules : list Rule) (c : Call Rule) : Prop :=
  listing_call c \/ evaluation_phase_call rules c.

(** *** PR contexts *)

(** The [user] entry of the PR metadata is absent, falsy or a mapping. *)
Definition user_well_shaped (pr : gmap string pyval) : bool :=
  match pr !! "user" with
  | Some (PDict _) | None => true
  | Some user => negb (truthy user)
  end.

Definition is_dict (v : pyval) : bool :=
  match v with
  | PDict _ => true
  | _ => false
  end.

(** What the files request returned is falsy or a list of mappings. *)
Definition files_well_shaped (files : pyval) : bool :=
  match files with
  | PList l => forallb is_dict l
  | _ => negb (truthy files)
  end.

(** The [changed_files] view of one entry of the files list. *)
Definition changed_file_view (f : pyval) : pyval :=
  match f with
  | PDict d =>
      PDict (<["filename" := default PNone (d !! "filename")]>
            (<["status" := default PNone (d !! "status")]>
            (<["additions" := default PNone (d !! "additions")]>
            (<["deletions" := default PNone (d !! "deletions")]> ∅))))
  | _ => PNone
  end.

Definition items_of (v : pyval) : list pyval :=
  match v with
  | PList l => l
  | _ => []
  end.

(** The exchange behind [_fetch_pr_reviews] and [_fetch_pr_files]
    succeeded from world [w] and brought back [payload]. *)
Definition exchange_succeeds (github_token : option string) (u : Url) (w : W)
    (payload : pyval) : Prop :=
  exists headers w1 w2 response w3,
    get_auth_headers E github_token w = (Ok headers, w1)
    /\ truthy headers = true
    /\ get_session E w1 = (Ok (), w2)
    /\ session_get E u headers w2 = (Ok response, w3)
    /\ status response = 200
    /\ json response = Ok payload.

(** [probed w paths found n w']: from world [w], probing [paths] in
    order stops after [n] probes in world [w'], at the first path whose
    content is fetched without error and is not empty ([found] is that
    content), or after all of them ([found] is [None]). *)
Inductive probed (repo_full_name : string) (github_token : option string)
  : W -> list string -> option string -> nat -> W -> Prop :=
| probed_all w :
    probed repo_full_name github_token w [] None 0 w
| probed_hit w path rest content w1 :
    get_file_content E repo_full_name path github_token w = (Ok (Some content), w1) ->
    content <> "" ->
    probed repo_full_name github_token w (path :: rest) (Some content) 1 w1
| probed_miss w path rest r w1 found n w2 :
    get_file_content E repo_full_name path github_token w = (r, w1) ->
    (forall content, r = Ok (Some content) -> content = "") ->
    probed repo_full_name github_token w1 rest found n w2 ->
    probed repo_full_name github_token w (path :: rest) found (S n) w2.

(** *** Fatal failures *)

Inductive Failure :=
| RepositoryUnavailable
| NoRulesResolved
| TargetPRNotFound (number : Z)
| NoOpenPRs
| Unexpected (message : exn).

Definition failure_message (repo_info : GitHubRepoInfo) (github_token : option string)
    (f : Failure) : string :=
  match f with
  | RepositoryUnavailable =>
      if str_truthy github_token
      then "Repository not found or access denied: " +:+ full_name repo_info
      else "Repository not found or access denied: " +:+ full_name repo_info +:+ rate_limit_note
  | NoRulesResolved =>
      "No rules found. Please provide rules or ensure .watchflow/rules.yaml exists."
  | TargetPRNotFound number =>
      "PR #" +:+ str_of_int number +:+ " not found or access denied"
  | NoOpenPRs => "No open pull requests found in this repository."
  | Unexpected message => message
  end.

(** The result a fatal failure is reported with, in state [s]. *)
Definition failure_result (repo_info : GitHubRepoInfo) (github_token : option string)
    (start_time : Time) (s : St) (f : Failure) (loaded : Z) : AnalysisResult :=
  {| success := false;
     violations := [];
     rules_loaded := loaded;
     processing_time_ms := elapsed_ms E start_time (time_time E (world s));
     error := Some (failure_message repo_info github_token f);
     repo_info := Some repo_info;
     pr_data := None;
     prs_analyzed := [] |}.

(** The number of rules a result reports after the failure [f] when
    [rules] were resolved. *)
Definition loaded_after (f : Failure) (rules : list Rule) : Z :=
  match f with
  | TargetPRNotFound _ | NoOpenPRs => len rules
  | _ => 0
  end.

Fixpoint slash_count (s : string) : nat :=
  match s with
  | EmptyString => 0
  | String c s' => if Ascii.eqb c "/" then S (slash_count s') else slash_count s'
  end.

(** The message carries the note on rate limits. *)
Definition mentions_rate_limit (message : string) : Prop :=
  exists before after, message = before +:+ rate_limit_note +:+ after.

(** The PR the analysis targets: the one asked for, else the one of the
    reference. *)
Definition target_pr (repo_info : GitHubRepoInfo) (requested_pr : option Z) : option Z :=
  match requested_pr with
  | None => pr_number repo_info
  | Some _ => requested_pr
  end.

Definition lookup_repository (repo_info : GitHubRepoInfo) (github_token : option string)
  : M pyval :=
  perform (CGetRepository (full_name repo_info) github_token)
    (get_repository E (full_name repo_info) github_token).

(** What [analyze] does once the rules are resolved. *)
Definition dispatch (repo_info : GitHubRepoInfo) (requested_pr : option Z)
    (rules : list Rule) (github_token : option string) (max_prs : Z)
    (start_time : Time) (batch_mode : bool) : M AnalysisResult :=
  if int_truthy (target_pr repo_info requested_pr) then
    _analyze_single_pr E repo_info (default 0 (target_pr repo_info requested_pr)) rules
      (len rules) github_token start_time
  else
    _analyze_latest_prs E repo_info rules (len rules) github_token max_prs start_time
      batch_mode.

(** [resolved ... s rules s2]: from state [s] the repository is found
    and the rules resolve to the non-empty list [rules], in state [s2]. *)
Definition resolved (repo_info : GitHubRepoInfo) (rules_yaml github_token : option string)
    (s : St) (rules : list Rule) (s2 : St) : Prop :=
  exists repo_data s1,
    lookup_repository repo_info github_token s = (Ok repo_data, s1)
    /\ truthy repo_data = true
    /\ _load_rules E (full_name repo_info) rules_yaml github_token s1 = (Ok rules, s2)
    /\ rules <> [].

(** [fails ... s f]: the analysis started in state [s] meets the fatal
    failure [f]. *)
Inductive fails (repo_info : GitHubRepoInfo) (requested_pr : option Z)
    (rules_yaml github_token : option string) (max_prs : Z) (batch_mode : bool)
    (s : St) : Failure -> Prop :=
| fails_lookup_raises message s1 :
    lookup_repository repo_info github_token s = (Raise message, s1) ->
    fails repo_info requested_pr rules_yaml github_token max_prs batch_mode s
      (Unexpected message)
| fails_repository repo_data s1 :
    lookup_repository repo_info github_token s = (Ok repo_data, s1) ->
    truthy repo_data = false ->
    fails repo_info requested_pr rules_yaml github_token max_prs batch_mode s
      RepositoryUnavailable
| fails_rules_raise repo_data s1 message s2 :
    lookup_repository repo_info github_token s = (Ok repo_data, s1) ->
    truthy repo_data = true ->
    _load_rules E (full_name repo_info) rules_yaml github_token s1 = (Raise message, s2) ->
    fails repo_info requested_pr rules_yaml github_token max_prs batch_mode s
      (Unexpected message)
| fails_no_rules repo_data s1 s2 :
    lookup_repository repo_info github_token s = (Ok repo_data, s1) ->
    truthy repo_data = true ->
    _load_rules E (full_name repo_info) rules_yaml github_token s1 = (Ok [], s2) ->
    fails repo_info requested_pr rules_yaml github_token max_prs batch_mode s
      NoRulesResolved
| fails_target_pr rules s2 number payload s3 :
    resolved repo_info rules_yaml github_token s rules s2 ->
    target_pr repo_info requested_pr = Some number ->
    number <> 0 ->
    _fetch_pr_data E (full_name repo_info) number github_token s2 = (Ok payload, s3) ->
    truthy payload = false ->
    fails repo_info requested_pr rules_yaml github_token max_prs batch_mode s
      (TargetPRNotFound number)
| fails_no_open_prs rules s2 s3 :
    resolved repo_info rules_yaml github_token s rules s2 ->
    int_truthy (target_pr repo_info requested_pr) = false ->
    candidate_prs E repo_info github_token max_prs s2 = (Ok [], s3) ->
    fails repo_info requested_pr rules_yaml github_token max_prs batch_mode s
      NoOpenPRs
| fails_dispatch_raises rules s2 message s3 :
    resolved repo_info rules_yaml github_token s rules s2 ->
    dispatch repo_info requested_pr rules github_token max_prs
      (time_time E (world s)) batch_mode s2 = (Raise message, s3) ->
    fails repo_info requested_pr rules_yaml github_token max_prs batch_mode s
      (Unexpected message).

End Outcomes.
(** ** The result as it is served

    [AnalysisResult.to_dict] of [src/services/standalone_analyzer.py] and
    the two endpoints of [src/api/analyze.py]. *)

Definition opt_str (o : option string) : pyval :=
  match o with
  | Some s => PStr s
  | None => PNone
  end.

Definition opt_int (o : option Z) : pyval :=
  match o with
  | Some z => PInt z
  | None => PNone
  end.

(** An entry of [prs_analyzed] as the dict it is. *)
Definition summary_dict (p : PRSummary) : pyval :=
  let d : gmap string pyval :=
    <["number" := ps_number p]>
    (<["title" := ps_title p]>
    {["violations_count" := PInt (ps_violations_count p)]}) in
  let d := match ps_violations p with
           | Some dumped => <["violations" := PList dumped]> d
           | None => d
           end in
  let d := match ps_error p with
           | Some message => <["error" := PStr message]> d
           | None => d
           end in
  PDict d.

(** The [repository] entry. *)
Definition repository_dict (r : GitHubRepoInfo) : pyval :=
  PDict (<["owner" := PStr (owner r)]>
        (<["repo" := PStr (repo r)]>
        (<["full_name" := PStr (full_name r)]>
        (<["url" := PStr (url r)]>
        {["pr_number" := opt_int (pr_number r)]})))).

(** The [pr_data] entry, for PR metadata that is not falsy. *)
Definition pr_data_dict (pr_data : pyval) : outcome pyval :=
  number ← py_get pr_data "number" PNone;
  title ← py_get pr_data "title" PNone;
  state ← py_get pr_data "state" PNone;
  user ← py_get pr_data "user" (PDict ∅);
  login ← py_get user "login" PNone;
  created_at ← py_get pr_data "created_at" PNone;
  head ← py_get pr_data "head" (PDict ∅);
  head_branch ← py_get head "ref" PNone;
  base ← py_get pr_data "base" (PDict ∅);
  base_branch ← py_get base "ref" PNone;
  Ok (PDict (<["number" := number]>
            (<["title" := title]>
            (<["state" := state]>
            (<["user" := login]>
            (<["created_at" := created_at]>
            (<["head_branch" := head_branch]>
            {["base_branch" := base_branch]}))))))).

(** Truth value of [self.pr_data], a dict or [None]. *)
Definition pr_data_truthy (o : option pyval) : bool :=
  match o with
  | Some v => truthy v
  | None => false
  end.

(** [AnalyzeRequest], once the framework has validated it. *)
Record AnalyzeRequest := {
  req_repository_url : string;
  req_pr_number : option Z;
  req_max_prs : Z;
  req_rules_yaml : option string;
  req_github_token : option string;
  req_batch_mode : bool;
}.

Record HTTPException := {
  status_code : Z;
  detail : string;
}.

Definition invalid_url_detail : string :=
  "Invalid GitHub repository URL. Supported formats: https://github.com/owner/repo, owner/repo, or git@github.com:owner/repo.git".

(** [ParseURLResponse] *)
Record ParseURLResponse := {
  pu_valid : bool;
  pu_owner : option string;
  pu_repo : option string;
  pu_full_name : option string;
  pu_pr_number : option Z;
  pu_branch : option string;
}.

(** [parse_github_url]: an exception of the parser propagates. *)
Definition parse_github_url (request : AnalyzeRequest) : outcome ParseURLResponse :=
  repo_info ← GitHubURL.parse (req_repository_url request);
  match repo_info with
  | None =>
      Ok {| pu_valid := false; pu_owner := None; pu_repo := None; pu_full_name := None;
            pu_pr_number := None; pu_branch := None |}
  | Some repo_info =>
      Ok {| pu_valid := true;
            pu_owner := Some (owner repo_info);
            pu_repo := Some (repo repo_info);
            pu_full_name := Some (full_name repo_info);
            pu_pr_number := pr_number repo_info;
            pu_branch := branch repo_info |}
  end.

Section Serving.
Context {W Rule Time : Type} (E : Env W Rule Time).

Local Abbreviation M := (M W Rule).

(** [AnalysisResult.to_dict] *)
Definition to_dict (r : AnalysisResult) : outcome (gmap string pyval) :=
  served_pr ← (if pr_data_truthy (pr_data r)
               then pr_data_dict (default PNone (pr_data r))
               else Ok PNone);
  Ok (<["success" := PBool (success r)]>
     (<["violations" := PList (model_dump E <$> violations r)]>
     (<["violations_count" := PInt (len (violations r))]>
     (<["rules_loaded" := PInt (rules_loaded r)]>
     (<["processing_time_ms" := PInt (processing_time_ms r)]>
     (<["error" := opt_str (error r)]>
     (<["repository" := match repo_info r with
                        | Some info => repository_dict info
                        | None => PNone
                        end]>
     (<["pr_data" := served_pr]>
     {["prs_analyzed" := PList (summary_dict <$> prs_analyzed r)]})))))))).

(** [analyze_repository]. A raised [HTTPException] is the reply on the
    left: the framework answers with its status code. Any other exception
    propagates, that of the parser included, which is raised before any
    call is made. The response model declares the nine entries of
    [to_dict] with the types they are built with, so the response is the
    dict itself; logging is not modelled. *)
Definition analyze_repository (request : AnalyzeRequest)
  : M (HTTPException + gmap string pyval) :=
  repo_info ← lift (GitHubURL.parse (req_repository_url request));
  match repo_info with
  | None => mret (inl {| status_code := 400; detail := invalid_url_detail |})
  | Some repo_info =>
      result ← analyze E repo_info (req_pr_number request) (req_rules_yaml request)
                 (req_github_token request) (req_max_prs request) (req_batch_mode request);
      response ← lift (to_dict result);
      mret (inr response)
  end.

End Serving.

(** ** Notions for the properties of the calls, the contexts and the
    served result *)

Section CallNotions.
Context {W Rule Time : Type} (E : Env W Rule Time).

Local Abbreviation M := (M W Rule).
Local Abbreviation St := (St W Rule).

(** The call is made about the repository [repo_full_name], with the
    credential [github_token], and an HTTP request goes to the
    configured API. *)
Definition call_about (repo_full_name : string) (github_token : option string)
    (c : Call Rule) : Prop :=
  match c with
  | CGetRepository name token
  | CGetFileContent name _ token
  | CListPullRequests name token _
  | CFetchAllPullRequests name token _ => name = repo_full_name /\ token = github_token
  | CGetAuthHeaders token => token = github_token
  | CSessionGet u _ => url_base u = api_base_url E /\ url_repo u = repo_full_name
  | CGetSession | CExecute _ _ | CLocalRulesExists | CLocalRulesReadText => True
  end.

(** The calls to the repository API client that reach the hosting
    service. A paginated listing is one call. *)
Definition service_call (c : Call Rule) : bool :=
  match c with
  | CGetRepository _ _ | CGetFileContent _ _ _ | CListPullRequests _ _ _
  | CFetchAllPullRequests _ _ _ | CSessionGet _ _ => true
  | _ => false
  end.

Definition service_calls (l : list (Call Rule)) : nat := length (List.filter service_call l).

(** [m] adds at most [n] calls to the hosting service to the record. *)
Definition costs {A} (n : nat) (m : M A) : Prop :=
  forall s r s', m s = (r, s') ->
    exists l, calls s' = calls s ++ l /\ (service_calls l <= n)%nat.

(** The listing that [max_prs] selects, and the call it is recorded as. *)
Definition listing (repo_info : GitHubRepoInfo) (github_token : option string) (max_prs : Z)
  : W -> outcome (list (gmap string pyval)) * W :=
  if 20 <? max_prs
  then fetch_all_pull_requests E (full_name repo_info) github_token max_prs
  else list_pull_requests E (full_name repo_info) github_token max_prs.

Definition listing_of (repo_info : GitHubRepoInfo) (github_token : option string)
    (max_prs : Z) : Call Rule :=
  if 20 <? max_prs
  then CFetchAllPullRequests (full_name repo_info) github_token max_prs
  else CListPullRequests (full_name repo_info) github_token max_prs.

(** The state after the call [c] brought the world to [w]. *)
Definition after (s : St) (c : Call Rule) (w : W) : St :=
  {| world := w; calls := calls s ++ [c] |}.

(** What [_fetch_pr_data] asks for. *)
Definition pr_url (repo_full_name : string) (number : Z) : Url :=
  {| url_base := api_base_url E; url_repo := repo_full_name;
     url_number := PInt number; url_suffix := "" |}.

End CallNotions.

(** The PR number an event is about:
    [event_data.get("pull_request_details", {}).get("number")]. *)
Definition event_pr_number (event_data : gmap string pyval) : pyval :=
  match event_data !! "pull_request_details" with
  | Some (PDict d) => default PNone (d !! "number")
  | _ => PNone
  end.

(** The login of the author of a PR, where it can be read off the
    metadata: the [login] entry of the [user] entry when that is a
    mapping, and [None] when there is no [user] entry or it is not a
    mapping. *)
Definition author_login (pr_data : pyval) : pyval :=
  match pr_data with
  | PDict pr =>
      match pr !! "user" with
      | Some (PDict user) => default PNone (user !! "login")
      | _ => PNone
      end
  | _ => PNone
  end.

(** The PR number of a listed PR. *)
Definition number_of (pr : gmap string pyval) : pyval := default PNone (pr !! "number").

(** A result is coherent for the repository [info] when it names the
    repository, carries an error exactly when it is unsuccessful, carries
    nothing else when it is unsuccessful, and otherwise carries a PR and
    at least one summary; the counts of its summaries add up to the number
    of its violations. *)
Definition coherent (info : GitHubRepoInfo) (r : AnalysisResult) : Prop :=
  repo_info r = Some info
  /\ (success r = true <-> error r = None)
  /\ (success r = false -> violations r = [] /\ prs_analyzed r = [] /\ pr_data r = None)
  /\ (success r = true -> prs_analyzed r <> [] /\ is_Some (pr_data r))
  /\ total_count (prs_analyzed r) = len (violations r).
(** *** What the groups of a match hold *)

Module GroupShapes.
Import GitHubURL.

(** What a bound group holds: a run that is not empty and has no [/],
    and only digits for the group [pr]. *)
Definition group_ok (name : string) (x : list ascii) : Prop :=
  x <> [] /\ forallb not_slash x = true /\ (name = "pr" -> forallb digit x = true).

Definition groups_ok (g : groups) : Prop :=
  forall name x, g !! name = Some x -> group_ok name x.

(** Every group of the pattern is a run [cls+] of characters other than
    [/], of digits for the group [pr]. *)
Fixpoint well_grouped (r : regex) : Prop :=
  match r with
  | RBegin | REnd | RLit _ | RPlus _ _ => True
  | ROpt r' => well_grouped r'
  | RAlt r1 r2 | RSeq r1 r2 => well_grouped r1 /\ well_grouped r2
  | RGroup name (RPlus _ cls) =>
      (forall c, cls c = true -> not_slash c = true)
      /\ (name = "pr" -> forall c, cls c = true -> digit c = true)
  | RGroup _ _ => False
  end.

(** Every match of the pattern binds the group [name]. *)
Fixpoint binds (name : string) (r : regex) : bool :=
  match r with
  | RGroup n r' => String.eqb n name || binds name r'
  | RSeq r1 r2 => binds name r1 || binds name r2
  | RAlt r1 r2 => binds name r1 && binds name r2
  | _ => false
  end.

(** The text consists of characters that [str.strip()] removes. *)
Definition blank (s : string) : bool := forallb whitespace (lit s).

(** The trailers that a keyword introduces, and their text without the
    slash in front of the keyword. *)
Definition keyword (t : ReferenceShapes.Trailer) : bool :=
  match t with
  | ReferenceShapes.Tree _ | ReferenceShapes.Blob _ | ReferenceShapes.Pull _ => true
  | _ => false
  end.

Definition glued_text (t : ReferenceShapes.Trailer) : list ascii :=
  match t with
  | ReferenceShapes.Tree b => lit "tree/" ++ b
  | ReferenceShapes.Blob b => lit "blob/" ++ b
  | ReferenceShapes.Pull n => lit "pull/" ++ n
  | _ => []
  end.

End GroupShapes.
(** ** The rule feasibility endpoints ([src/api/rules.py]) *)

Module RulesAPI.
Import GitHubURL.

(** [RuleEvaluationRequest] *)
Record RuleEvaluationRequest := {
  rule_text : string;
  extra_event_data : option pyval;
}.

(** [AgentResult] as the endpoints build it: the keyword arguments
    [success], [message] and [data]. *)
Record RuleAgentResult := {
  ra_success : bool;
  ra_message : string;
  ra_data : gmap string pyval;
}.

(** [c.lower()] for a character with a code point below 256: the
    letters [A-Z] and the capital letters of Latin-1 (192 to 222 but the
    multiplication sign, 215) move up by 32. *)
Definition lower_char (c : ascii) : ascii :=
  if (((65 <=? code c) && (code c <=? 90))
      || ((192 <=? code c) && (code c <=? 214))
      || ((216 <=? code c) && (code c <=? 222)))%N
  then Ascii.ascii_of_N (code c + 32)
  else c.

(** [s.lower()] *)
Definition lower (s : list ascii) : list ascii := lower_char <$> s.

(** [needle in hay] *)
Fixpoint contains (needle hay : list ascii) : bool :=
  match strip_prefix needle hay with
  | Some _ => true
  | None =>
      match hay with
      | _ :: hay' => contains needle hay'
      | [] => false
      end
  end.

Definition dq : string := String "034"%char "".
Definition nl : string := String "010"%char "".

(** The lines of a text, joined by line ends. *)
Fixpoint join_lines (ls : list string) : string :=
  match ls with
  | [] => ""
  | [l] => l
  | l :: ls' => l +:+ nl +:+ join_lines ls'
  end.

Definition linked_issue_rule_yaml : string :=
  join_lines
    [ "rules:";
      "  - description: " +:+ dq +:+ "PRs must reference an issue number (e.g., Fixes #123)" +:+ dq;
      "    enabled: true";
      "    severity: " +:+ dq +:+ "medium" +:+ dq;
      "    event_types: [" +:+ dq +:+ "pull_request" +:+ dq +:+ "]";
      "    parameters:";
      "      require_linked_issue: true" ].

Definition linked_issue_snippet : string :=
  join_lines
    [ "  - description: " +:+ dq +:+ "PRs must reference an issue number (e.g., Fixes #123)" +:+ dq;
      "    enabled: true";
      "    severity: " +:+ dq +:+ "medium" +:+ dq;
      "    event_types: [" +:+ dq +:+ "pull_request" +:+ dq +:+ "]";
      "    parameters:";
      "      require_linked_issue: true" ].

Definition linked_issue_reply : RuleAgentResult :=
  {| ra_success := true;
     ra_message := "Rule is feasible and can be implemented with require_linked_issue validator";
     ra_data := <["supported" := PBool true]>
                (<["rule_yaml" := PStr linked_issue_rule_yaml]>
                {["snippet" := PStr linked_issue_snippet]}) |}.

Definition title_pattern_rule_yaml : string :=
  join_lines
    [ "rules:";
      "  - description: " +:+ dq +:+ "Pull requests must follow conventional commit format" +:+ dq;
      "    enabled: true";
      "    severity: " +:+ dq +:+ "medium" +:+ dq;
      "    event_types: [" +:+ dq +:+ "pull_request" +:+ dq +:+ "]";
      "    parameters:";
      "      title_pattern: " +:+ dq +:+ "^feat|^fix|^docs|^style|^refactor|^test|^chore|^perf|^ci|^build|^revert" ].

Definition title_pattern_snippet : string :=
  join_lines
    [ "  - description: " +:+ dq +:+ "Pull requests must follow conventional commit format" +:+ dq;
      "    enabled: true";
      "    severity: " +:+ dq +:+ "medium" +:+ dq;
      "    event_types: [" +:+ dq +:+ "pull_request" +:+ dq +:+ "]";
      "    parameters:";
      "      title_pattern: " +:+ dq +:+ "^feat|^fix|^docs|^style|^refactor|^test|^chore|^perf|^ci|^build|^revert" ].

Definition title_pattern_reply : RuleAgentResult :=
  {| ra_success := true;
     ra_message := "Rule is feasible and can be implemented with title_pattern validator";
     ra_data := <["supported" := PBool true]>
                (<["rule_yaml" := PStr title_pattern_rule_yaml]>
                {["snippet" := PStr title_pattern_snippet]}) |}.

Definition code_owner_rule_yaml : string :=
  join_lines
    [ "rules:";
      "  - description: " +:+ dq +:+ "Changes to critical files require code owner review" +:+ dq;
      "    enabled: true";
      "    severity: " +:+ dq +:+ "high" +:+ dq;
      "    event_types: [" +:+ dq +:+ "pull_request" +:+ dq +:+ "]";
      "    parameters:";
      "      require_code_owner_reviewers: true" ].

Definition code_owner_snippet : string :=
  join_lines
    [ "  - description: " +:+ dq +:+ "Changes to critical files require code owner review" +:+ dq;
      "    enabled: true";
      "    severity: " +:+ dq +:+ "high" +:+ dq;
      "    event_types: [" +:+ dq +:+ "pull_request" +:+ dq +:+ "]";
      "    parameters:";
      "      require_code_owner_reviewers: true" ].

Definition code_owner_reply : RuleAgentResult :=
  {| ra_success := true;
     ra_message := "Rule is feasible and can be implemented with require_code_owner_reviewers validator";
     ra_data := <["supported" := PBool true]>
                (<["rule_yaml" := PStr code_owner_rule_yaml]>
                {["snippet" := PStr code_owner_snippet]}) |}.

Definition max_lines_rule_yaml : string :=
  join_lines
    [ "rules:";
      "  - description: " +:+ dq +:+ "PRs must not exceed 500 lines changed" +:+ dq;
      "    enabled: true";
      "    severity: " +:+ dq +:+ "medium" +:+ dq;
      "    event_types: [" +:+ dq +:+ "pull_request" +:+ dq +:+ "]";
      "    parameters:";
      "      max_lines: 500" ].

Definition max_lines_snippet : string :=
  join_lines
    [ "  - description: " +:+ dq +:+ "PRs must not exceed 500 lines changed" +:+ dq;
      "    enabled: true";
      "    severity: " +:+ dq +:+ "medium" +:+ dq;
      "    event_types: [" +:+ dq +:+ "pull_request" +:+ dq +:+ "]";
      "    parameters:";
      "      max_lines: 500" ].

Definition max_lines_reply : RuleAgentResult :=
  {| ra_success := true;
     ra_message := "Rule is feasible and can be implemented with max_pr_loc validator";
     ra_data := <["supported" := PBool true]>
                (<["rule_yaml" := PStr max_lines_rule_yaml]>
                {["snippet" := PStr max_lines_snippet]}) |}.

Definition protected_branches_rule_yaml : string :=
  join_lines
    [ "rules:";
      "  - description: " +:+ dq +:+ "No direct commits to main branch" +:+ dq;
      "    enabled: true";
      "    severity: " +:+ dq +:+ "critical" +:+ dq;
      "    event_types: [" +:+ dq +:+ "push" +:+ dq +:+ "]";
      "    parameters:";
      "      protected_branches: [" +:+ dq +:+ "main" +:+ dq +:+ ", " +:+ dq +:+ "master" +:+ dq +:+ "]" ].

Definition protected_branches_snippet : string :=
  join_lines
    [ "  - description: " +:+ dq +:+ "No direct commits to main branch" +:+ dq;
      "    enabled: true";
      "    severity: " +:+ dq +:+ "critical" +:+ dq;
      "    event_types: [" +:+ dq +:+ "push" +:+ dq +:+ "]";
      "    parameters:";
      "      protected_branches: [" +:+ dq +:+ "main" +:+ dq +:+ ", " +:+ dq +:+ "master" +:+ dq +:+ "]" ].

Definition protected_branches_reply : RuleAgentResult :=
  {| ra_success := true;
     ra_message := "Rule is feasible and can be implemented with protected_branches validator";
     ra_data := <["supported" := PBool true]>
                (<["rule_yaml" := PStr protected_branches_rule_yaml]>
                {["snippet" := PStr protected_branches_snippet]}) |}.

Definition unsupported_rule_yaml : string :=
  "".

Definition unsupported_snippet : string :=
  "".

Definition unsupported_reply : RuleAgentResult :=
  {| ra_success := false;
     ra_message := "This rule pattern is not currently supported by Watchflow validators";
     ra_data := <["supported" := PBool false]>
                (<["rule_yaml" := PStr unsupported_rule_yaml]>
                {["snippet" := PStr unsupported_snippet]}) |}.

(** [evaluate_rule] *)
Definition evaluate_rule (request : RuleEvaluationRequest) : RuleAgentResult :=
  let text := lower (lit (rule_text request)) in
  if contains (lit "reference an issue") text || contains (lit "fixes #") text
  then linked_issue_reply
  else if contains (lit "title pattern") text || contains (lit "conventional commit") text
  then title_pattern_reply
  else if contains (lit "code owner") text || contains (lit "reviewer approval") text
  then code_owner_reply
  else if contains (lit "max lines") text || contains (lit "500 lines") text
  then max_lines_reply
  else if contains (lit "no direct commit") text || contains (lit "main branch") text
  then protected_branches_reply
  else unsupported_reply.

(** [evaluate_rule_test]: [feasibility] stands for getting the
    feasibility agent and running it on the rule text, which returns a
    result or raises. *)
Definition evaluate_rule_test (feasibility : string -> outcome RuleAgentResult)
    (request : RuleEvaluationRequest) : RuleAgentResult :=
  match feasibility (rule_text request) with
  | Ok result => result
  | Raise _ => evaluate_rule request
  end.

(** The phrases the mock looks for, in the order of its tests. *)
Definition phrases : list (list ascii) :=
  lit <$> [ "reference an issue"; "fixes #"; "title pattern"; "conventional commit";
            "code owner"; "reviewer approval"; "max lines"; "500 lines";
            "no direct commit"; "main branch" ]%string.

(** The number of double quotes of a text. *)
Definition quotes (s : string) : nat :=
  length (List.filter (Ascii.eqb "034"%char) (lit s)).

End RulesAPI.
(** ** The chat model providers ([src/integrations/providers]) *)

Module Providers.

(** The attributes of a provider that [get_chat_model] reads. [kwargs]
    is a dict: its items in insertion order. *)
Record Provider := {
  model : pyval;
  max_tokens : pyval;
  temperature : pyval;
  kwargs : list (string * pyval);
}.

(** What [get_chat_model] does: it calls [ChatOpenAI] with keyword
    arguments, or raises the [RuntimeError] of a missing package, or
    makes a call that gives the keyword [keyword] twice, which raises a
    [TypeError]. *)
Inductive Construction :=
| ChatOpenAI (keywords : gmap string pyval)
| RuntimeError (message : string)
| MultipleValues (keyword : string).

(** [d.get(key)] *)
Fixpoint get (key : string) (d : list (string * pyval)) : option pyval :=
  match d with
  | [] => None
  | (k, v) :: d' => if String.eqb k key then Some v else get key d'
  end.

(** [{k: v for k, v in d.items() if k not in names}] *)
Definition without (names : list string) (d : list (string * pyval))
  : list (string * pyval) :=
  List.filter (fun kv => negb (bool_decide (kv.1 ∈ names))) d.

(** [d.update(other)] *)
Definition update (d : gmap string pyval) (other : list (string * pyval))
  : gmap string pyval :=
  fold_left (fun acc kv => <[kv.1 := kv.2]> acc) other d.

(** [OpenAIProvider.get_chat_model]; [installed] tells whether
    [langchain_openai] can be imported. *)
Definition openai_get_chat_model (installed : bool) (self : Provider) : Construction :=
  if negb installed then
    RuntimeError "OpenAI provider requires 'langchain-openai' package. Install with: pip install langchain-openai"
  else
    let base_url := default PNone (get "base_url" (kwargs self)) in
    let chat_openai_kwargs : gmap string pyval :=
      <["model" := model self]>
      (<["max_tokens" := max_tokens self]>
      (<["temperature" := temperature self]>
      {["api_key" := default PNone (get "api_key" (kwargs self))]})) in
    let chat_openai_kwargs :=
      if truthy base_url then <["base_url" := base_url]> chat_openai_kwargs
      else chat_openai_kwargs in
    ChatOpenAI (update chat_openai_kwargs (without ["api_key"; "base_url"] (kwargs self))).

Definition OPENROUTER_BASE_URL : string := "https://openrouter.ai/api/v1".

(** The first of the items that names a keyword already given. *)
Fixpoint first_repeated (given : gmap string pyval) (items : list (string * pyval))
  : option string :=
  match items with
  | [] => None
  | (k, _) :: items' =>
      if bool_decide (is_Some (given !! k)) then Some k else first_repeated given items'
  end.

(** [OpenRouterProvider.get_chat_model] *)
Definition openrouter_get_chat_model (installed : bool) (self : Provider) : Construction :=
  if negb installed then
    RuntimeError "OpenRouter provider requires 'langchain-openai' package. Install with: pip install langchain-openai"
  else
    let given : gmap string pyval :=
      <["model" := model self]>
      (<["max_tokens" := max_tokens self]>
      (<["temperature" := temperature self]>
      (<["api_key" := default PNone (get "api_key" (kwargs self))]>
      (<["base_url" := PStr OPENROUTER_BASE_URL]>
      {["default_headers" :=
          PDict (<["HTTP-Referer" :=
                     default (PStr "https://watchflow.dev") (get "site_url" (kwargs self))]>
                 {["X-Title" := default (PStr "WatchFlow") (get "site_name" (kwargs self))]})
      ]})))) in
    let others := without ["api_key"; "site_url"; "site_name"] (kwargs self) in
    match first_repeated given others with
    | Some keyword => MultipleValues keyword
    | None => ChatOpenAI (update given others)
    end.

(** [supports_structured_output] and [get_provider_name] of the two
    providers. *)
Definition openai_supports_structured_output : bool := true.
Definition openai_get_provider_name : string := "openai".
Definition openrouter_supports_structured_output : bool := true.
Definition openrouter_get_provider_name : string := "openrouter".

(** The keywords [OpenRouterProvider] gives itself, [api_key] apart. *)
Definition reserved : list string :=
  ["model"; "max_tokens"; "temperature"; "base_url"; "default_headers"].

(** The keys of a dict are distinct. *)
Definition is_dict_items (d : list (string * pyval)) : Prop := NoDup d.*1.

End Providers.

(** ** A concrete world, to run the model on *)

Module Demo.

(** The state of a small hosting service and of the host file system. *)
Record World := {
  repositories : gmap string pyval;
  file_contents : gmap (string * string) string;
  open_prs : list (gmap string pyval);
  pulls : gmap Z pyval;
  pr_files : pyval;
  engine_up : bool;
  local_rules : option string;
  requests : Z;
}.

Definition tick (w : World) : World :=
  {| repositories := repositories w; file_contents := file_contents w;
     open_prs := open_prs w; pulls := pulls w; pr_files := pr_files w;
     engine_up := engine_up w; local_rules := local_rules w;
     requests := requests w + 1 |}.

(** The documents the YAML reader knows. *)
Definition documents : gmap string pyval :=
  <["rules: [{description: a}, oops, {description: b}]" :=
      PDict {["rules" := PList [PDict {["description" := PStr "a"]}; PStr "oops";
                                PDict {["description" := PStr "b"]}]]}]>
  (<["rules: [{description: c}]" := PDict {["rules" := PList [PDict {["description" := PStr "c"]}]]}]>
  (<["rules: []" := PDict {["rules" := PList []]}]>
  (<["- a" := PList [PStr "a"]]>
  (<["version: 1" := PDict {["version" := PInt 1]}]> ∅)))).

Definition violation_of (rule : string) : pyval := PDict {["rule" := PStr rule]}.

Definition env : Env World string Z :=
  {| get_repository name _ w := (Ok (default PNone (repositories w !! name)), tick w);
     get_file_content name path _ w := (Ok (file_contents w !! (name, path)), tick w);
     list_pull_requests _ _ per_page w := (Ok (take (Z.to_nat per_page) (open_prs w)), tick w);
     fetch_all_pull_requests _ _ limit w := (Ok (take (Z.to_nat limit) (open_prs w)), tick w);
     get_auth_headers _ w := (Ok (PDict {["Accept" := PStr "application/vnd.github+json"]}), w);
     get_session w := (Ok (), w);
     session_get u _ w :=
       (if String.eqb (url_suffix u) "" then
          match url_number u with
          | PInt n =>
              match pulls w !! n with
              | Some pr => Ok {| status := 200; json := Ok pr |}
              | None => Ok {| status := 404; json := Ok PNone |}
              end
          | _ => Ok {| status := 404; json := Ok PNone |}
          end
        else if String.eqb (url_suffix u) "/files" then
          Ok {| status := 200; json := Ok (pr_files w) |}
        else Ok {| status := 200; json := Ok (PList []) |},
        tick w);
     execute _ rules w :=
       (if engine_up w then
          Ok {| data := Some {["evaluation_result" :=
                  {| er_violations := Some (PList (violation_of <$> rules)) |}]} |}
        else Raise "engine unavailable",
        tick w);
     model_validate v :=
       match v with
       | PDict _ => Ok {| v_fields := v; v_pr_number := PNone |}
       | _ => Raise "validation error"
       end;
     model_dump v := PDict (<["pr_number" := v_pr_number v]> {["fields" := v_fields v]});
     safe_load text :=
       match documents !! text with
       | Some doc => Ok doc
       | None => Raise "could not parse the document"
       end;
     parse_rule d :=
       match d !! "description" with
       | Some (PStr s) => Ok (Some s)
       | _ => Raise "description: field required"
       end;
     local_rules_exists w := (Ok (bool_decide (is_Some (local_rules w))), w);
     local_rules_read_text w :=
       (match local_rules w with
        | Some text => Ok text
        | None => Raise "No such file or directory"
        end, w);
     api_base_url := "https://api.github.com";
     rules_file_path := ".watchflow/rules.yaml";
     time_time w := 10 * requests w;
     elapsed_ms t0 t1 := t1 - t0 |}.

Definition pr (number : Z) (title : string) (user : pyval) : gmap string pyval :=
  <["number" := PInt number]> (<["title" := PStr title]> {["user" := user]}).

Definition octocat : pyval := PDict {["login" := PStr "octocat"]}.

(** Three open PRs; the author of the second comes as a bare string. *)
Definition three_prs : list (gmap string pyval) :=
  [pr 1 "Add parser" octocat; pr 2 "Fix typo" (PStr "ghost"); pr 3 "Bump version" octocat].

Definition hub : World :=
  {| repositories := {["octo/demo" := PDict {["full_name" := PStr "octo/demo"]}]};
     file_contents :=
       <[("octo/demo", ".watchflow/rules.yaml") := "rules: [{description: c}]"]>
       {[("octo/demo", "CODEOWNERS") := "* @octocat"]};
     open_prs := three_prs;
     pulls := <[7 := PDict (pr 7 "Rework cache" (PStr "ghost"))]>
              {[1 := PDict (pr 1 "Add parser" octocat)]};
     pr_files := PList [PDict {["filename" := PStr "README.md"]}];
     engine_up := true;
     local_rules := None;
     requests := 0 |}.

(** The same service while the evaluation engine is down. *)
Definition hub_engine_down : World :=
  {| repositories := repositories hub; file_contents := file_contents hub;
     open_prs := open_prs hub; pulls := pulls hub; pr_files := pr_files hub;
     engine_up := false; local_rules := local_rules hub; requests := requests hub |}.

(** The same service after the rules were moved to the host: the rules
    file of the repository lists no rule, the local file lists one. *)
Definition hub_rules_moved : World :=
  {| repositories := repositories hub;
     file_contents := {[("octo/demo", ".watchflow/rules.yaml") := "rules: []"]};
     open_prs := open_prs hub; pulls := pulls hub; pr_files := pr_files hub;
     engine_up := true; local_rules := Some "rules: [{description: c}]";
     requests := 0 |}.

Definition start (w : World) : St World string := {| world := w; calls := [] |}.

Definition octo_demo : GitHubRepoInfo :=
  {| owner := "octo"; repo := "demo"; pr_number := None; branch := None |}.

Definition two_rules_and_a_stray : string :=
  "rules: [{description: a}, oops, {description: b}]".

(** The context of the first PR, built while the engine is down, and the
    state it is built in. *)
Definition built : outcome (gmap string pyval) * St World string :=
  _build_event_data env "octo/demo" (PDict (pr 1 "Add parser" octocat)) None
    (start hub_engine_down).

Definition built_context : gmap string pyval := value_or ∅ built.1.

(** The state in which the repository was found. *)
Definition found_repository : St World string :=
  (lookup_repository env octo_demo None (start hub)).2.

(** What the analysis of PR #1 under two rules does once they are
    resolved. *)
Definition dispatched : outcome AnalysisResult * St World string :=
  dispatch env octo_demo (Some 1) ["a"; "b"]%string None 5
    (time_time env (world (start hub))) false found_repository.

Definition no_result : AnalysisResult :=
  {| success := false; violations := []; rules_loaded := 0; processing_time_ms := 0;
     error := None; repo_info := None; pr_data := None; prs_analyzed := [] |}.

End Demo.
(** ** More concrete cases *)

Module Cases.

(** The service of [Demo] when the listing of PRs is out of order, with
    a YAML reader that knows one more document. *)
Definition offline : Env Demo.World string Z :=
  {| get_repository := get_repository Demo.env;
     get_file_content := get_file_content Demo.env;
     list_pull_requests _ _ _ w := (Raise "connection refused", Demo.tick w);
     fetch_all_pull_requests _ _ _ w := (Raise "connection refused", Demo.tick w);
     get_auth_headers := get_auth_headers Demo.env;
     get_session := get_session Demo.env;
     session_get := session_get Demo.env;
     execute := execute Demo.env;
     model_validate := model_validate Demo.env;
     model_dump := model_dump Demo.env;
     safe_load text :=
       if String.eqb text "rules: none"
       then Ok (PDict {["rules" := PStr "none"]})
       else safe_load Demo.env text;
     parse_rule := parse_rule Demo.env;
     local_rules_exists := local_rules_exists Demo.env;
     local_rules_read_text := local_rules_read_text Demo.env;
     api_base_url := api_base_url Demo.env;
     rules_file_path := rules_file_path Demo.env;
     time_time := time_time Demo.env;
     elapsed_ms := elapsed_ms Demo.env |}.

(** The service of [Demo] with one more PR, whose author is gone. *)
Definition hub_with_ghost : Demo.World :=
  {| Demo.repositories := Demo.repositories Demo.hub;
     Demo.file_contents := Demo.file_contents Demo.hub;
     Demo.open_prs := Demo.open_prs Demo.hub;
     Demo.pulls := <[9 := PDict (Demo.pr 9 "Old change" PNone)]> (Demo.pulls Demo.hub);
     Demo.pr_files := Demo.pr_files Demo.hub;
     Demo.engine_up := true;
     Demo.local_rules := None;
     Demo.requests := 0 |}.

Definition absent : GitHubRepoInfo :=
  {| owner := "octo"; repo := "absent"; pr_number := None; branch := None |}.

(** The analysis of PR #1 under two rules, and its result. *)
Definition analysed : outcome AnalysisResult * St Demo.World string :=
  analyze Demo.env Demo.octo_demo (Some 1) (Some Demo.two_rules_and_a_stray) None 5 false
    (Demo.start Demo.hub).

Definition analysed_result : AnalysisResult := value_or Demo.no_result analysed.1.

(** The analysis of PR #9, and the request for it. *)
Definition ghost_request : AnalyzeRequest :=
  {| req_repository_url := "https://github.com/octo/demo/pull/9";
     req_pr_number := None;
     req_max_prs := 5;
     req_rules_yaml := None;
     req_github_token := None;
     req_batch_mode := false |}.

Definition ghost_analysed : outcome AnalysisResult * St Demo.World string :=
  analyze Demo.env
    {| owner := "octo"; repo := "demo"; pr_number := Some 9; branch := None |}
    None None None 5 false (Demo.start hub_with_ghost).

(** A pull segment of 4301 digits, one more than [int] converts, and the
    request for it. *)
Definition long_number : list ascii := repeat "7"%char (Z.to_nat 4301).

Definition long_pull : string :=
  "https://github.com/octo/demo/pull/" +:+ GitHubURL.str long_number.

Definition long_request : AnalyzeRequest :=
  {| req_repository_url := long_pull;
     req_pr_number := None;
     req_max_prs := 5;
     req_rules_yaml := None;
     req_github_token := None;
     req_batch_mode := false |}.

(** A small event, and what the evaluator makes of it. *)
Definition small_event : gmap string pyval :=
  {["pull_request_details" := PDict {["number" := PInt 1]}]}.

Definition found_c : Violation :=
  {| v_fields := Demo.violation_of "c"; v_pr_number := PNone |}.

(** The context of a draft that has no number yet. *)
Definition draft : outcome (gmap string pyval) * St Demo.World string :=
  _build_event_data Demo.env "octo/demo" (PDict {["title" := PStr "Draft"]}) None
    (Demo.start Demo.hub).

(** A provider with a key and a model of its own choice. *)
Definition provider : Providers.Provider :=
  {| Providers.model := PStr "gpt-4o";
     Providers.max_tokens := PInt 1024;
     Providers.temperature := PInt 0;
     Providers.kwargs := [("api_key", PStr "sk-demo"); ("model", PStr "gpt-4o-mini")] |}.

End Cases.

(** * Properties *)

(** ** Running computations *)

Ltac run :=
  unfold mbind, M_bind, outcome_bind, mret, M_ret, outcome_ret,
         try_except, try_pure, lift, perform, now in *.

(** Case analysis on the innermost scrutinee of the goal, repeatedly; a
    scrutinee that was met before is replaced by what it was found to be. *)
Ltac cases :=
  repeat (simpl; try done;
          match goal with
          | H : ?x = _ |- context [match ?x with _ => _ end] => rewrite H
          | |- context [match ?x with _ => _ end] =>
              lazymatch x with
              | context [match _ with _ => _ end] => fail
              | _ => destruct x eqn:?
              end
          end).

Section MonadFacts.
Context {W Rule Time : Type} (E : Env W Rule Time).

Local Abbreviation M := (M W Rule).
Local Abbreviation St := (St W Rule).

Lemma bind_run {A B} (m : M A) (f : A -> M B) (s : St) :
  (m ≫= f) s = match m s with
               | (Ok a, s') => f a s'
               | (Raise e, s') => (Raise e, s')
               end.
Proof. reflexivity. Qed.

Lemma try_except_run {A} (m : M A) (h : exn -> M A) (s : St) :
  try_except m h s = match m s with
                     | (Ok a, s') => (Ok a, s')
                     | (Raise e, s') => h e s'
                     end.
Proof. reflexivity. Qed.

Lemma never_raises_ret {A} (a : A) : never_raises (mret a : M A).
Proof. intros s. by exists a, s. Qed.

Lemma never_raises_now : never_raises (now E).
Proof. intros s. by eexists _, s. Qed.

Lemma never_raises_bind {A B} (m : M A) (f : A -> M B) :
  never_raises m -> (forall a, never_raises (f a)) -> never_raises (m ≫= f).
Proof.
  intros Hm Hf s. destruct (Hm s) as (a & s1 & Ha).
  destruct (Hf a s1) as (b & s2 & Hb).
  exists b, s2. by rewrite bind_run, Ha.
Qed.

Lemma never_raises_try {A} (m : M A) (h : exn -> M A) :
  (forall e, never_raises (h e)) -> never_raises (try_except m h).
Proof.
  intros Hh s. rewrite try_except_run.
  destruct (m s) as [[a|e] s1]; [by exists a, s1 | apply Hh].
Qed.

Lemma performs_ret {A} P (a : A) : performs P (mret a : M A).
Proof.
  intros s r s' [= <- <-]. exists []. by rewrite app_nil_r.
Qed.

Lemma performs_lift {A} P (o : outcome A) : performs (Rule := Rule) (W := W) P (lift o).
Proof.
  intros s r s' [= <- <-]. exists []. by rewrite app_nil_r.
Qed.

Lemma performs_now P : performs P (now E).
Proof.
  intros s r s' [= <- <-]. exists []. by rewrite app_nil_r.
Qed.

Lemma performs_perform {A} (P : Call Rule -> Prop) c (f : W -> outcome A * W) :
  P c -> performs P (perform c f).
Proof.
  intros Hc s r s'. unfold perform. destruct (f (world s)) as [r1 w1].
  intros [= <- <-]. exists [c]. split; [done | by constructor].
Qed.

Lemma performs_bind {A B} P (m : M A) (f : A -> M B) :
  performs P m -> (forall a, performs P (f a)) -> performs P (m ≫= f).
Proof.
  intros Hm Hf s r s'. rewrite bind_run.
  destruct (m s) as [[a|e] s1] eqn:Hms.
  - intros Hfa. destruct (Hm _ _ _ Hms) as (l1 & Hs1 & Hl1).
    destruct (Hf _ _ _ _ Hfa) as (l2 & Hs2 & Hl2).
    exists (l1 ++ l2). rewrite Hs2, Hs1, app_assoc. split; [done | by apply Forall_app].
  - intros [= <- <-]. eauto.
Qed.

Lemma performs_try {A} P (m : M A) (h : exn -> M A) :
  performs P m -> (forall e, performs P (h e)) -> performs P (try_except m h).
Proof.
  intros Hm Hh s r s'. rewrite try_except_run.
  destruct (m s) as [[a|e] s1] eqn:Hms.
  - intros [= <- <-]. eauto.
  - intros Hhe. destruct (Hm _ _ _ Hms) as (l1 & Hs1 & Hl1).
    destruct (Hh _ _ _ _ Hhe) as (l2 & Hs2 & Hl2).
    exists (l1 ++ l2). rewrite Hs2, Hs1, app_assoc. split; [done | by apply Forall_app].
Qed.

Lemma performs_weaken {A} (P Q : Call Rule -> Prop) (m : M A) :
  (forall c, P c -> Q c) -> performs P m -> performs Q m.
Proof.
  intros HPQ Hm s r s' Hrun. destruct (Hm _ _ _ Hrun) as (l & -> & Hl).
  exists l. split; [done | by eapply Forall_impl].
Qed.

End MonadFacts.

(** Breaks a goal [performs P m] down along the shape of [m]. *)
Ltac performs_step :=
  first
    [ apply performs_ret
    | apply performs_lift
    | apply performs_now
    | apply performs_perform
    | apply performs_bind; [| intros ?]
    | apply performs_try; [| intros ?]
    | match goal with
      | |- performs _ (if ?b then _ else _) => destruct b
      | |- performs _ (match ?x with _ => _ end) => destruct x
      | |- performs _ (let _ := _ in _) => cbv zeta
      end ].

(** ** Strings *)

Lemma slash_count_app (a b : string) :
  slash_count (a +:+ b) = (slash_count a + slash_count b)%nat.
Proof.
  induction a as [|c a IH]; [done|]. simpl. destruct (Ascii.eqb c "/"); simpl; lia.
Qed.

Lemma append_empty_r (a : string) : a +:+ "" = a.
Proof.
  induction a as [|c a IH]; [done|].
  change (String c (a +:+ "") = String c a). by rewrite IH.
Qed.

Lemma append_assoc (a b c : string) : (a +:+ b) +:+ c = a +:+ (b +:+ c).
Proof.
  induction a as [|x a IH]; [done|].
  change (String x ((a +:+ b) +:+ c) = String x (a +:+ (b +:+ c))). by rewrite IH.
Qed.


(** ** Rule documents and rule sources *)

Section RuleFacts.
Context {W Rule Time : Type} (E : Env W Rule Time).

Local Abbreviation M := (M W Rule).
Local Abbreviation St := (St W Rule).

Lemma parse_rules_loop_omap (entries : list pyval) (rules : list Rule) :
  parse_rules_loop E entries rules = rules ++ omap (parsed_entry E) entries.
Proof.
  revert rules. induction entries as [|entry entries IH]; intros rules; simpl.
  - by rewrite app_nil_r.
  - destruct entry as [| | | | |d]; simpl; try apply IH.
    destruct (parse_rule E d) as [[rule|]|]; rewrite IH; [|done..].
    by rewrite <- app_assoc.
Qed.

Lemma omap_length_well_formed (entries : list pyval) :
  length (omap (parsed_entry E) entries) = length (filter (well_formed E) entries).
Proof.
  induction entries as [|entry entries IH]; [done|].
  rewrite filter_cons. simpl.
  destruct (decide (well_formed E entry)) as [Hwf|Hwf];
    unfold well_formed in Hwf; rewrite bool_decide_spec in Hwf.
  - destruct Hwf as [rule ->]. simpl. f_equal. apply IH.
  - destruct (parsed_entry E entry); [|apply IH]. destruct Hwf; eauto.
Qed.

Lemma omap_skip_malformed (before after : list pyval) (entry : pyval) :
  well_formed E entry = false ->
  omap (parsed_entry E) (before ++ entry :: after)
  = omap (parsed_entry E) (before ++ after).
Proof.
  intros Hbad. rewrite !omap_app. f_equal. simpl.
  destruct (parsed_entry E entry) eqn:Hentry; [|done].
  unfold well_formed in Hbad. apply bool_decide_eq_false in Hbad.
  destruct Hbad. rewrite Hentry. eauto.
Qed.

Lemma parse_rules_from_yaml_total (yaml_content : string) :
  exists rules, _parse_rules_from_yaml E yaml_content = Ok rules.
Proof.
  unfold _parse_rules_from_yaml, try_pure.
  match goal with |- context [match ?b with Ok _ => _ | Raise _ => _ end] => destruct b end;
    eauto.
Qed.

Lemma parse_rules_from_yaml_entries (yaml_content : string) d rs entries :
  safe_load E yaml_content = Ok (PDict d) ->
  d !! "rules" = Some rs ->
  py_iter rs = Ok entries ->
  _parse_rules_from_yaml E yaml_content = Ok (omap (parsed_entry E) entries).
Proof.
  intros Hload Hrules Hiter. unfold _parse_rules_from_yaml.
  rewrite Hload. simpl. rewrite Hrules, Hiter. simpl.
  by rewrite parse_rules_loop_omap.
Qed.

(** C4. A rule document whose [rules] entries are [entries] parses to
    the rules of the well-formed entries, in order: with N well-formed
    and M malformed entries there are exactly N rules, and a malformed
    entry anywhere in the sequence changes nothing to what the others
    yield. A document that is not a mapping, or has no [rules] key,
    parses to the empty list, and parsing never raises. *)
Theorem parse_rules_from_yaml_skips_malformed (yaml_content : string) :
  (exists rules, _parse_rules_from_yaml E yaml_content = Ok rules)
  /\ (forall d entries,
        safe_load E yaml_content = Ok (PDict d) ->
        d !! "rules" = Some (PList entries) ->
        exists rules,
          _parse_rules_from_yaml E yaml_content = Ok rules
          /\ rules = omap (parsed_entry E) entries
          /\ length rules = length (filter (well_formed E) entries)
          /\ (length rules + length (filter (fun e => ¬ well_formed E e) entries)
              = length entries)%nat)
  /\ (forall before entry after,
        well_formed E entry = false ->
        parse_rules_loop E (before ++ entry :: after) []
        = parse_rules_loop E (before ++ after) [])
  /\ (forall doc,
        safe_load E yaml_content = Ok doc ->
        (forall d, doc = PDict d -> d !! "rules" = None) ->
        _parse_rules_from_yaml E yaml_content = Ok []).
Proof.
  split; [apply parse_rules_from_yaml_total|].
  split; [|split].
  - intros d entries Hload Hrules. eexists. split; [|split; [done|split]].
    + by eapply parse_rules_from_yaml_entries.
    + apply omap_length_well_formed.
    + rewrite omap_length_well_formed.
      pose proof (filter_app_complement (well_formed E) entries) as Hperm.
      apply Permutation_length in Hperm. by rewrite length_app in Hperm.
  - intros before entry after Hbad.
    rewrite !parse_rules_loop_omap. simpl. by apply omap_skip_malformed.
  - intros doc Hload Hshape. unfold _parse_rules_from_yaml. rewrite Hload. simpl.
    destruct doc; try done. by rewrite (Hshape d eq_refl).
Qed.

Lemma load_rules_first_available repo_full_name rules_yaml github_token (s : St) :
  _load_rules E repo_full_name rules_yaml github_token s
  = resolve_first_available E repo_full_name rules_yaml github_token s.
Proof.
  unfold _load_rules, resolve_first_available, first_success, explicit_source,
    repository_source, local_source, str_truthy.
  destruct rules_yaml as [text|]; simpl; run; cases.
Qed.

End RuleFacts.

Section RuleSources.
Context {W Rule Time : Type} (E : Env W Rule Time).

Local Abbreviation St := (St W Rule).

Lemma load_rules_explicit repo_full_name rules_yaml github_token (s : St) :
  str_truthy rules_yaml = true ->
  _load_rules E repo_full_name rules_yaml github_token s
  = (_parse_rules_from_yaml E (default "" rules_yaml), s).
Proof. intros Hgiven. unfold _load_rules. by rewrite Hgiven. Qed.

Lemma load_rules_calls repo_full_name rules_yaml github_token (s : St) :
  exists l,
    calls (_load_rules E repo_full_name rules_yaml github_token s).2 = calls s ++ l
    /\ l `prefix_of` [CGetFileContent repo_full_name (rules_file_path E) github_token;
                      CLocalRulesExists; CLocalRulesReadText].
Proof.
  unfold _load_rules. destruct (str_truthy rules_yaml).
  { exists []. split; [by rewrite app_nil_r | apply prefix_nil]. }
  run. cases;
    (eexists; split; [by rewrite <- ?app_assoc | eexists; simpl; reflexivity]).
Qed.

Lemma load_rules_nothing_available repo_full_name rules_yaml github_token (s : St) r w1 w2 :
  str_truthy rules_yaml = false ->
  get_file_content E repo_full_name (rules_file_path E) github_token (world s) = (r, w1) ->
  (forall content, r = Ok (Some content) -> content = "") ->
  local_rules_exists E w1 = (Ok false, w2) ->
  (_load_rules E repo_full_name rules_yaml github_token s).1 = Ok [].
Proof.
  intros Hnone Hfetch Hempty Hlocal. unfold _load_rules. rewrite Hnone. run.
  rewrite Hfetch. simpl.
  destruct r as [[content|]|]; simpl; rewrite ?Hlocal; try done.
  rewrite (Hempty content eq_refl). simpl. by rewrite Hlocal.
Qed.

(** C3, amended. Rule resolution goes through its sources in the order
    explicit text, repository file, local file, and returns what the
    first available source parses to, even when that is no rule at all:
    explicit text is available when it is given and not empty, the
    repository file when it is fetched without error and is not empty,
    the local file when it exists. With explicit text no call is made at
    all, so the repository is not consulted; the calls made are always
    an initial part of: fetch the repository file, test the local file,
    read it. When no source is available the result is the empty list. *)
Theorem load_rules_resolution_order repo_full_name rules_yaml github_token (s : St) :
  _load_rules E repo_full_name rules_yaml github_token s
  = resolve_first_available E repo_full_name rules_yaml github_token s
  /\ (str_truthy rules_yaml = true ->
      _load_rules E repo_full_name rules_yaml github_token s
      = (_parse_rules_from_yaml E (default "" rules_yaml), s))
  /\ (exists l,
        calls (_load_rules E repo_full_name rules_yaml github_token s).2 = calls s ++ l
        /\ l `prefix_of` [CGetFileContent repo_full_name (rules_file_path E) github_token;
                          CLocalRulesExists; CLocalRulesReadText])
  /\ (forall r w1 w2,
        str_truthy rules_yaml = false ->
        get_file_content E repo_full_name (rules_file_path E) github_token (world s) = (r, w1) ->
        (forall content, r = Ok (Some content) -> content = "") ->
        local_rules_exists E w1 = (Ok false, w2) ->
        (_load_rules E repo_full_name rules_yaml github_token s).1 = Ok []).
Proof.
  split; [apply load_rules_first_available|].
  split; [apply load_rules_explicit|].
  split; [apply load_rules_calls|].
  intros r w1 w2. apply load_rules_nothing_available.
Qed.

End RuleSources.

Lemma load_rules_resolution_order_witness :
  _load_rules Demo.env "octo/demo" (Some "rules: []") None (Demo.start Demo.hub)
  = (Ok [], Demo.start Demo.hub).
Proof.
  destruct (load_rules_resolution_order Demo.env "octo/demo" (Some "rules: []") None
              (Demo.start Demo.hub)) as (_ & Hexplicit & _).
  rewrite Hexplicit by reflexivity. reflexivity.
Defined.

(** C3 as stated fails. No explicit text is given, the rules file of the
    repository parses to no rule and the local file to one rule: the first
    attempt with a non-empty parse is the local file, yet resolution
    returns the empty list. Likewise explicit text that parses to no rule
    is what resolution returns, whatever the repository holds. *)
Lemma load_rules_first_nonempty_counterexample :
  (_load_rules Demo.env "octo/demo" None None (Demo.start Demo.hub_rules_moved)).1 = Ok []
  /\ (resolve_first_nonempty Demo.env "octo/demo" None None
        (Demo.start Demo.hub_rules_moved)).1 = Ok ["c"%string]
  /\ (_load_rules Demo.env "octo/demo" (Some "rules: []") None (Demo.start Demo.hub)).1 = Ok []
  /\ (resolve_first_nonempty Demo.env "octo/demo" (Some "rules: []") None
        (Demo.start Demo.hub)).1 = Ok ["c"%string]
  /\ (_load_rules Demo.env "octo/demo" None None (Demo.start Demo.hub_rules_moved)).1
     <> (resolve_first_nonempty Demo.env "octo/demo" None None
           (Demo.start Demo.hub_rules_moved)).1.
Proof.
  split; [|split; [|split; [|split]]]; [vm_compute; reflexivity..|].
  vm_compute. discriminate.
Qed.

Lemma parse_rules_from_yaml_skips_malformed_witness :
  _parse_rules_from_yaml Demo.env Demo.two_rules_and_a_stray = Ok ["a"%string; "b"%string].
Proof.
  destruct (parse_rules_from_yaml_skips_malformed Demo.env Demo.two_rules_and_a_stray)
    as (_ & Hentries & _).
  destruct (Hentries {["rules" := PList [PDict {["description" := PStr "a"]}; PStr "oops";
                                         PDict {["description" := PStr "b"]}]]}
              [PDict {["description" := PStr "a"]}; PStr "oops";
               PDict {["description" := PStr "b"]}])
    as (rules & Hparse & Hrules & _).
  - vm_compute. reflexivity.
  - vm_compute. reflexivity.
  - rewrite Hparse, Hrules. vm_compute. reflexivity.
Defined.

(** ** Building the context of a PR *)

Section ContextFacts.
Context {W Rule Time : Type} (E : Env W Rule Time).

Local Abbreviation M := (M W Rule).
Local Abbreviation St := (St W Rule).

Lemma fetch_pr_data_never_raises repo_full_name number github_token :
  never_raises (_fetch_pr_data E repo_full_name number github_token).
Proof. apply never_raises_try. intros _. apply never_raises_ret. Qed.

Lemma fetch_pr_reviews_never_raises repo_full_name number github_token :
  never_raises (_fetch_pr_reviews E repo_full_name number github_token).
Proof. apply never_raises_try. intros _. apply never_raises_ret. Qed.

Lemma fetch_pr_files_never_raises repo_full_name number github_token :
  never_raises (_fetch_pr_files E repo_full_name number github_token).
Proof. apply never_raises_try. intros _. apply never_raises_ret. Qed.

Lemma fetch_pr_data_performs repo_full_name number github_token :
  performs context_call (_fetch_pr_data E repo_full_name number github_token).
Proof. unfold _fetch_pr_data. repeat performs_step; done. Qed.

Lemma fetch_pr_reviews_performs repo_full_name number github_token :
  performs context_call (_fetch_pr_reviews E repo_full_name number github_token).
Proof. unfold _fetch_pr_reviews. repeat performs_step; done. Qed.

Lemma fetch_pr_files_performs repo_full_name number github_token :
  performs context_call (_fetch_pr_files E repo_full_name number github_token).
Proof. unfold _fetch_pr_files. repeat performs_step; done. Qed.

Lemma fetch_pr_reviews_empty_unless repo_full_name number github_token (s : St) :
  exists payload s',
    _fetch_pr_reviews E repo_full_name number github_token s = (Ok payload, s')
    /\ (payload = PList []
        \/ exchange_succeeds E github_token
             {| url_base := api_base_url E; url_repo := repo_full_name;
                url_number := number; url_suffix := "/reviews" |} (world s) payload).
Proof.
  unfold _fetch_pr_reviews, exchange_succeeds. run.
  destruct (get_auth_headers E github_token (world s)) as [[headers|] w1] eqn:Hh;
    simpl; [|eauto].
  destruct (truthy headers) eqn:Hheaders; simpl; [|eauto].
  destruct (get_session E w1) as [[[]|] w2] eqn:Hs; simpl; [|eauto].
  destruct (session_get E _ headers w2) as [[response|] w3] eqn:Hr; simpl; [|eauto].
  destruct (status response =? 200) eqn:Hst; simpl; [|eauto].
  apply Z.eqb_eq in Hst.
  destruct (json response) as [payload|] eqn:Hj; simpl; [|eauto].
  eexists _, _. split; [done|]. right. eauto 12.
Qed.

Lemma fetch_pr_files_empty_unless repo_full_name number github_token (s : St) :
  exists payload s',
    _fetch_pr_files E repo_full_name number github_token s = (Ok payload, s')
    /\ (payload = PList []
        \/ exchange_succeeds E github_token
             {| url_base := api_base_url E; url_repo := repo_full_name;
                url_number := number; url_suffix := "/files" |} (world s) payload).
Proof.
  unfold _fetch_pr_files, exchange_succeeds. run.
  destruct (get_auth_headers E github_token (world s)) as [[headers|] w1] eqn:Hh;
    simpl; [|eauto].
  destruct (truthy headers) eqn:Hheaders; simpl; [|eauto].
  destruct (get_session E w1) as [[[]|] w2] eqn:Hs; simpl; [|eauto].
  destruct (session_get E _ headers w2) as [[response|] w3] eqn:Hr; simpl; [|eauto].
  destruct (status response =? 200) eqn:Hst; simpl; [|eauto].
  apply Z.eqb_eq in Hst.
  destruct (json response) as [payload|] eqn:Hj; simpl; [|eauto].
  eexists _, _. split; [done|]. right. eauto 12.
Qed.

Lemma fetch_codeowners_loop_performs repo_full_name github_token paths :
  performs context_call (fetch_codeowners_loop E repo_full_name github_token paths).
Proof.
  induction paths as [|path rest IH]; simpl; [apply performs_ret|].
  apply performs_bind.
  - repeat performs_step; done.
  - intros [content|]; [apply performs_ret | apply IH].
Qed.

Lemma fetch_codeowners_loop_probed repo_full_name github_token paths (s : St) :
  exists found n w',
    fetch_codeowners_loop E repo_full_name github_token paths s
    = (Ok found,
       {| world := w';
          calls := calls s
                   ++ ((fun path => CGetFileContent repo_full_name path github_token)
                         <$> take n paths) |})
    /\ probed E repo_full_name github_token (world s) paths found n w'
    /\ (found = None -> n = length paths)
    /\ (forall content, found = Some content -> content <> "" /\ (1 <= n)%nat).
Proof.
  revert s. induction paths as [|path rest IH]; intros s; simpl.
  { exists None, 0%nat, (world s). rewrite app_nil_r. destruct s.
    repeat split; [constructor | done..]. }
  run.
  destruct (get_file_content E repo_full_name path github_token (world s))
    as [r w1] eqn:Hfetch. simpl.
  set (s1 := {| world := w1;
                calls := calls s ++ [CGetFileContent repo_full_name path github_token] |}).
  assert (Hmiss : (forall content, r = Ok (Some content) -> content = "") ->
                  exists found n w',
                    fetch_codeowners_loop E repo_full_name github_token rest s1
                    = (Ok found,
                       {| world := w';
                          calls := calls s
                            ++ ((fun path => CGetFileContent repo_full_name path github_token)
                                  <$> take n (path :: rest)) |})
                    /\ probed E repo_full_name github_token (world s) (path :: rest) found n w'
                    /\ (found = None -> n = length (path :: rest))
                    /\ (forall content, found = Some content -> content <> "" /\ (1 <= n)%nat)).
  { intros Hempty. destruct (IH s1) as (found & n & w' & Hrun & Hprobed & Hnone & Hsome).
    exists found, (S n), w'. rewrite Hrun. simpl. rewrite <- app_assoc. simpl.
    repeat split.
    - by eapply probed_miss.
    - intros Hf. by rewrite (Hnone Hf).
    - by eapply Hsome.
    - lia. }
  destruct r as [[content|]|]; simpl; try (apply Hmiss; by intros).
  destruct (negb (content =? "")%string) eqn:Hcontent; simpl.
  - exists (Some content), 1%nat, w1. simpl.
    assert (content <> "") as Hne.
    { intros ->. done. }
    split; [done|]. split; [by apply probed_hit|]. split; [done|].
    intros ? [= <-]. split; [done | lia].
  - apply Hmiss. intros ? [= <-].
    apply negb_false_iff in Hcontent. by apply String.eqb_eq in Hcontent.
Qed.

Lemma fetch_codeowners_never_raises repo_full_name github_token :
  never_raises (_fetch_codeowners E repo_full_name github_token).
Proof.
  intros s.
  destruct (fetch_codeowners_loop_probed repo_full_name github_token codeowners_paths s)
    as (found & n & w' & Hrun & _).
  eauto.
Qed.

Lemma mapM_changed_file (items : list pyval) :
  forallb is_dict items = true ->
  mapM_outcome changed_file items = Ok (changed_file_view <$> items).
Proof.
  induction items as [|f items IH]; [done|]. simpl.
  intros [Hf Hitems]%andb_true_iff. destruct f; try done.
  simpl. by rewrite (IH Hitems).
Qed.

Lemma changed_files_of_well_shaped (files : pyval) :
  files_well_shaped files = true ->
  (items ← py_iter (py_or files (PList [])); mapM_outcome changed_file items)
  = Ok (changed_file_view <$> items_of (py_or files (PList []))).
Proof.
  intros Hshape. unfold py_or.
  destruct (truthy files) eqn:Htruthy.
  - destruct files as [| | | |l|]; unfold files_well_shaped in Hshape;
      try (rewrite Htruthy in Hshape; done).
    simpl. by apply mapM_changed_file.
  - done.
Qed.

Lemma user_login_of_well_shaped (pr : gmap string pyval) :
  user_well_shaped pr = true ->
  exists login,
    (user ← py_get (PDict pr) "user" PNone; py_get (py_or user (PDict ∅)) "login" PNone)
    = Ok login.
Proof.
  unfold user_well_shaped. simpl. unfold py_or.
  destruct (pr !! "user") as [user|]; simpl; [|eauto].
  intros Huser. destruct (truthy user) eqn:Htruthy; [|simpl; eauto].
  destruct user; try (simpl; by eauto);
    simpl in *; rewrite ?Htruthy in Huser; done.
Qed.

End ContextFacts.

Section BuildFacts.
Context {W Rule Time : Type} (E : Env W Rule Time).

Local Abbreviation M := (M W Rule).
Local Abbreviation St := (St W Rule).

Lemma build_event_data_performs repo_full_name pr_data github_token :
  performs context_call (_build_event_data E repo_full_name pr_data github_token).
Proof.
  unfold _build_event_data, _fetch_codeowners.
  apply performs_bind; [apply performs_lift | intros login].
  apply performs_bind; [apply performs_lift | intros number].
  destruct (truthy number); [|apply performs_ret].
  apply performs_bind; [apply fetch_pr_reviews_performs | intros reviews].
  apply performs_bind; [apply fetch_pr_files_performs | intros files].
  apply performs_bind; [apply performs_lift | intros changed].
  apply performs_bind; [apply fetch_codeowners_loop_performs | intros found].
  destruct (str_truthy found); apply performs_ret.
Qed.

(** A context is only returned for PR metadata that is a mapping. *)
Lemma build_event_data_of_dict repo_full_name pr_data github_token (s : St) ev s' :
  _build_event_data E repo_full_name pr_data github_token s = (Ok ev, s') ->
  exists pr, pr_data = PDict pr.
Proof.
  destruct pr_data; try (by eauto); unfold _build_event_data; run; simpl; done.
Qed.

Lemma build_event_data_without_number repo_full_name pr github_token (s : St) :
  user_well_shaped pr = true ->
  truthy (default PNone (pr !! "number")) = false ->
  exists ev,
    _build_event_data E repo_full_name (PDict pr) github_token s = (Ok ev, s)
    /\ ev !! "pull_request_details" = Some (PDict pr)
    /\ ev !! "reviews" = None
    /\ ev !! "files" = None
    /\ ev !! "changed_files" = None
    /\ ev !! "codeowners_content" = None.
Proof.
  intros Huser Hnumber. destruct (user_login_of_well_shaped pr Huser) as [login Hlogin].
  unfold _build_event_data. rewrite bind_run. unfold lift at 1. rewrite Hlogin.
  cbv zeta. rewrite bind_run. unfold lift at 1. simpl py_get. cbv beta iota.
  rewrite Hnumber. eexists. split; [reflexivity|]. by simplify_map_eq.
Qed.

Lemma build_event_data_with_number repo_full_name pr github_token (s : St)
    number reviews s1 files s2 found s3 :
  user_well_shaped pr = true ->
  pr !! "number" = Some number ->
  truthy number = true ->
  _fetch_pr_reviews E repo_full_name number github_token s = (Ok reviews, s1) ->
  _fetch_pr_files E repo_full_name number github_token s1 = (Ok files, s2) ->
  _fetch_codeowners E repo_full_name github_token s2 = (Ok found, s3) ->
  files_well_shaped files = true ->
  exists ev,
    _build_event_data E repo_full_name (PDict pr) github_token s = (Ok ev, s3)
    /\ ev !! "pull_request_details" = Some (PDict pr)
    /\ ev !! "reviews" = Some (py_or reviews (PList []))
    /\ ev !! "files" = Some (py_or files (PList []))
    /\ ev !! "changed_files"
       = Some (PList (changed_file_view <$> items_of (py_or files (PList []))))
    /\ ev !! "codeowners_content" = PStr <$> found.
Proof.
  intros Huser Hnumber Htruthy Hreviews Hfiles Hfound Hshape.
  destruct (user_login_of_well_shaped pr Huser) as [login Hlogin].
  assert (Hcontent : forall content, found = Some content -> content <> "").
  { intros content ->.
    destruct (fetch_codeowners_loop_probed E repo_full_name github_token
                codeowners_paths s2) as (found' & n & w' & Hrun & _ & _ & Hsome).
    unfold _fetch_codeowners in Hfound. rewrite Hrun in Hfound.
    injection Hfound as -> _. by destruct (Hsome content eq_refl). }
  unfold _build_event_data. rewrite bind_run. unfold lift at 1. rewrite Hlogin.
  cbv zeta. rewrite bind_run. unfold lift at 1. simpl py_get. cbv beta iota.
  rewrite Hnumber. change (default PNone (Some number)) with number. rewrite Htruthy.
  rewrite bind_run, Hreviews. rewrite bind_run, Hfiles.
  rewrite bind_run. unfold lift at 1. rewrite (changed_files_of_well_shaped files Hshape).
  rewrite bind_run, Hfound. cbv beta iota.
  destruct found as [content|]; unfold str_truthy.
  - assert (negb (content =? "")%string = true) as ->.
    { apply negb_true_iff, String.eqb_neq. by apply Hcontent. }
    eexists. split; [reflexivity|]. by simplify_map_eq.
  - eexists. split; [reflexivity|]. by simplify_map_eq.
Qed.

(** C8, amended. A failing sub-fetch never aborts the building of a PR
    context. The reviews and files sub-fetches never raise and yield the
    empty list unless the whole exchange succeeds with status 200; the
    CODEOWNERS sub-fetch never raises and probes the fixed list of
    candidate paths in order, stopping at the first one whose content is
    fetched without error and is not empty. When the [user] entry of
    the PR metadata is absent, falsy or a mapping and the files payload
    is falsy or a list of mappings, a context is returned: its reviews
    are those fetched (none when the fetch failed), its files and
    changed files likewise, and it has a CODEOWNERS entry exactly when a
    candidate yielded content. Without a PR number no sub-fetch is made
    and the context has none of these entries. *)
Theorem build_event_data_tolerates_failed_fetches repo_full_name pr github_token (s : St) :
  (forall number,
     never_raises (_fetch_pr_reviews E repo_full_name number github_token)
     /\ never_raises (_fetch_pr_files E repo_full_name number github_token))
  /\ never_raises (_fetch_codeowners E repo_full_name github_token)
  /\ (forall number,
        user_well_shaped pr = true ->
        pr !! "number" = Some number ->
        truthy number = true ->
        exists reviews s1 files s2 found probes s3,
          _fetch_pr_reviews E repo_full_name number github_token s = (Ok reviews, s1)
          /\ (reviews = PList []
              \/ exchange_succeeds E github_token
                   {| url_base := api_base_url E; url_repo := repo_full_name;
                      url_number := number; url_suffix := "/reviews" |} (world s) reviews)
          /\ _fetch_pr_files E repo_full_name number github_token s1 = (Ok files, s2)
          /\ (files = PList []
              \/ exchange_succeeds E github_token
                   {| url_base := api_base_url E; url_repo := repo_full_name;
                      url_number := number; url_suffix := "/files" |} (world s1) files)
          /\ _fetch_codeowners E repo_full_name github_token s2 = (Ok found, s3)
          /\ probed E repo_full_name github_token (world s2) codeowners_paths found probes
               (world s3)
          /\ calls s3
             = calls s2 ++ ((fun path => CGetFileContent repo_full_name path github_token)
                              <$> take probes codeowners_paths)
          /\ (files_well_shaped files = true ->
              exists ev,
                _build_event_data E repo_full_name (PDict pr) github_token s = (Ok ev, s3)
                /\ ev !! "reviews" = Some (py_or reviews (PList []))
                /\ (reviews = PList [] -> ev !! "reviews" = Some (PList []))
                /\ ev !! "files" = Some (py_or files (PList []))
                /\ ev !! "changed_files"
                   = Some (PList (changed_file_view <$> items_of (py_or files (PList []))))
                /\ (files = PList [] ->
                    ev !! "files" = Some (PList [])
                    /\ ev !! "changed_files" = Some (PList []))
                /\ ev !! "codeowners_content" = PStr <$> found))
  /\ (user_well_shaped pr = true ->
      truthy (default PNone (pr !! "number")) = false ->
      exists ev,
        _build_event_data E repo_full_name (PDict pr) github_token s = (Ok ev, s)
        /\ ev !! "reviews" = None
        /\ ev !! "files" = None
        /\ ev !! "changed_files" = None
        /\ ev !! "codeowners_content" = None).
Proof.
  split.
  { intros number.
    split; [apply fetch_pr_reviews_never_raises | apply fetch_pr_files_never_raises]. }
  split; [apply fetch_codeowners_never_raises|].
  split.
  - intros number Huser Hnumber Htruthy.
    destruct (fetch_pr_reviews_empty_unless E repo_full_name number github_token s)
      as (reviews & s1 & Hreviews & Hreviews').
    destruct (fetch_pr_files_empty_unless E repo_full_name number github_token s1)
      as (files & s2 & Hfiles & Hfiles').
    destruct (fetch_codeowners_loop_probed E repo_full_name github_token
                codeowners_paths s2) as (found & probes & w3 & Hfound & Hprobed & _).
    eexists reviews, s1, files, s2, found, probes, _.
    split; [done|]. split; [done|]. split; [done|]. split; [done|].
    split; [exact Hfound|]. split; [done|]. split; [done|].
    intros Hshape.
    destruct (build_event_data_with_number repo_full_name pr github_token s
                number reviews s1 files s2 found _ Huser Hnumber Htruthy
                Hreviews Hfiles Hfound Hshape)
      as (ev & Hbuild & _ & Hr & Hf & Hc & Ho).
    exists ev. split; [done|]. split; [done|].
    split; [by intros ->|]. split; [done|]. split; [done|].
    split; [by intros ->|done].
  - intros Huser Hnumber.
    destruct (build_event_data_without_number repo_full_name pr github_token s
                Huser Hnumber) as (ev & Hbuild & _ & Hrest).
    by exists ev.
Qed.

End BuildFacts.

(** C8 as stated fails: building the context of a PR whose author comes as
    a bare string raises. *)
Lemma build_event_data_counterexample :
  (_build_event_data Demo.env "octo/demo" (PDict (Demo.pr 2 "Fix typo" (PStr "ghost"))) None
     (Demo.start Demo.hub)).1
  = Raise "'str' object has no attribute 'get'"
  /\ ~ never_raises
       (_build_event_data Demo.env "octo/demo" (PDict (Demo.pr 2 "Fix typo" (PStr "ghost")))
          None).
Proof.
  split; [vm_compute; reflexivity|].
  intros Hnever. destruct (Hnever (Demo.start Demo.hub)) as (ev & s' & Hrun).
  vm_compute in Hrun. discriminate.
Qed.

(** ** Evaluation and the batch loop *)

Section BatchFacts.
Context {W Rule Time : Type} (E : Env W Rule Time).

Local Abbreviation M := (M W Rule).
Local Abbreviation St := (St W Rule).

Lemma evaluate_rules_never_raises rules event_data :
  never_raises (_evaluate_rules E rules event_data).
Proof. apply never_raises_try. intros _. apply never_raises_ret. Qed.

Lemma evaluate_rules_performs rules event_data :
  performs (evaluation_with rules) (_evaluate_rules E rules event_data).
Proof. unfold _evaluate_rules. repeat performs_step; done. Qed.

Lemma evaluate_rules_engine_failure rules event_data (s : St) message w1 :
  execute E event_data rules (world s) = (Raise message, w1) ->
  exists s', _evaluate_rules E rules event_data s = (Ok [], s').
Proof.
  intros Hexecute. unfold _evaluate_rules. run. simpl.
  destruct (py_get _ "number" PNone); simpl; [rewrite Hexecute|]; eauto.
Qed.

Lemma process_pr_performs repo_info rules github_token pr :
  performs (evaluation_phase_call rules) (process_pr E repo_info rules github_token pr).
Proof.
  apply performs_bind.
  - eapply performs_weaken; [|apply build_event_data_performs]. by left.
  - intros ev. eapply performs_weaken; [|apply evaluate_rules_performs]. by right.
Qed.

(** One turn of the loop, in terms of what processing the PR gives. *)
Lemma analyze_prs_loop_step repo_info rules github_token pr rest all_violations
    prs_analyzed (s : St) :
  analyze_prs_loop E repo_info rules github_token (pr :: rest) all_violations prs_analyzed s
  = match process_pr E repo_info rules github_token pr s with
    | (Ok found, s1) =>
        analyze_prs_loop E repo_info rules github_token rest (all_violations ++ found)
          (prs_analyzed ++ [processed_summary E pr found]) s1
    | (Raise message, s1) =>
        analyze_prs_loop E repo_info rules github_token rest all_violations
          (prs_analyzed ++ [failed_summary pr message]) s1
    end.
Proof.
  simpl. unfold process_pr. rewrite bind_run, try_except_run, !bind_run.
  destruct (_build_event_data E (full_name repo_info) (PDict pr) github_token s)
    as [[ev|message] s1]; [|done].
  rewrite bind_run.
  by destruct (_evaluate_rules E rules ev s1) as [[found|message] s2].
Qed.

Lemma analyze_prs_loop_run repo_info rules github_token prs :
  forall all_violations prs_analyzed (s : St),
  exists found summaries s',
    analyze_prs_loop E repo_info rules github_token prs all_violations prs_analyzed s
    = (Ok (all_violations ++ found, prs_analyzed ++ summaries), s')
    /\ batch_run E repo_info rules github_token s prs found summaries s'.
Proof.
  induction prs as [|pr rest IH]; intros all_violations prs_analyzed s.
  { exists [], [], s. rewrite !app_nil_r. split; [done | constructor]. }
  rewrite analyze_prs_loop_step.
  destruct (process_pr E repo_info rules github_token pr s) as [[found|message] s1] eqn:Hpr.
  - destruct (IH (all_violations ++ found) (prs_analyzed ++ [processed_summary E pr found]) s1)
      as (more & summaries & s' & Hrun & Hbatch).
    exists (found ++ more), (processed_summary E pr found :: summaries), s'.
    rewrite Hrun, <- !app_assoc. split; [done | by econstructor].
  - destruct (IH all_violations (prs_analyzed ++ [failed_summary pr message]) s1)
      as (more & summaries & s' & Hrun & Hbatch).
    exists more, (failed_summary pr message :: summaries), s'.
    rewrite Hrun, <- !app_assoc. split; [done | by eapply batch_failed].
Qed.

Lemma batch_run_performs repo_info rules github_token (s : St) prs found summaries s' :
  batch_run E repo_info rules github_token s prs found summaries s' ->
  exists l, calls s' = calls s ++ l /\ Forall (evaluation_phase_call rules) l.
Proof.
  induction 1 as [s|s pr prs found s1 more summaries s2 Hpr _ IH
                   |s pr prs message s1 more summaries s2 Hpr _ IH].
  - exists []. by rewrite app_nil_r.
  - destruct (process_pr_performs _ _ _ _ _ _ _ Hpr) as (l1 & Hs1 & Hl1).
    destruct IH as (l2 & Hs2 & Hl2). exists (l1 ++ l2).
    rewrite Hs2, Hs1, app_assoc. split; [done | by apply Forall_app].
  - destruct (process_pr_performs _ _ _ _ _ _ _ Hpr) as (l1 & Hs1 & Hl1).
    destruct IH as (l2 & Hs2 & Hl2). exists (l1 ++ l2).
    rewrite Hs2, Hs1, app_assoc. split; [done | by apply Forall_app].
Qed.

Lemma batch_run_summaries repo_info rules github_token (s : St) prs found summaries s' :
  batch_run E repo_info rules github_token s prs found summaries s' ->
  Forall2 (summary_of_pr E) prs summaries.
Proof.
  induction 1; constructor; try done.
  - left. by eexists.
  - right. by eexists.
Qed.

End BatchFacts.

Section LatestFacts.
Context {W Rule Time : Type} (E : Env W Rule Time).

Local Abbreviation M := (M W Rule).
Local Abbreviation St := (St W Rule).

Lemma batch_run_totals repo_info rules github_token (s : St) prs found summaries s' :
  batch_run E repo_info rules github_token s prs found summaries s' ->
  model_dump E <$> found = concat (summary_violations <$> summaries)
  /\ total_count summaries = len found
  /\ length summaries = length prs
  /\ Forall failed_is_empty summaries.
Proof.
  induction 1 as [s|s pr prs found s1 more summaries s2 _ _ (IHv & IHc & IHl & IHf)
                   |s pr prs message s1 more summaries s2 _ _ (IHv & IHc & IHl & IHf)].
  - done.
  - simpl. rewrite fmap_app, IHv, IHc, IHl. unfold summary_violations at 1. simpl.
    split; [done|]. split; [unfold len; rewrite length_app; lia|]. split; [done|].
    constructor; [|done]. intros [? Herr]. discriminate Herr.
  - simpl. rewrite IHv, IHc, IHl. split; [done|]. split; [done|]. split; [done|].
    constructor; [|done]. by intros _.
Qed.

Lemma candidate_prs_run repo_info github_token max_prs (s : St) :
  exists prs w',
    candidate_prs E repo_info github_token max_prs s
    = (Ok prs,
       {| world := w';
          calls := calls s
                   ++ [if 20 <? max_prs
                       then CFetchAllPullRequests (full_name repo_info) github_token max_prs
                       else CListPullRequests (full_name repo_info) github_token max_prs] |}).
Proof.
  unfold candidate_prs, _fetch_all_prs_paginated, _fetch_open_prs. run.
  destruct (20 <? max_prs).
  - destruct (fetch_all_pull_requests E _ _ _ _) as [[prs|message] w']; eauto.
  - destruct (list_pull_requests E _ _ _ _) as [[prs|message] w']; eauto.
Qed.

Lemma analyze_latest_prs_run repo_info rules rules_loaded github_token max_prs
    start_time batch_mode (s : St) prs s1 :
  candidate_prs E repo_info github_token max_prs s = (Ok prs, s1) ->
  (prs = [] ->
   _analyze_latest_prs E repo_info rules rules_loaded github_token max_prs start_time
     batch_mode s
   = (Ok {| success := false;
            violations := [];
            rules_loaded := rules_loaded;
            processing_time_ms := elapsed_ms E start_time (time_time E (world s1));
            error := Some "No open pull requests found in this repository.";
            repo_info := Some repo_info;
            pr_data := None;
            prs_analyzed := [] |}, s1))
  /\ (prs <> [] ->
      exists found summaries s2,
        batch_run E repo_info rules github_token s1 prs found summaries s2
        /\ _analyze_latest_prs E repo_info rules rules_loaded github_token max_prs
             start_time batch_mode s
           = (Ok {| success := true;
                    violations := found;
                    rules_loaded := rules_loaded;
                    processing_time_ms := elapsed_ms E start_time (time_time E (world s2));
                    error := None;
                    repo_info := Some repo_info;
                    pr_data := PDict <$> head prs;
                    prs_analyzed := summaries |}, s2)).
Proof.
  intros Hprs. unfold candidate_prs in Hprs.
  unfold _analyze_latest_prs. rewrite bind_run, Hprs.
  split.
  - by intros ->.
  - intros Hne. destruct prs as [|pr rest]; [done|].
    destruct (analyze_prs_loop_run E repo_info rules github_token (pr :: rest) [] [] s1)
      as (found & summaries & s2 & Hrun & Hbatch).
    exists found, summaries, s2. split; [done|].
    rewrite bind_run, Hrun. done.
Qed.

Lemma analyze_latest_prs_totals repo_info rules rules_loaded github_token
    max_prs start_time batch_mode (s : St) :
  exists r s',
    _analyze_latest_prs E repo_info rules rules_loaded github_token max_prs start_time
      batch_mode s = (Ok r, s')
    /\ model_dump E <$> violations r = concat (summary_violations <$> prs_analyzed r)
    /\ total_count (prs_analyzed r) = len (violations r)
    /\ Forall failed_is_empty (prs_analyzed r)
    /\ (forall prs s1,
          candidate_prs E repo_info github_token max_prs s = (Ok prs, s1) ->
          prs <> [] ->
          batch_run E repo_info rules github_token s1 prs (violations r) (prs_analyzed r) s'
          /\ ps_number <$> prs_analyzed r = (fun pr => default PNone (pr !! "number")) <$> prs).
Proof.
  destruct (candidate_prs_run repo_info github_token max_prs s) as (prs & w' & Hprs).
  destruct (analyze_latest_prs_run repo_info rules rules_loaded github_token max_prs
              start_time batch_mode s prs _ Hprs) as [Hnone Hsome].
  destruct prs as [|pr rest].
  - eexists _, _. split; [by apply Hnone|]. simpl.
    split; [done|]. split; [done|]. split; [done|].
    intros prs s1 Hprs' Hne. rewrite Hprs in Hprs'. by injection Hprs' as <- _.
  - destruct Hsome as (found & summaries & s2 & Hbatch & Hrun); [done|].
    destruct (batch_run_totals _ _ _ _ _ _ _ _ Hbatch) as (Hv & Hc & Hl & Hf).
    eexists _, _. split; [exact Hrun|]. simpl.
    split; [done|]. split; [done|]. split; [done|].
    intros prs s1 Hprs' Hne. rewrite Hprs in Hprs'. injection Hprs' as <- <-.
    split; [done|].
    clear -Hbatch. induction Hbatch; simpl; by f_equal.
Qed.

(** C2. When the candidate list holds N PRs, N > 0, the batch analysis
    returns a result with [success = true], no top-level error and
    exactly N summaries, the i-th being a summary of the i-th PR
    fetched: the summary of what was found when processing it returned,
    and the failed summary with number, title, count 0, an empty list
    and the message when processing it raised; the PRs after a failed
    one are processed all the same. *)
Theorem batch_survives_failing_prs repo_info rules rules_loaded github_token
    max_prs start_time batch_mode (s : St) prs s1 :
  candidate_prs E repo_info github_token max_prs s = (Ok prs, s1) ->
  prs <> [] ->
  exists r s',
    _analyze_latest_prs E repo_info rules rules_loaded github_token max_prs start_time
      batch_mode s = (Ok r, s')
    /\ success r = true
    /\ error r = None
    /\ length (prs_analyzed r) = length prs
    /\ Forall2 (summary_of_pr E) prs (prs_analyzed r)
    /\ batch_run E repo_info rules github_token s1 prs (violations r) (prs_analyzed r) s'
    /\ (forall pr rest message s2,
          prs = pr :: rest ->
          process_pr E repo_info rules github_token pr s1 = (Raise message, s2) ->
          exists summaries,
            prs_analyzed r = failed_summary pr message :: summaries
            /\ length summaries = length rest
            /\ batch_run E repo_info rules github_token s2 rest (violations r) summaries s').
Proof.
  intros Hprs Hne.
  destruct (analyze_latest_prs_run repo_info rules rules_loaded github_token max_prs
              start_time batch_mode s prs _ Hprs) as [_ Hsome].
  destruct (Hsome Hne) as (found & summaries & s2 & Hbatch & Hrun).
  destruct (batch_run_totals _ _ _ _ _ _ _ _ Hbatch) as (_ & _ & Hl & _).
  eexists _, _. split; [exact Hrun|]. simpl.
  split; [done|]. split; [done|]. split; [done|].
  split; [by eapply batch_run_summaries|]. split; [done|].
  intros pr rest message s3 -> Hraise.
  inversion Hbatch as [|? ? ? ? ? ? ? ? Hok Hrest|? ? ? ? ? ? ? ? Hfail Hrest]; subst.
  - rewrite Hraise in Hok. discriminate.
  - rewrite Hraise in Hfail. injection Hfail as <- <-.
    eexists. split; [done|]. split; [|done].
    by destruct (batch_run_totals _ _ _ _ _ _ _ _ Hrest) as (_ & _ & ? & _).
Qed.

Lemma analyze_latest_prs_calls repo_info rules rules_loaded github_token max_prs
    start_time batch_mode (s : St) :
  exists rest,
    calls (_analyze_latest_prs E repo_info rules rules_loaded github_token max_prs
             start_time batch_mode s).2
    = calls s
      ++ (if 20 <? max_prs
          then CFetchAllPullRequests (full_name repo_info) github_token max_prs
          else CListPullRequests (full_name repo_info) github_token max_prs) :: rest
    /\ Forall (evaluation_phase_call rules) rest.
Proof.
  destruct (candidate_prs_run repo_info github_token max_prs s) as (prs & w' & Hprs).
  destruct (analyze_latest_prs_run repo_info rules rules_loaded github_token max_prs
              start_time batch_mode s prs _ Hprs) as [Hnone Hsome].
  destruct prs as [|pr rest].
  - rewrite Hnone by done. exists []. by split.
  - destruct Hsome as (found & summaries & s2 & Hbatch & Hrun); [done|].
    rewrite Hrun. simpl.
    destruct (batch_run_performs _ _ _ _ _ _ _ _ _ Hbatch) as (l & Hs2 & Hl).
    exists l. rewrite Hs2. simpl. by rewrite <- app_assoc.
Qed.

(** C6. The request model accepts [max_prs] only within 1..200 (5 when
    it is not supplied). With an accepted value above 20 the first call
    of the batch path is the paginated fetch, with that value as its
    limit; with an accepted value of 20 or less it is the single-page
    fetch, with that value as the page size. Either way no other call of
    the analysis lists PRs. *)
Theorem max_prs_selects_fetch_strategy (supplied : option Z) (max_prs : Z) :
  validate_max_prs supplied = Some max_prs ->
  1 <= max_prs <= 200
  /\ (forall n, is_Some (validate_max_prs (Some n)) <-> 1 <= n <= 200)
  /\ forall repo_info rules rules_loaded github_token start_time batch_mode (s : St),
     exists rest,
       calls (_analyze_latest_prs E repo_info rules rules_loaded github_token max_prs
                start_time batch_mode s).2
       = calls s
         ++ (if 20 <? max_prs
             then CFetchAllPullRequests (full_name repo_info) github_token max_prs
             else CListPullRequests (full_name repo_info) github_token max_prs) :: rest
       /\ Forall (evaluation_phase_call rules) rest.
Proof.
  intros Hvalid. split; [|split].
  - destruct supplied as [n|]; simpl in Hvalid.
    + destruct ((1 <=? n) && (n <=? 200)) eqn:Hrange; [|done].
      injection Hvalid as <-. lia.
    + injection Hvalid as <-. lia.
  - intros n. simpl. destruct ((1 <=? n) && (n <=? 200)) eqn:Hrange.
    + split; [lia | by eauto].
    + split; [by intros [? ?] | lia].
  - intros. apply analyze_latest_prs_calls.
Qed.

End LatestFacts.

(** ** The analysis as a whole *)

Section AnalyzeFacts.
Context {W Rule Time : Type} (E : Env W Rule Time).

Local Abbreviation M := (M W Rule).
Local Abbreviation St := (St W Rule).

Lemma analyze_single_pr_not_found repo_info number rules rules_loaded github_token
    start_time (s : St) payload s1 :
  _fetch_pr_data E (full_name repo_info) number github_token s = (Ok payload, s1) ->
  truthy payload = false ->
  _analyze_single_pr E repo_info number rules rules_loaded github_token start_time s
  = (Ok (failure_result E repo_info github_token start_time s1 (TargetPRNotFound number)
           rules_loaded), s1).
Proof.
  intros Hfetch Hfalsy. unfold _analyze_single_pr. rewrite bind_run, Hfetch, Hfalsy. done.
Qed.

Lemma analyze_single_pr_evaluated repo_info number rules rules_loaded github_token
    start_time (s : St) payload s1 ev s2 found s3 :
  _fetch_pr_data E (full_name repo_info) number github_token s = (Ok payload, s1) ->
  truthy payload = true ->
  _build_event_data E (full_name repo_info) payload github_token s1 = (Ok ev, s2) ->
  _evaluate_rules E rules ev s2 = (Ok found, s3) ->
  exists pr,
    payload = PDict pr
    /\ _analyze_single_pr E repo_info number rules rules_loaded github_token start_time s
       = (Ok {| success := true;
                violations := found;
                rules_loaded := rules_loaded;
                processing_time_ms := elapsed_ms E start_time (time_time E (world s3));
                error := None;
                repo_info := Some repo_info;
                pr_data := Some payload;
                prs_analyzed := [ {| ps_number := default PNone (pr !! "number");
                                     ps_title := default PNone (pr !! "title");
                                     ps_violations_count := len found;
                                     ps_violations := None;
                                     ps_error := None |} ] |}, s3).
Proof.
  intros Hfetch Htruthy Hbuild Heval.
  destruct (build_event_data_of_dict E _ _ _ _ _ _ Hbuild) as [pr ->].
  exists pr. split; [done|].
  unfold _analyze_single_pr. rewrite bind_run, Hfetch, Htruthy. cbn [negb]. cbv beta iota.
  rewrite bind_run, Hbuild. cbv beta iota. rewrite bind_run, Heval. done.
Qed.

Lemma analyze_single_pr_performs repo_info number rules rules_loaded github_token start_time :
  performs (dispatch_call rules)
    (_analyze_single_pr E repo_info number rules rules_loaded github_token start_time).
Proof.
  unfold _analyze_single_pr.
  apply performs_bind.
  { eapply performs_weaken; [|apply fetch_pr_data_performs]. intros c Hc. right. by left. }
  intros payload. destruct (negb (truthy payload)).
  { repeat performs_step. }
  apply performs_bind.
  { eapply performs_weaken; [|apply build_event_data_performs]. intros c Hc. right. by left. }
  intros ev. apply performs_bind.
  { eapply performs_weaken; [|apply evaluate_rules_performs]. intros c Hc. right. by right. }
  intros found. repeat performs_step.
Qed.

Lemma analyze_latest_prs_performs repo_info rules rules_loaded github_token max_prs
    start_time batch_mode :
  performs (dispatch_call rules)
    (_analyze_latest_prs E repo_info rules rules_loaded github_token max_prs start_time
       batch_mode).
Proof.
  intros s r s' Hrun.
  destruct (analyze_latest_prs_calls E repo_info rules rules_loaded github_token max_prs
              start_time batch_mode s) as (rest & Hcalls & Hrest).
  rewrite Hrun in Hcalls. simpl in Hcalls. eexists. split; [exact Hcalls|].
  constructor.
  - left. by destruct (20 <? max_prs).
  - eapply Forall_impl; [exact Hrest|]. intros c Hc. by right.
Qed.

Lemma analyze_latest_prs_never_raises repo_info rules rules_loaded github_token max_prs
    start_time batch_mode :
  never_raises
    (_analyze_latest_prs E repo_info rules rules_loaded github_token max_prs start_time
       batch_mode).
Proof.
  intros s.
  destruct (candidate_prs_run E repo_info github_token max_prs s) as (prs & w' & Hprs).
  destruct (analyze_latest_prs_run E repo_info rules rules_loaded github_token max_prs
              start_time batch_mode s prs _ Hprs) as [Hnone Hsome].
  destruct prs as [|pr rest]; [rewrite Hnone by done; eauto|].
  destruct Hsome as (found & summaries & s2 & _ & Hrun); [done|].
  rewrite Hrun. eauto.
Qed.

Lemma dispatch_performs repo_info requested_pr rules github_token max_prs start_time
    batch_mode :
  performs (dispatch_call rules)
    (dispatch E repo_info requested_pr rules github_token max_prs start_time batch_mode).
Proof.
  unfold dispatch. destruct (int_truthy _).
  - apply analyze_single_pr_performs.
  - apply analyze_latest_prs_performs.
Qed.

(** [analyze], stage by stage. *)
Lemma analyze_stages repo_info requested_pr rules_yaml github_token max_prs batch_mode
    (s : St) :
  analyze E repo_info requested_pr rules_yaml github_token max_prs batch_mode s
  = let start_time := time_time E (world s) in
    let failed s' f := (Ok (failure_result E repo_info github_token start_time s' f 0), s') in
    match lookup_repository E repo_info github_token s with
    | (Raise message, s1) => failed s1 (Unexpected message)
    | (Ok repo_data, s1) =>
        if truthy repo_data then
          match _load_rules E (full_name repo_info) rules_yaml github_token s1 with
          | (Raise message, s2) => failed s2 (Unexpected message)
          | (Ok [], s2) => failed s2 NoRulesResolved
          | (Ok (rule :: rules), s2) =>
              match dispatch E repo_info requested_pr (rule :: rules) github_token max_prs
                      start_time batch_mode s2 with
              | (Ok r, s3) => (Ok r, s3)
              | (Raise message, s3) => failed s3 (Unexpected message)
              end
          end
        else failed s1 RepositoryUnavailable
    end.
Proof.
  unfold analyze, lookup_repository, dispatch, target_pr, failure_result, failure_message.
  rewrite bind_run. unfold now at 1. cbv zeta. rewrite try_except_run, bind_run.
  destruct (perform _ _ s) as [[repo_data|message] s1]; [|done].
  destruct (truthy repo_data); cbn [negb]; cbv beta iota.
  - rewrite bind_run.
    by destruct (_load_rules E _ _ _ s1) as [[[|rule rules]|message] s2].
  - by destruct (str_truthy github_token).
Qed.

Lemma analyze_never_raises repo_info requested_pr rules_yaml github_token max_prs batch_mode :
  never_raises (analyze E repo_info requested_pr rules_yaml github_token max_prs batch_mode).
Proof.
  intros s. rewrite analyze_stages. cbv zeta. cases; eauto.
Qed.

Lemma analyze_fails repo_info requested_pr rules_yaml github_token max_prs batch_mode
    (s : St) f :
  fails E repo_info requested_pr rules_yaml github_token max_prs batch_mode s f ->
  exists s' loaded,
    analyze E repo_info requested_pr rules_yaml github_token max_prs batch_mode s
    = (Ok (failure_result E repo_info github_token (time_time E (world s)) s' f loaded), s')
    /\ forall rules s2,
         resolved E repo_info rules_yaml github_token s rules s2 ->
         loaded = loaded_after f rules.
Proof.
  intros Hfails. rewrite analyze_stages. cbv zeta.
  destruct Hfails as [message s1 Hlookup
                     |repo_data s1 Hlookup Hfalsy
                     |repo_data s1 message s2 Hlookup Htruthy Hrules
                     |repo_data s1 s2 Hlookup Htruthy Hrules
                     |rules s2 number payload s3 Hresolved Htarget Hnumber Hfetch Hfalsy
                     |rules s2 s3 Hresolved Htarget Hprs
                     |rules s2 message s3 Hresolved Hdispatch].
  - rewrite Hlookup. eexists _, _. split; [done|]. by intros.
  - rewrite Hlookup, Hfalsy. eexists _, _. split; [done|]. by intros.
  - rewrite Hlookup, Htruthy, Hrules. eexists _, _. split; [done|]. by intros.
  - rewrite Hlookup, Htruthy, Hrules. eexists _, _. split; [done|]. by intros.
  - destruct Hresolved as (repo_data & s1 & Hlookup & Htruthy & Hrules & Hne).
    rewrite Hlookup, Htruthy, Hrules. destruct rules as [|rule rules]; [done|].
    unfold dispatch. rewrite Htarget. unfold int_truthy.
    rewrite (proj2 (Z.eqb_neq _ _) Hnumber). cbn [negb]. cbv beta iota.
    change (default 0 (Some number)) with number.
    rewrite (analyze_single_pr_not_found _ _ _ _ _ _ _ _ _ Hfetch Hfalsy).
    eexists _, _. split; [done|].
    intros rules' s2' (repo_data' & s1' & Hlookup' & _ & Hrules' & _).
    rewrite Hlookup in Hlookup'. injection Hlookup' as <- <-.
    rewrite Hrules in Hrules'. by injection Hrules' as <- <-.
  - destruct Hresolved as (repo_data & s1 & Hlookup & Htruthy & Hrules & Hne).
    rewrite Hlookup, Htruthy, Hrules. destruct rules as [|rule rules]; [done|].
    unfold dispatch. rewrite Htarget.
    destruct (analyze_latest_prs_run E repo_info (rule :: rules) (len (rule :: rules))
                github_token max_prs (time_time E (world s)) batch_mode s2 [] s3 Hprs)
      as [Hnone _].
    rewrite Hnone by done.
    eexists _, _. split; [done|].
    intros rules' s2' (repo_data' & s1' & Hlookup' & _ & Hrules' & _).
    rewrite Hlookup in Hlookup'. injection Hlookup' as <- <-.
    rewrite Hrules in Hrules'. by injection Hrules' as <- <-.
  - destruct Hresolved as (repo_data & s1 & Hlookup & Htruthy & Hrules & Hne).
    rewrite Hlookup, Htruthy, Hrules. destruct rules as [|rule rules]; [done|].
    rewrite Hdispatch. eexists _, _. split; [done|]. by intros.
Qed.

End AnalyzeFacts.

(** ** Repository references *)

Module GitHubURLFacts.
Import GitHubURL.

(** *** The matcher on strings of a known shape *)

Lemma strip_prefix_app (l s : list ascii) : strip_prefix l (l ++ s) = Some s.
Proof.
  induction l as [|a l IH]; [done|]. simpl. by rewrite Ascii.eqb_refl.
Qed.

Lemma rmatch_lit (l s : list ascii) pos g (k : cont) :
  rmatch (RLit l) (l ++ s) pos g k = k (pos + length l)%nat s g.
Proof. simpl. by rewrite strip_prefix_app. Qed.

Lemma rmatch_seq r1 r2 s pos g (k : cont) :
  rmatch (RSeq r1 r2) s pos g k
  = rmatch r1 s pos g (fun pos' s' g' => rmatch r2 s' pos' g' k).
Proof. done. Qed.

Lemma rmatch_group name r s pos g (k : cont) :
  rmatch (RGroup name r) s pos g k
  = rmatch r s pos g (fun pos' s' g' => k pos' s' (<[name := take (pos' - pos) s]> g')).
Proof. done. Qed.

Lemma rmatch_opt_taken r s pos g (k : cont) m :
  rmatch r s pos g k = Some m -> rmatch (ROpt r) s pos g k = Some m.
Proof. simpl. by intros ->. Qed.

Lemma rmatch_opt_skipped r s pos g (k : cont) :
  rmatch r s pos g k = None -> rmatch (ROpt r) s pos g k = k pos s g.
Proof. simpl. by intros ->. Qed.

Lemma star_greedy_longest cls (x s : list ascii) pos g (k : cont) m :
  forallb cls x = true ->
  ReferenceShapes.stops cls s ->
  k (pos + length x)%nat s g = Some m ->
  star_greedy cls (x ++ s) pos g k = Some m.
Proof.
  revert pos. induction x as [|c x IH]; intros pos Hx Hs Hk; simpl in Hx.
  - rewrite Nat.add_0_r in Hk. destruct s as [|c s]; [done|]. simpl in *.
    by rewrite Hs.
  - apply andb_true_iff in Hx as [Hc Hx]. simpl. rewrite Hc.
    rewrite (IH (S pos)); [done | done | done |].
    rewrite <- Hk. f_equal. simpl. lia.
Qed.

(** A greedy run takes all of [x], which cannot be extended, when what
    follows can be matched from there. *)
Lemma rmatch_plus_greedy cls (x s : list ascii) pos g (k : cont) m :
  x <> [] ->
  forallb cls x = true ->
  ReferenceShapes.stops cls s ->
  k (pos + length x)%nat s g = Some m ->
  rmatch (RPlus true cls) (x ++ s) pos g k = Some m.
Proof.
  intros Hne Hx Hs Hk. destruct x as [|c x]; [done|]. simpl in Hx.
  apply andb_true_iff in Hx as [Hc Hx]. simpl. rewrite Hc.
  apply star_greedy_longest; [done | done |].
  rewrite <- Hk. f_equal. simpl. lia.
Qed.

Lemma star_lazy_shortest cls (x s : list ascii) pos g (k : cont) m :
  forallb cls x = true ->
  (forall x1 x2, x = x1 ++ x2 -> x2 <> [] -> k (pos + length x1)%nat (x2 ++ s) g = None) ->
  k (pos + length x)%nat s g = Some m ->
  star_lazy cls (x ++ s) pos g k = Some m.
Proof.
  revert pos. induction x as [|c x IH]; intros pos Hx Hshorter Hk.
  - rewrite Nat.add_0_r in Hk. destruct s; simpl; by rewrite Hk.
  - simpl in Hx. apply andb_true_iff in Hx as [Hc Hx].
    assert (k pos (c :: x ++ s) g = None) as Hhere.
    { rewrite <- (Hshorter [] (c :: x) eq_refl); [|done]. f_equal. simpl. lia. }
    simpl. rewrite Hhere, Hc. apply IH; [done| |].
    + intros x1 x2 -> Hx2. rewrite <- (Hshorter (c :: x1) x2 eq_refl Hx2).
      f_equal. simpl. lia.
    + rewrite <- Hk. f_equal. simpl. lia.
Qed.

(** A lazy run takes all of [x] when what follows can be matched from
    there and from no earlier position. *)
Lemma rmatch_plus_lazy cls (x s : list ascii) pos g (k : cont) m :
  x <> [] ->
  forallb cls x = true ->
  (forall x1 x2, x = x1 ++ x2 -> x1 <> [] -> x2 <> [] ->
                 k (pos + length x1)%nat (x2 ++ s) g = None) ->
  k (pos + length x)%nat s g = Some m ->
  rmatch (RPlus false cls) (x ++ s) pos g k = Some m.
Proof.
  intros Hne Hx Hshorter Hk. destruct x as [|c x]; [done|]. simpl in Hx.
  apply andb_true_iff in Hx as [Hc Hx]. simpl. rewrite Hc.
  apply star_lazy_shortest; [done| |].
  - intros x1 x2 -> Hx2. rewrite <- (Hshorter (c :: x1) x2 eq_refl); [|done..].
    f_equal. simpl. lia.
  - rewrite <- Hk. f_equal. simpl. lia.
Qed.

Lemma take_matched (x s : list ascii) (pos : nat) :
  take (pos + length x - pos) (x ++ s) = x.
Proof.
  replace (pos + length x - pos)%nat with (length x) by lia.
  by rewrite take_app_length.
Qed.

(** *** The conversion of the PR number *)

Lemma int_within_limit (n : list ascii) :
  len n <= int_max_str_digits -> int n = Ok (decimal n).
Proof.
  intros Hn. unfold int. by destruct (Z.ltb_spec int_max_str_digits (len n)); [lia|].
Qed.

Lemma int_over_limit (n : list ascii) :
  int_max_str_digits < len n -> int n = Raise (int_limit_message (len n)).
Proof.
  intros Hn. unfold int. by destruct (Z.ltb_spec int_max_str_digits (len n)); [|lia].
Qed.

(** A reference that is returned holds the groups of the match, and the
    value of the group [pr]. *)
Lemma with_branch_and_pr_returns (m : groups) (info : GitHubRepoInfo) :
  with_branch_and_pr m = Ok info ->
  owner info = default "" (group m "owner")
  /\ repo info = default "" (group m "repo")
  /\ branch info = group m "branch"
  /\ pr_number info = match m !! "pr" with
                      | Some (c :: d) => Some (decimal (c :: d))
                      | _ => None
                      end.
Proof.
  unfold with_branch_and_pr, int.
  destruct (m !! "pr") as [[|c d]|]; simpl; try (by intros [= <-]).
  destruct (int_max_str_digits <? len (c :: d)); simpl; [done|]. by intros [= <-].
Qed.

(** The one exception is that of a group [pr] over the limit. *)
Lemma with_branch_and_pr_raises (m : groups) (message : exn) :
  with_branch_and_pr m = Raise message ->
  exists n, m !! "pr" = Some n /\ int_max_str_digits < len n
            /\ message = int_limit_message (len n).
Proof.
  unfold with_branch_and_pr, int.
  destruct (m !! "pr") as [[|c d]|]; simpl; try done.
  destruct (Z.ltb_spec int_max_str_digits (len (c :: d))); simpl; [|done].
  intros [= <-]. by exists (c :: d).
Qed.

End GitHubURLFacts.

Module TrailerFacts.
Import GitHubURL ReferenceShapes GitHubURLFacts.

Local Arguments Ascii.eqb : simpl never.
Local Arguments not_slash : simpl never.
Local Arguments digit : simpl never.
Local Arguments repo_char : simpl never.
Local Arguments owner_char : simpl never.
Local Arguments whitespace : simpl never.

(** Evaluates the tests on known characters, splits on the tests on
    unknown ones, and takes the unknown strings apart as far as the
    matcher looks into them. *)
Ltac known c := lazymatch c with Ascii _ _ _ _ _ _ _ _ => idtac end.

Ltac evaluate_tests :=
  repeat match goal with
    | |- context [Ascii.eqb ?a ?b] =>
        known a; known b;
        let v := eval vm_compute in (Ascii.eqb a b) in change (Ascii.eqb a b) with v
    | |- context [not_slash ?c] =>
        known c; let v := eval vm_compute in (not_slash c) in change (not_slash c) with v
    | |- context [digit ?c] =>
        known c; let v := eval vm_compute in (digit c) in change (digit c) with v
    | H : repo_char ?c = true |- _ =>
        known c; first [by vm_compute in H | clear H]
    | H : owner_char ?c = true |- _ =>
        known c; first [by vm_compute in H | clear H]
    | H : digit ?c = true |- _ =>
        known c; first [by vm_compute in H | clear H]
    end.

Lemma ends_with_git_app (x : list ascii) :
  ends_with_git (x ++ ["."; "g"; "i"; "t"]%char) = true.
Proof. unfold ends_with_git. by rewrite rev_app_distr. Qed.

Ltac explore :=
  unfold newline in *;
  repeat (simpl; cbn [app]; evaluate_tests; try done;
          match goal with
          | H : ends_with_git (_ ++ ["."; "g"; "i"; "t"]%char) = false |- _ =>
              by rewrite ends_with_git_app in H
          | H : _ && _ = true |- _ => apply andb_true_iff in H; destruct H
          | H : forallb _ (_ :: _) = true |- _ => simpl in H
          | H : forallb _ [] = true |- _ => clear H
          | H : nonempty (_ :: _) = true |- _ => clear H
          | H : nonempty [] = true |- _ => done
          | |- context [Ascii.eqb ?a ?c] =>
              is_var c; destruct (Ascii.eqb_spec a c); [subst c|]
          | |- context [Ascii.eqb ?c ?a] =>
              is_var c; destruct (Ascii.eqb_spec c a); [subst c|]
          | |- context [match ?l ++ _ with _ => _ end] => is_var l; destruct l
          | |- context [match ?l with _ => _ end] => is_var l; destruct l
          end).

(** The trailer pattern matches nothing that starts inside the repository
    name. *)
Lemma trailer_pattern_rejects (x1 x2 : list ascii) (t : Trailer) pos g (k : cont) :
  x2 <> [] ->
  forallb repo_char x2 = true ->
  ends_with_git (x1 ++ x2) = false ->
  trailer_ok t = true ->
  rmatch trailer_pattern (x2 ++ trailer_text t) pos g k = None.
Proof.
  intros Hne Hx2 Hgit Ht. unfold trailer_pattern.
  destruct t; unfold trailer_ok, branch_name, pr_digits in Ht; explore.
Qed.


Lemma star_greedy_all cls (x : list ascii) pos g (k : cont) m :
  forallb cls x = true ->
  k (pos + length x)%nat [] g = Some m ->
  star_greedy cls x pos g k = Some m.
Proof.
  intros Hx Hk. rewrite <- (app_nil_r x). by apply star_greedy_longest.
Qed.

Lemma repo_char_not_slash (x : list ascii) :
  forallb repo_char x = true -> forallb not_slash x = true.
Proof.
  induction x as [|c x IH]; [done|]. simpl.
  intros [Hc Hx]%andb_true_iff. rewrite (IH Hx), andb_true_r.
  unfold not_slash. destruct (Ascii.eqb_spec c "/"); [subst c|done].
  by vm_compute in Hc.
Qed.

Lemma owner_char_not_slash (x : list ascii) :
  forallb owner_char x = true -> forallb not_slash x = true.
Proof.
  induction x as [|c x IH]; [done|]. simpl.
  intros [Hc Hx]%andb_true_iff. rewrite (IH Hx), andb_true_r.
  unfold not_slash. destruct (Ascii.eqb_spec c "/"); [subst c|done].
  by vm_compute in Hc.
Qed.

Lemma take_matched_all (x : list ascii) (pos n : nat) :
  take (n + (pos + length x) - (n + pos)) x = x.
Proof. apply take_ge. lia. Qed.

(** The trailer pattern matches a trailer, binding its groups. *)
Lemma trailer_pattern_accepts (t : Trailer) pos g :
  trailer_ok t = true ->
  rmatch trailer_pattern (trailer_text t) pos g accept
  = Some (trailer_groups t g).
Proof.
  intros Ht. unfold trailer_pattern.
  destruct t as [| | |b|b|n]; unfold trailer_ok, branch_name, pr_digits in Ht;
    try reflexivity.
  - apply andb_true_iff in Ht as [Hne Hb]. destruct b as [|c b]; [done|].
    apply repo_char_not_slash in Hb. simpl in Hb. apply andb_true_iff in Hb as [Hc Hb].
    simpl. evaluate_tests. simpl. rewrite Hc.
    erewrite star_greedy_all; [|exact Hb|simpl; reflexivity].
    simpl. rewrite take_ge by (simpl; lia). done.
  - apply andb_true_iff in Ht as [Hne Hb]. destruct b as [|c b]; [done|].
    apply repo_char_not_slash in Hb. simpl in Hb. apply andb_true_iff in Hb as [Hc Hb].
    simpl. evaluate_tests. simpl. rewrite Hc.
    erewrite star_greedy_all; [|exact Hb|simpl; reflexivity].
    simpl. rewrite take_ge by (simpl; lia). done.
  - apply andb_true_iff in Ht as [Hne Hn]. destruct n as [|c n]; [done|].
    simpl in Hn. apply andb_true_iff in Hn as [Hc Hn].
    simpl. evaluate_tests. simpl. rewrite Hc.
    erewrite star_greedy_all; [|exact Hn|simpl; reflexivity].
    simpl. rewrite take_ge by (simpl; lia). done.
Qed.


Lemma nonempty_ne (x : list ascii) : nonempty x = true -> x <> [].
Proof. by destruct x. Qed.

Lemma forallb_app_r {A} (f : A -> bool) (x1 x2 : list A) :
  forallb f (x1 ++ x2) = true -> forallb f x2 = true.
Proof. rewrite forallb_app. by intros [_ ?]%andb_true_iff. Qed.

(** [owner/repo] and a trailer, against the part the first two patterns
    share. *)
Lemma path_pattern_matches (o r : list ascii) (t : Trailer) pos g :
  owner_name o = true ->
  repo_name r = true ->
  trailer_ok t = true ->
  rmatch (rseq path_pattern) (o ++ lit "/" ++ r ++ trailer_text t) pos g accept
  = Some (trailer_groups t (<["repo" := r]> (<["owner" := o]> g))).
Proof.
  unfold owner_name, repo_name.
  intros [Ho1 Ho2]%andb_true_iff [[Hr1 Hr2]%andb_true_iff Hgit%negb_true_iff]%andb_true_iff Ht.
  change (rseq path_pattern)
    with (RSeq (RGroup "owner" (RPlus true not_slash))
            (RSeq (RLit (lit "/"))
               (RSeq (RGroup "repo" (RPlus false not_slash)) trailer_pattern))).
  rewrite rmatch_seq, rmatch_group.
  apply rmatch_plus_greedy;
    [by apply nonempty_ne | by apply owner_char_not_slash | done |].
  rewrite rmatch_seq, rmatch_lit, rmatch_seq, rmatch_group.
  apply rmatch_plus_lazy; [by apply nonempty_ne | by apply repo_char_not_slash | |].
  - intros x1 x2 -> Hx1 Hx2.
    apply trailer_pattern_rejects with x1; [done| |done|done].
    by apply forallb_app_r in Hr2.
  - rewrite trailer_pattern_accepts by done. by rewrite !take_matched.
Qed.


Lemma rmatch_begin s g (k : cont) : rmatch RBegin s 0 g k = k 0%nat s g.
Proof. done. Qed.

Lemma https_pattern_matches (o r : list ascii) (t : Trailer) :
  owner_name o = true ->
  repo_name r = true ->
  trailer_ok t = true ->
  re_match HTTPS_PATTERN (lit "https://github.com/" ++ o ++ lit "/" ++ r ++ trailer_text t)
  = Some (trailer_groups t (<["repo" := r]> (<["owner" := o]> ∅)))
  /\ re_match HTTPS_PATTERN (lit "http://github.com/" ++ o ++ lit "/" ++ r ++ trailer_text t)
     = Some (trailer_groups t (<["repo" := r]> (<["owner" := o]> ∅))).
Proof.
  intros Ho Hr Ht. unfold re_match.
  change HTTPS_PATTERN
    with (RSeq (RLit (lit "http"))
            (RSeq (ROpt (RLit (lit "s")))
               (RSeq (RLit (lit "://github.com/")) (rseq path_pattern)))).
  split.
  - change (lit "https://github.com/" ++ o ++ lit "/" ++ r ++ trailer_text t)
      with (lit "http" ++ lit "s" ++ lit "://github.com/"
              ++ o ++ lit "/" ++ r ++ trailer_text t).
    rewrite rmatch_seq, rmatch_lit, rmatch_seq. apply rmatch_opt_taken.
    rewrite rmatch_lit, rmatch_seq, rmatch_lit. by apply path_pattern_matches.
  - change (lit "http://github.com/" ++ o ++ lit "/" ++ r ++ trailer_text t)
      with (lit "http" ++ lit "://github.com/" ++ o ++ lit "/" ++ r ++ trailer_text t).
    rewrite rmatch_seq, rmatch_lit, rmatch_seq, rmatch_opt_skipped by reflexivity.
    rewrite rmatch_seq, rmatch_lit. by apply path_pattern_matches.
Qed.


(** The end of the SSH pattern matches nothing that starts inside the
    repository name. *)
Lemma ssh_tail_rejects (x1 x2 : list ascii) (dot_git : bool) pos g (k : cont) :
  x2 <> [] ->
  forallb repo_char x2 = true ->
  ends_with_git (x1 ++ x2) = false ->
  rmatch ssh_trailer_pattern
    (x2 ++ (if dot_git then lit ".git" else [])) pos g k = None.
Proof.
  intros Hne Hx2 Hgit. unfold ssh_trailer_pattern. destruct dot_git; explore.
Qed.

Lemma ssh_pattern_matches (o r : list ascii) (dot_git : bool) :
  owner_name o = true ->
  repo_name r = true ->
  let subject := lit "git@github.com:" ++ o ++ lit "/" ++ r
                 ++ (if dot_git then lit ".git" else []) in
  re_match HTTPS_PATTERN subject = None
  /\ re_match BARE_PATTERN subject = None
  /\ re_match SSH_PATTERN subject = Some (<["repo" := r]> (<["owner" := o]> ∅)).
Proof.
  unfold owner_name, repo_name.
  intros [Ho1 Ho2]%andb_true_iff [[Hr1 Hr2]%andb_true_iff Hgit%negb_true_iff]%andb_true_iff.
  cbv zeta. unfold re_match. split; [reflexivity|]. split; [reflexivity|].
  change SSH_PATTERN
    with (RSeq (RLit (lit "git@github.com:"))
            (RSeq (RGroup "owner" (RPlus true not_slash))
               (RSeq (RLit (lit "/"))
                  (RSeq (RGroup "repo" (RPlus false not_slash))
                     ssh_trailer_pattern)))).
  rewrite rmatch_seq, rmatch_lit, rmatch_seq, rmatch_group.
  apply rmatch_plus_greedy;
    [by apply nonempty_ne | by apply owner_char_not_slash | done |].
  rewrite rmatch_seq, rmatch_lit, rmatch_seq, rmatch_group.
  apply rmatch_plus_lazy; [by apply nonempty_ne | by apply repo_char_not_slash | |].
  - intros x1 x2 -> Hx1 Hx2.
    apply ssh_tail_rejects with x1; [done| |done].
    by apply forallb_app_r in Hr2.
  - rewrite !take_matched. by destruct dot_git.
Qed.


Lemma short_pattern_matches (o r : list ascii) :
  owner_name o = true ->
  branch_name r = true ->
  re_match HTTPS_PATTERN (o ++ lit "/" ++ r) = None
  /\ re_match BARE_PATTERN (o ++ lit "/" ++ r) = None
  /\ re_match SSH_PATTERN (o ++ lit "/" ++ r) = None
  /\ re_match SHORT_PATTERN (o ++ lit "/" ++ r) = Some (<["repo" := r]> (<["owner" := o]> ∅)).
Proof.
  unfold owner_name, branch_name.
  intros [Ho1 Ho2]%andb_true_iff [Hr1 Hr2]%andb_true_iff.
  unfold re_match.
  split; [|split; [|split]].
  - clear Hr1 Hr2. unfold HTTPS_PATTERN, accept. explore.
  - clear Hr1 Hr2. unfold BARE_PATTERN, accept. explore.
  - clear Hr1 Hr2. unfold SSH_PATTERN, accept. explore.
  - change SHORT_PATTERN
      with (RSeq RBegin
              (RSeq (RGroup "owner" (RPlus true owner_char))
                 (RSeq (RLit (lit "/"))
                    (RSeq (RGroup "repo" (RPlus true repo_char)) REnd)))).
    rewrite <- (app_nil_r r) at 1.
    rewrite rmatch_seq, rmatch_begin, rmatch_seq, rmatch_group.
    apply rmatch_plus_greedy; [by apply nonempty_ne | done | reflexivity |].
    rewrite rmatch_seq, rmatch_lit, rmatch_seq, rmatch_group.
    apply rmatch_plus_greedy; [by apply nonempty_ne | done | done |].
    by rewrite !take_matched.
Qed.

End TrailerFacts.

Module GroupFacts.
Import GitHubURL ReferenceShapes GitHubURLFacts.

(** A run stops after some characters of the class. *)
Lemma star_greedy_stops cls (s : list ascii) pos g (k : cont) m :
  star_greedy cls s pos g k = Some m ->
  exists n, forallb cls (take n s) = true /\ k (pos + n)%nat (drop n s) g = Some m.
Proof.
  revert pos. induction s as [|c s IH]; intros pos; simpl.
  - intros Hk. exists 0%nat. by rewrite Nat.add_0_r.
  - destruct (cls c) eqn:Hc.
    + destruct (star_greedy cls s (S pos) g k) as [m'|] eqn:Hstar.
      * intros [= <-]. destruct (IH _ Hstar) as (n & Hn & Hk).
        exists (S n). simpl. rewrite Hc, Hn. split; [done|].
        rewrite <- Hk. f_equal. lia.
      * intros Hk. exists 0%nat. by rewrite Nat.add_0_r.
    + intros Hk. exists 0%nat. by rewrite Nat.add_0_r.
Qed.

Lemma star_lazy_stops cls (s : list ascii) pos g (k : cont) m :
  star_lazy cls s pos g k = Some m ->
  exists n, forallb cls (take n s) = true /\ k (pos + n)%nat (drop n s) g = Some m.
Proof.
  revert pos. induction s as [|c s IH]; intros pos; simpl.
  - destruct (k pos [] g) eqn:Hk; [|done]. intros [= <-].
    exists 0%nat. by rewrite Nat.add_0_r.
  - destruct (k pos (c :: s) g) eqn:Hk.
    + intros [= <-]. exists 0%nat. by rewrite Nat.add_0_r.
    + destruct (cls c) eqn:Hc; [|done]. intros Hstar.
      destruct (IH _ Hstar) as (n & Hn & Hk').
      exists (S n). simpl. rewrite Hc, Hn. split; [done|].
      rewrite <- Hk'. f_equal. lia.
Qed.

Lemma rmatch_plus_stops greedy cls (s : list ascii) pos g (k : cont) m :
  rmatch (RPlus greedy cls) s pos g k = Some m ->
  exists n, forallb cls (take n s) = true /\ k (pos + n)%nat (drop n s) g = Some m.
Proof.
  simpl. destruct s as [|c s]; [done|]. destruct (cls c) eqn:Hc; [|done].
  intros Hstar.
  assert (exists n, forallb cls (take n s) = true
                    /\ k (S pos + n)%nat (drop n s) g = Some m) as (n & Hn & Hk).
  { destruct greedy; [by apply star_greedy_stops | by apply star_lazy_stops]. }
  exists (S n). simpl. rewrite Hc, Hn. split; [done|].
  rewrite <- Hk. f_equal. lia.
Qed.

(** Matching keeps the groups free of slashes. *)
Lemma rmatch_slash_free (r : regex) :
  slash_free_groups r ->
  forall s pos g (k : cont) m,
    slash_free g ->
    rmatch r s pos g k = Some m ->
    exists pos' s' g', slash_free g' /\ k pos' s' g' = Some m.
Proof.
  induction r as [| |l|greedy cls|r IH|r1 IH1 r2 IH2|name r IH|r1 IH1 r2 IH2];
    intros Hr s pos g k m Hg; simpl.
  - destruct (Nat.eqb pos 0); [eauto|done].
  - destruct s as [|c [|]]; [eauto| |done]. destruct (Ascii.eqb c newline); [eauto|done].
  - destruct (strip_prefix l s); [eauto|done].
  - intros Hm. destruct (rmatch_plus_stops greedy cls s pos g k m Hm) as (n & _ & Hk). eauto.
  - destruct (rmatch r s pos g k) eqn:Hm; [|eauto].
    intros [= <-]. by eapply IH.
  - destruct Hr as [Hr1 Hr2]. destruct (rmatch r1 s pos g k) eqn:Hm.
    + intros [= <-]. by eapply IH1.
    + by apply IH2.
  - destruct r as [| | |greedy cls| | | |]; try done.
    intros Hm. apply rmatch_plus_stops in Hm as (n & Hn & Hk).
    eexists _, _, _. split; [|exact Hk].
    unfold slash_free, groups in *. intros name' x. rewrite lookup_insert. case_decide as Hname.
    + intros [= <-]. replace (pos + n - pos)%nat with n by lia.
      rewrite forallb_forall in Hn. apply forallb_forall. intros c Hc. by apply Hr, Hn.
    + apply Hg.
  - destruct Hr as [Hr1 Hr2]. intros Hm.
    destruct (IH1 Hr1 _ _ _ _ _ Hg Hm) as (pos' & s' & g' & Hg' & Hm').
    by eapply IH2.
Qed.

Lemma re_match_slash_free (r : regex) (s : list ascii) (m : groups) :
  slash_free_groups r -> re_match r s = Some m -> slash_free m.
Proof.
  intros Hr Hm.
  destruct (rmatch_slash_free r Hr s 0%nat ∅ accept m) as (pos' & s' & g' & Hg' & Hk).
  - unfold slash_free, groups. intros name x. by rewrite lookup_empty.
  - exact Hm.
  - by injection Hk as <-.
Qed.

Lemma digit_is_not_slash (c : ascii) : digit c = true -> not_slash c = true.
Proof. destruct c as [[] [] [] [] [] [] [] []]; by vm_compute. Qed.

Lemma owner_char_is_not_slash (c : ascii) : owner_char c = true -> not_slash c = true.
Proof. destruct c as [[] [] [] [] [] [] [] []]; by vm_compute. Qed.

Lemma repo_char_is_not_slash (c : ascii) : repo_char c = true -> not_slash c = true.
Proof. destruct c as [[] [] [] [] [] [] [] []]; by vm_compute. Qed.

Lemma patterns_slash_free :
  slash_free_groups HTTPS_PATTERN /\ slash_free_groups BARE_PATTERN
  /\ slash_free_groups SSH_PATTERN /\ slash_free_groups SHORT_PATTERN.
Proof.
  pose proof digit_is_not_slash. pose proof owner_char_is_not_slash.
  pose proof repo_char_is_not_slash.
  repeat split; try done; by intros c.
Qed.

Lemma slash_count_str (x : list ascii) :
  forallb not_slash x = true -> slash_count (str x) = 0%nat.
Proof.
  induction x as [|c x IH]; [done|]. simpl.
  intros [Hc Hx]%andb_true_iff. unfold not_slash in Hc.
  apply negb_true_iff in Hc. rewrite Hc. by apply IH.
Qed.

Lemma group_slash_count (m : groups) (name : string) :
  slash_free m -> slash_count (default "" (group m name)) = 0%nat.
Proof.
  intros Hm. unfold group. destruct (m !! name) as [x|] eqn:Hx; [|done].
  simpl. by apply slash_count_str, (Hm name).
Qed.

(** The owner and the repository name of a parsed reference hold no
    slash, so that its full name holds exactly one. *)
Lemma parse_full_name_slashes (text : string) (info : GitHubRepoInfo) :
  parse text = Ok (Some info) ->
  slash_count (owner info) = 0%nat
  /\ slash_count (repo info) = 0%nat
  /\ slash_count (full_name info) = 1%nat.
Proof.
  intros Hparse.
  destruct patterns_slash_free as (Hhttps & Hbare & Hssh & Hshort).
  assert (forall m, slash_free m ->
                    slash_count (default "" (group m "owner")) = 0%nat
                    /\ slash_count (default "" (group m "repo")) = 0%nat) as Hgroups.
  { intros m Hm. split; by apply group_slash_count. }
  assert (forall m, slash_free m ->
                    Some <$> with_branch_and_pr m = Ok (Some info) ->
                    slash_count (owner info) = 0%nat /\ slash_count (repo info) = 0%nat)
    as Hconverted.
  { intros m Hm. destruct (with_branch_and_pr m) as [info'|message] eqn:Hinfo; [|done].
    intros [= ->]. destruct (with_branch_and_pr_returns m info Hinfo) as (-> & -> & _).
    by apply Hgroups. }
  assert (slash_count (owner info) = 0%nat /\ slash_count (repo info) = 0%nat)
    as [Howner Hrepo].
  { revert Hparse. unfold parse.
    destruct (re_match HTTPS_PATTERN _) as [m|] eqn:Hm1.
    { apply Hconverted. by eapply re_match_slash_free; [exact Hhttps|]. }
    destruct (re_match BARE_PATTERN _) as [m|] eqn:Hm2.
    { apply Hconverted. by eapply re_match_slash_free; [exact Hbare|]. }
    destruct (re_match SSH_PATTERN _) as [m|] eqn:Hm3.
    { intros [= <-]. apply Hgroups. by eapply re_match_slash_free; [exact Hssh|]. }
    destruct (re_match SHORT_PATTERN _) as [m|] eqn:Hm4; [|done].
    intros [= <-]. apply Hgroups. by eapply re_match_slash_free; [exact Hshort|]. }
  split; [done|]. split; [done|].
  unfold full_name. rewrite !slash_count_app, Howner, Hrepo. done.
Qed.

(** *** No group is longer than the subject *)

Lemma strip_prefix_shorter (l s s' : list ascii) :
  strip_prefix l s = Some s' -> (length s' <= length s)%nat.
Proof.
  revert s. induction l as [|a l IH]; intros s; simpl.
  - by intros [= ->].
  - destruct s as [|b s]; [done|]. destruct (Ascii.eqb a b); [|done].
    intros Hs. apply IH in Hs. simpl. lia.
Qed.

Lemma rmatch_groups_short (r : regex) (L : nat) :
  forall s pos g (k : cont) m,
    (length s <= L)%nat ->
    (forall name x, g !! name = Some x -> (length x <= L)%nat) ->
    rmatch r s pos g k = Some m ->
    exists pos' s' g',
      (length s' <= L)%nat
      /\ (forall name x, g' !! name = Some x -> (length x <= L)%nat)
      /\ k pos' s' g' = Some m.
Proof.
  induction r as [| |l|greedy cls|r IH|r1 IH1 r2 IH2|name r IH|r1 IH1 r2 IH2];
    intros s pos g k m Hs Hg; simpl.
  - destruct (Nat.eqb pos 0); [|done]. intros Hk. by eexists _, s, g.
  - destruct s as [|c [|]]; [intros Hk; by eexists _, [], g| |done].
    destruct (Ascii.eqb c newline); [|done]. intros Hk. by eexists _, [c], g.
  - destruct (strip_prefix l s) as [s'|] eqn:Hprefix; [|done]. intros Hk.
    eexists _, s', g. split; [|done]. apply strip_prefix_shorter in Hprefix. lia.
  - intros Hm. destruct (rmatch_plus_stops greedy cls s pos g k m Hm) as (n & _ & Hk).
    eexists _, (drop n s), g. split; [|done]. rewrite length_drop. lia.
  - destruct (rmatch r s pos g k) eqn:Hm.
    + intros [= <-]. by apply (IH s pos g k).
    + intros Hk. by eexists _, s, g.
  - destruct (rmatch r1 s pos g k) eqn:Hm.
    + intros [= <-]. by apply (IH1 s pos g k).
    + by apply IH2.
  - intros Hm. destruct (IH _ _ _ _ _ Hs Hg Hm) as (pos' & s' & g' & Hs' & Hg' & Hk).
    eexists _, s', _. split; [done|]. split; [|exact Hk].
    unfold groups in *. intros name' x. rewrite lookup_insert. case_decide as Hname.
    + intros [= <-]. rewrite length_take. lia.
    + apply Hg'.
  - intros Hm. destruct (IH1 _ _ _ _ _ Hs Hg Hm) as (pos1 & s1 & g1 & Hs1 & Hg1 & Hm1).
    by apply (IH2 s1 pos1 g1 k).
Qed.

Lemma re_match_groups_short (r : regex) (s : list ascii) (m : groups) :
  re_match r s = Some m ->
  forall name x, m !! name = Some x -> (length x <= length s)%nat.
Proof.
  intros Hm.
  destruct (rmatch_groups_short r (length s) s 0%nat ∅ accept m)
    as (pos' & s' & g' & _ & Hg' & Hk); [done| |exact Hm|].
  - unfold groups. intros name x. by rewrite lookup_empty.
  - by injection Hk as <-.
Qed.

Lemma lstrip_shorter (s : list ascii) : (length (lstrip s) <= length s)%nat.
Proof.
  induction s as [|c s IH]; [done|]. simpl. destruct (whitespace c); simpl; lia.
Qed.

Lemma strip_shorter (s : list ascii) : (length (strip s) <= length s)%nat.
Proof.
  unfold strip. rewrite length_rev.
  etrans; [apply lstrip_shorter|]. rewrite length_rev. apply lstrip_shorter.
Qed.

(** The parser raises on a run of digits over the limit only, which is
    part of the text. *)
Lemma parse_raises (text : string) (message : exn) :
  parse text = Raise message ->
  exists n, int_max_str_digits < n <= len (lit text) /\ message = int_limit_message n.
Proof.
  assert (forall r m,
            re_match r (strip (lit text)) = Some m ->
            Some <$> with_branch_and_pr m = Raise message ->
            exists n, int_max_str_digits < n <= len (lit text)
                      /\ message = int_limit_message n) as Hconverted.
  { intros r m Hm. destruct (with_branch_and_pr m) as [info|message'] eqn:Hinfo; [done|].
    intros [= ->]. apply with_branch_and_pr_raises in Hinfo as (n & Hn & Hlong & ->).
    exists (len n). split; [|done]. split; [done|].
    pose proof (re_match_groups_short _ _ _ Hm _ _ Hn).
    pose proof (strip_shorter (lit text)). unfold len. lia. }
  unfold parse.
  destruct (re_match HTTPS_PATTERN _) as [m|] eqn:Hm1; [exact (Hconverted _ m Hm1)|].
  destruct (re_match BARE_PATTERN _) as [m|] eqn:Hm2; [exact (Hconverted _ m Hm2)|].
  destruct (re_match SSH_PATTERN _) as [m|] eqn:Hm3; [done|].
  by destruct (re_match SHORT_PATTERN _).
Qed.

End GroupFacts.


Module ParseFacts.
Import GitHubURL ReferenceShapes GitHubURLFacts TrailerFacts GroupFacts.

Lemma lit_str (l : list ascii) : lit (str l) = l.
Proof. apply String.list_ascii_of_string_of_list_ascii. Qed.

Lemma lstrip_clean (c : ascii) (s : list ascii) :
  whitespace c = false -> lstrip (c :: s) = c :: s.
Proof. intros Hc. simpl. by rewrite Hc. Qed.

Lemma strip_clean (s : list ascii) : clean s = true -> strip s = s.
Proof.
  unfold clean, strip. intros [Hfirst Hlast]%andb_true_iff.
  destruct s as [|c s]; [done|].
  rewrite lstrip_clean by by apply negb_true_iff.
  destruct (rev (c :: s)) as [|c' s'] eqn:Hrev.
  - by apply (f_equal (@length ascii)) in Hrev; rewrite length_rev in Hrev.
  - rewrite lstrip_clean by by apply negb_true_iff.
    by rewrite <- Hrev, rev_involutive.
Qed.

Lemma repo_char_not_whitespace (c : ascii) : repo_char c = true -> whitespace c = false.
Proof. destruct c as [[] [] [] [] [] [] [] []]; by vm_compute. Qed.

Lemma owner_char_not_whitespace (c : ascii) : owner_char c = true -> whitespace c = false.
Proof. destruct c as [[] [] [] [] [] [] [] []]; by vm_compute. Qed.

Lemma digit_not_whitespace (c : ascii) : digit c = true -> whitespace c = false.
Proof. destruct c as [[] [] [] [] [] [] [] []]; by vm_compute. Qed.

Lemma digit_repo_char (n : list ascii) : forallb digit n = true -> forallb repo_char n = true.
Proof.
  induction n as [|c n IH]; [done|]. simpl. intros [Hc Hn]%andb_true_iff.
  rewrite (IH Hn), andb_true_r. revert Hc.
  destruct c as [[] [] [] [] [] [] [] []]; by vm_compute.
Qed.

Lemma repo_char_visible (x : list ascii) :
  forallb repo_char x = true -> forallb visible x = true.
Proof.
  induction x as [|c x IH]; [done|]. simpl. intros [Hc Hx]%andb_true_iff.
  unfold visible at 1. by rewrite (repo_char_not_whitespace c Hc), (IH Hx).
Qed.

(** A subject that starts with [c] and ends with the word [x] is clean. *)
Lemma clean_between (c : ascii) (y x : list ascii) :
  whitespace c = false ->
  nonempty x = true ->
  forallb visible x = true ->
  clean (c :: y ++ x) = true.
Proof.
  intros Hc Hne Hx. unfold clean. rewrite Hc. simpl.
  change (rev (y ++ x) ++ [c]) with (rev (c :: y ++ x)).
  rewrite app_comm_cons, rev_app_distr.
  destruct x as [|a x]; [done|].
  destruct (rev (a :: x)) as [|c' x'] eqn:Hrev.
  - by apply (f_equal (@length ascii)) in Hrev; rewrite length_rev in Hrev.
  - simpl. assert (In c' (a :: x)) as Hin.
    { apply in_rev. rewrite Hrev. by left. }
    rewrite forallb_forall in Hx. by apply Hx.
Qed.

Lemma subject_clean (c : ascii) (p o r : list ascii) (t : Trailer) :
  whitespace c = false ->
  branch_name r = true ->
  trailer_ok t = true ->
  clean (c :: p ++ o ++ lit "/" ++ r ++ trailer_text t) = true.
Proof.
  intros Hc [Hr1 Hr2]%andb_true_iff Ht.
  destruct t as [| | |b|b|n]; unfold trailer_text, trailer_ok in *.
  - rewrite app_nil_r, !app_assoc. apply clean_between; [done..|by apply repo_char_visible].
  - rewrite !app_assoc. by apply clean_between.
  - rewrite !app_assoc. by apply clean_between.
  - apply andb_true_iff in Ht as [Hb1 Hb2].
    rewrite !app_assoc. apply clean_between; [done..|by apply repo_char_visible].
  - apply andb_true_iff in Ht as [Hb1 Hb2].
    rewrite !app_assoc. apply clean_between; [done..|by apply repo_char_visible].
  - apply andb_true_iff in Ht as [Hn1 Hn2].
    rewrite !app_assoc.
    apply clean_between; [done..|by apply repo_char_visible, digit_repo_char].
Qed.

Lemma reference_of_groups (o r : list ascii) (t : Trailer) :
  trailer_ok t = true ->
  convertible t = true ->
  with_branch_and_pr (trailer_groups t (<["repo" := r]> (<["owner" := o]> ∅)))
  = Ok (reference o r t).
Proof.
  intros Ht Hfits. unfold with_branch_and_pr, reference, group.
  destruct t as [| | |b|b|n]; simpl trailer_groups; simplify_map_eq; try done.
  destruct n as [|c d]; [done|].
  rewrite int_within_limit by (by apply Z.leb_le). done.
Qed.

Lemma reference_over_limit (o r : list ascii) (t : Trailer) :
  trailer_ok t = true ->
  convertible t = false ->
  with_branch_and_pr (trailer_groups t (<["repo" := r]> (<["owner" := o]> ∅)))
  = Raise (int_limit_message (pr_length t)).
Proof.
  intros Ht Hover. unfold with_branch_and_pr.
  destruct t as [| | |b|b|n]; try done. simpl trailer_groups. simplify_map_eq.
  destruct n as [|c d]; [done|].
  rewrite int_over_limit by (by apply Z.leb_gt). done.
Qed.

Lemma reference_of_owner_and_repo (o r : list ascii) :
  owner_and_repo (<["repo" := r]> (<["owner" := o]> ∅)) = reference o r NoTrailer.
Proof. unfold owner_and_repo, reference, group. by simplify_map_eq. Qed.

Lemma repo_name_branch_name (r : list ascii) : repo_name r = true -> branch_name r = true.
Proof. unfold repo_name, branch_name. by intros [? _]%andb_true_iff. Qed.




(** Strings of no accepted shape are reported invalid; so is the
    [/pulls] page of a repository. *)
Lemma parse_rejects_other_shapes :
  parse "" = Ok None
  /\ parse "https://github.com/owner" = Ok None
  /\ parse "https://gitlab.com/owner/repo" = Ok None
  /\ parse "https://github.com/owner/repo/tree/feature/x" = Ok None
  /\ parse "https://github.com/owner/repo/pulls" = Ok None.
Proof. repeat split; vm_compute; reflexivity. Qed.

End ParseFacts.

Section AnalysisClaims.
Context {W Rule Time : Type} (E : Env W Rule Time).

Local Abbreviation M := (M W Rule).
Local Abbreviation St := (St W Rule).

Lemma rate_limit_note_iff_no_token repo_info github_token :
  (slash_count (full_name repo_info) <= 1)%nat ->
  mentions_rate_limit (failure_message repo_info github_token RepositoryUnavailable)
  <-> str_truthy github_token = false.
Proof.
  intros Hslashes. unfold failure_message, mentions_rate_limit.
  destruct (str_truthy github_token); split; try done.
  - intros (before & after & Hmsg).
    apply (f_equal slash_count) in Hmsg.
    rewrite !slash_count_app in Hmsg.
    change (slash_count rate_limit_note) with 2%nat in Hmsg.
    change (slash_count "Repository not found or access denied: ") with 0%nat in Hmsg.
    lia.
  - intros _. exists ("Repository not found or access denied: " +:+ full_name repo_info), "".
    by rewrite append_empty_r, append_assoc.
Qed.

(** What [dispatch] returns without success is a missing PR or an empty
    candidate list. *)
Lemma dispatch_unsuccessful repo_info requested_pr rules github_token max_prs start_time
    batch_mode (s2 : St) r s3 :
  dispatch E repo_info requested_pr rules github_token max_prs start_time batch_mode s2
  = (Ok r, s3) ->
  success r = false ->
  (exists number payload,
     target_pr repo_info requested_pr = Some number
     /\ number <> 0
     /\ _fetch_pr_data E (full_name repo_info) number github_token s2 = (Ok payload, s3)
     /\ truthy payload = false
     /\ r = failure_result E repo_info github_token start_time s3 (TargetPRNotFound number)
              (len rules))
  \/ (int_truthy (target_pr repo_info requested_pr) = false
      /\ candidate_prs E repo_info github_token max_prs s2 = (Ok [], s3)
      /\ r = failure_result E repo_info github_token start_time s3 NoOpenPRs (len rules)).
Proof.
  unfold dispatch. intros Hrun Hfailed.
  destruct (int_truthy (target_pr repo_info requested_pr)) eqn:Htarget.
  - left. destruct (target_pr repo_info requested_pr) as [number|]; [|done].
    simpl in Htarget. apply negb_true_iff, Z.eqb_neq in Htarget.
    change (default 0 (Some number)) with number in Hrun.
    destruct (fetch_pr_data_never_raises E (full_name repo_info) number github_token s2)
      as (payload & s1 & Hfetch).
    destruct (truthy payload) eqn:Htruthy.
    + exfalso.
      destruct (_build_event_data E (full_name repo_info) payload github_token s1)
        as [[ev|message] s2'] eqn:Hbuild.
      * destruct (evaluate_rules_never_raises E rules ev s2') as (found & s3' & Heval).
        destruct (analyze_single_pr_evaluated E repo_info number rules (len rules)
                    github_token start_time s2 payload s1 ev s2' found s3'
                    Hfetch Htruthy Hbuild Heval) as (pr & _ & Hsingle).
        rewrite Hsingle in Hrun. injection Hrun as <- _. done.
      * unfold _analyze_single_pr in Hrun.
        rewrite bind_run, Hfetch, Htruthy in Hrun. cbn [negb] in Hrun.
        cbv beta iota in Hrun. rewrite bind_run, Hbuild in Hrun. done.
    + rewrite (analyze_single_pr_not_found E _ _ _ _ _ _ _ _ _ Hfetch Htruthy) in Hrun.
      injection Hrun as <- <-. by exists number, payload.
  - right. split; [done|].
    destruct (candidate_prs_run E repo_info github_token max_prs s2) as (prs & w' & Hprs).
    destruct (analyze_latest_prs_run E repo_info rules (len rules) github_token max_prs
                start_time batch_mode s2 prs _ Hprs) as [Hnone Hsome].
    destruct prs as [|pr rest].
    + rewrite Hnone in Hrun by done. injection Hrun as <- <-. by rewrite Hprs.
    + destruct Hsome as (found & summaries & s2' & _ & Hlatest); [done|].
      rewrite Hlatest in Hrun. injection Hrun as <- _. done.
Qed.

Lemma analyze_unsuccessful repo_info requested_pr rules_yaml github_token max_prs batch_mode
    (s : St) r s' :
  analyze E repo_info requested_pr rules_yaml github_token max_prs batch_mode s = (Ok r, s') ->
  success r = false ->
  exists f loaded,
    fails E repo_info requested_pr rules_yaml github_token max_prs batch_mode s f
    /\ r = failure_result E repo_info github_token (time_time E (world s)) s' f loaded.
Proof.
  rewrite analyze_stages. cbv zeta. intros Hrun Hfailed.
  destruct (lookup_repository E repo_info github_token s) as [[repo_data|message] s1]
    eqn:Hlookup.
  2: { injection Hrun as <- <-. eexists _, _. split; [by eapply fails_lookup_raises | done]. }
  destruct (truthy repo_data) eqn:Htruthy.
  2: { injection Hrun as <- <-. eexists _, _. split; [by eapply fails_repository | done]. }
  destruct (_load_rules E (full_name repo_info) rules_yaml github_token s1)
    as [[[|rule rules]|message] s2] eqn:Hrules.
  - injection Hrun as <- <-. eexists _, _. split; [by eapply fails_no_rules | done].
  - assert (Hresolved : resolved E repo_info rules_yaml github_token s (rule :: rules) s2).
    { by exists repo_data, s1. }
    destruct (dispatch E repo_info requested_pr (rule :: rules) github_token max_prs
                (time_time E (world s)) batch_mode s2) as [[r'|message] s3] eqn:Hdispatch.
    + injection Hrun as <- <-.
      destruct (dispatch_unsuccessful _ _ _ _ _ _ _ _ _ _ Hdispatch Hfailed)
        as [(number & payload & Htarget & Hnumber & Hfetch & Hfalsy & ->)
           |(Htarget & Hprs & ->)].
      * eexists _, _. split; [by eapply fails_target_pr | done].
      * eexists _, _. split; [by eapply fails_no_open_prs | done].
    + injection Hrun as <- <-. eexists _, _.
      split; [by eapply fails_dispatch_raises | done].
  - injection Hrun as <- <-. eexists _, _. split; [by eapply fails_rules_raise | done].
Qed.

(** C1. A batch analysis always returns a result; its violations, once
    dumped as they are in the response, are the concatenation of the
    violations lists of its per-PR summaries, which come in the order the
    PRs were fetched in, hence the violation counts of the summaries add
    up to the number of violations. A summary that records an error has
    an empty list and count 0. When the candidate list is not empty the
    result is that of processing the PRs one after the other, in fetch
    order. The same holds of whatever an analysis without a target PR
    returns. *)
Theorem batch_violations_are_concatenated repo_info rules rules_loaded github_token
    max_prs start_time batch_mode (s : St) :
  (exists r s',
     _analyze_latest_prs E repo_info rules rules_loaded github_token max_prs start_time
       batch_mode s = (Ok r, s')
     /\ model_dump E <$> violations r = concat (summary_violations <$> prs_analyzed r)
     /\ total_count (prs_analyzed r) = len (violations r)
     /\ Forall failed_is_empty (prs_analyzed r)
     /\ (forall prs s1,
           candidate_prs E repo_info github_token max_prs s = (Ok prs, s1) ->
           prs <> [] ->
           batch_run E repo_info rules github_token s1 prs (violations r) (prs_analyzed r) s'
           /\ ps_number <$> prs_analyzed r
              = (fun pr => default PNone (pr !! "number")) <$> prs))
  /\ (forall requested_pr rules_yaml r s',
        int_truthy (target_pr repo_info requested_pr) = false ->
        analyze E repo_info requested_pr rules_yaml github_token max_prs batch_mode s
        = (Ok r, s') ->
        model_dump E <$> violations r = concat (summary_violations <$> prs_analyzed r)
        /\ total_count (prs_analyzed r) = len (violations r)
        /\ Forall failed_is_empty (prs_analyzed r)).
Proof.
  split; [apply analyze_latest_prs_totals|].
  intros requested_pr rules_yaml r s' Htarget. rewrite analyze_stages. cbv zeta.
  destruct (lookup_repository E repo_info github_token s) as [[repo_data|message] s1];
    [|by intros [= <- _]].
  destruct (truthy repo_data); [|by intros [= <- _]].
  destruct (_load_rules E (full_name repo_info) rules_yaml github_token s1)
    as [[[|rule resolved_rules]|message] s2]; try by intros [= <- _].
  unfold dispatch. rewrite Htarget.
  destruct (analyze_latest_prs_totals E repo_info (rule :: resolved_rules)
              (len (rule :: resolved_rules)) github_token max_prs
              (time_time E (world s)) batch_mode s2)
    as (r0 & s0 & Hrun & Hall & Hcount & Hfailed & _).
  rewrite Hrun. by intros [= <- _].
Qed.

(** C5. An analysis call never raises. Each fatal failure (the repository
    lookup raises or finds nothing, rule resolution raises or yields no
    rule, the target PR is not found, no PR is open, processing raises) is
    reported as a result with [success = false], no violation and the
    message of the failure; conversely a result without success has no
    violation and reports one of these failures. For a repository that is
    not found, the message carries the note on rate limits exactly when no
    token (or an empty one) was supplied, the owner and the name of the
    repository being free of slashes, as they are in every reference
    that comes out of the parser. *)
Theorem fatal_failures_are_reported repo_info requested_pr rules_yaml github_token
    max_prs batch_mode :
  never_raises (analyze E repo_info requested_pr rules_yaml github_token max_prs batch_mode)
  /\ (forall (s : St) f,
        fails E repo_info requested_pr rules_yaml github_token max_prs batch_mode s f ->
        exists r s',
          analyze E repo_info requested_pr rules_yaml github_token max_prs batch_mode s
          = (Ok r, s')
          /\ success r = false
          /\ violations r = []
          /\ error r = Some (failure_message repo_info github_token f))
  /\ (forall (s : St) r s',
        analyze E repo_info requested_pr rules_yaml github_token max_prs batch_mode s
        = (Ok r, s') ->
        success r = false ->
        violations r = []
        /\ exists f,
             fails E repo_info requested_pr rules_yaml github_token max_prs batch_mode s f
             /\ error r = Some (failure_message repo_info github_token f))
  /\ ((slash_count (full_name repo_info) <= 1)%nat ->
      mentions_rate_limit (failure_message repo_info github_token RepositoryUnavailable)
      <-> str_truthy github_token = false)
  /\ (forall text,
        GitHubURL.parse text = Ok (Some repo_info) ->
        mentions_rate_limit (failure_message repo_info github_token RepositoryUnavailable)
        <-> str_truthy github_token = false).
Proof.
  split; [apply analyze_never_raises|]. split; [|split; [|split]].
  - intros s f Hfails. destruct (analyze_fails E _ _ _ _ _ _ _ _ Hfails)
      as (s' & loaded & Hrun & _).
    eexists _, _. by split; [exact Hrun|].
  - intros s r s' Hrun Hfailed.
    destruct (analyze_unsuccessful _ _ _ _ _ _ _ _ _ Hrun Hfailed)
      as (f & loaded & Hfails & ->).
    split; [done|]. by exists f.
  - apply rate_limit_note_iff_no_token.
  - intros text Hparse. apply rate_limit_note_iff_no_token.
    destruct (GroupFacts.parse_full_name_slashes text repo_info Hparse) as (_ & _ & ->).
    done.
Qed.

(** C7, amended. Once the repository is found and the rules resolve to a
    non-empty set, every result returned by the single-PR path or the
    batch path (the PR-not-found and no-open-PR results included) reports
    the size of that set, and every call to the evaluator made on the way
    gets that very set: nothing is resolved again. A result produced by
    the catch-all handler reports 0 even though rules were resolved, and
    so does every result of an analysis in which the rules did not resolve
    to a non-empty set. *)
Theorem rules_loaded_is_fixed_at_resolution repo_info requested_pr rules_yaml github_token
    max_prs batch_mode (s : St) :
  (forall rules s2,
     resolved E repo_info rules_yaml github_token s rules s2 ->
     (forall r s3,
        dispatch E repo_info requested_pr rules github_token max_prs
          (time_time E (world s)) batch_mode s2 = (Ok r, s3) ->
        analyze E repo_info requested_pr rules_yaml github_token max_prs batch_mode s
        = (Ok r, s3)
        /\ rules_loaded r = len rules
        /\ exists l, calls s3 = calls s2 ++ l /\ Forall (dispatch_call rules) l)
     /\ (forall message s3,
           dispatch E repo_info requested_pr rules github_token max_prs
             (time_time E (world s)) batch_mode s2 = (Raise message, s3) ->
           exists r,
             analyze E repo_info requested_pr rules_yaml github_token max_prs batch_mode s
             = (Ok r, s3)
             /\ rules_loaded r = 0))
  /\ (forall r s',
        analyze E repo_info requested_pr rules_yaml github_token max_prs batch_mode s
        = (Ok r, s') ->
        (forall rules s2, ~ resolved E repo_info rules_yaml github_token s rules s2) ->
        rules_loaded r = 0).
Proof.
  split.
  - intros rules s2 (repo_data & s1 & Hlookup & Htruthy & Hrules & Hne).
    destruct rules as [|rule rules]; [done|].
    split.
    + intros r s3 Hdispatch. rewrite analyze_stages. cbv zeta.
      rewrite Hlookup, Htruthy, Hrules, Hdispatch. split; [done|].
      split; [|by eapply dispatch_performs].
      revert Hdispatch. unfold dispatch.
      destruct (int_truthy (target_pr repo_info requested_pr)).
      * intros Hsingle.
        destruct (fetch_pr_data_never_raises E (full_name repo_info)
                    (default 0 (target_pr repo_info requested_pr)) github_token s2)
          as (payload & s1' & Hfetch).
        destruct (truthy payload) eqn:Hpayload.
        -- destruct (_build_event_data E (full_name repo_info) payload github_token s1')
             as [[ev|message] s2'] eqn:Hbuild.
           ++ destruct (evaluate_rules_never_raises E (rule :: rules) ev s2')
                as (found & s3' & Heval).
              destruct (analyze_single_pr_evaluated E repo_info _ (rule :: rules)
                          (len (rule :: rules)) github_token (time_time E (world s))
                          s2 payload s1' ev s2' found s3' Hfetch Hpayload Hbuild Heval)
                as (pr & _ & Hrun).
              rewrite Hrun in Hsingle. by injection Hsingle as <- _.
           ++ unfold _analyze_single_pr in Hsingle.
              rewrite bind_run, Hfetch, Hpayload in Hsingle. cbn [negb] in Hsingle.
              cbv beta iota in Hsingle. rewrite bind_run, Hbuild in Hsingle. done.
        -- rewrite (analyze_single_pr_not_found E _ _ _ _ _ _ _ _ _ Hfetch Hpayload)
             in Hsingle.
           by injection Hsingle as <- _.
      * intros Hlatest.
        destruct (candidate_prs_run E repo_info github_token max_prs s2)
          as (prs & w' & Hprs).
        destruct (analyze_latest_prs_run E repo_info (rule :: rules) (len (rule :: rules))
                    github_token max_prs (time_time E (world s)) batch_mode s2 prs _ Hprs)
          as [Hnone Hsome].
        destruct prs as [|pr rest].
        -- rewrite Hnone in Hlatest by done. by injection Hlatest as <- _.
        -- destruct Hsome as (found & summaries & s2' & _ & Hrun); [done|].
           rewrite Hrun in Hlatest. by injection Hlatest as <- _.
    + intros message s3 Hdispatch. rewrite analyze_stages. cbv zeta.
      rewrite Hlookup, Htruthy, Hrules, Hdispatch. by eexists.
  - intros r s'. rewrite analyze_stages. cbv zeta. intros Hrun Hunresolved.
    destruct (lookup_repository E repo_info github_token s) as [[repo_data|message] s1]
      eqn:Hlookup; [|by injection Hrun as <- _].
    destruct (truthy repo_data) eqn:Htruthy; [|by injection Hrun as <- _].
    destruct (_load_rules E (full_name repo_info) rules_yaml github_token s1)
      as [[[|rule rules]|message] s2] eqn:Hrules; try by injection Hrun as <- _.
    destruct (Hunresolved (rule :: rules) s2). by exists repo_data, s1.
Qed.

(** C10. The evaluation wrapper never raises, and it returns no violation
    when the evaluator raises. In single-PR mode the analysis of a PR
    whose context was built then returns [success = true], no error and no
    violation; in the batch loop the PR gets the summary of a processed PR
    with no violation and no error, not the summary of a failed one. *)
Theorem evaluator_failure_is_silent rules event_data (s : St) message w1 :
  execute E event_data rules (world s) = (Raise message, w1) ->
  never_raises (_evaluate_rules E rules event_data)
  /\ (exists s', _evaluate_rules E rules event_data s = (Ok [], s'))
  /\ (forall repo_info number rules_loaded github_token start_time s0 payload s1,
        _fetch_pr_data E (full_name repo_info) number github_token s0 = (Ok payload, s1) ->
        truthy payload = true ->
        _build_event_data E (full_name repo_info) payload github_token s1
        = (Ok event_data, s) ->
        exists r s',
          _analyze_single_pr E repo_info number rules rules_loaded github_token start_time s0
          = (Ok r, s')
          /\ success r = true
          /\ error r = None
          /\ violations r = []
          /\ Forall (fun p => ps_error p = None /\ ps_violations_count p = 0)
               (prs_analyzed r))
  /\ (forall repo_info github_token pr rest all_violations prs_analyzed s0,
        _build_event_data E (full_name repo_info) (PDict pr) github_token s0
        = (Ok event_data, s) ->
        exists s',
          process_pr E repo_info rules github_token pr s0 = (Ok [], s')
          /\ analyze_prs_loop E repo_info rules github_token (pr :: rest) all_violations
               prs_analyzed s0
             = analyze_prs_loop E repo_info rules github_token rest all_violations
                 (prs_analyzed ++ [processed_summary E pr []]) s'
          /\ ps_error (processed_summary E pr []) = None
          /\ ps_violations_count (processed_summary E pr []) = 0).
Proof.
  intros Hexecute.
  destruct (evaluate_rules_engine_failure E rules event_data s message w1 Hexecute)
    as (s' & Heval).
  split; [apply evaluate_rules_never_raises|]. split; [by exists s'|]. split.
  - intros repo_info number rules_loaded github_token start_time s0 payload s1
      Hfetch Htruthy Hbuild.
    destruct (analyze_single_pr_evaluated E repo_info number rules rules_loaded
                github_token start_time s0 payload s1 event_data s [] s'
                Hfetch Htruthy Hbuild Heval) as (pr & _ & Hrun).
    eexists _, _. split; [exact Hrun|]. simpl.
    split; [done|]. split; [done|]. split; [done|]. by repeat constructor.
  - intros repo_info github_token pr rest all_violations prs_analyzed s0 Hbuild.
    assert (Hpr : process_pr E repo_info rules github_token pr s0 = (Ok [], s')).
    { unfold process_pr. by rewrite bind_run, Hbuild. }
    exists s'. split; [done|].
    rewrite analyze_prs_loop_step, Hpr, app_nil_r. done.
Qed.

End AnalysisClaims.

(** ** The properties at work on the concrete world *)

Lemma batch_violations_are_concatenated_witness :
  exists r s',
    _analyze_latest_prs Demo.env Demo.octo_demo ["a"; "b"]%string 2 None 5 0 false
      (Demo.start Demo.hub) = (Ok r, s')
    /\ model_dump Demo.env <$> violations r = concat (summary_violations <$> prs_analyzed r)
    /\ total_count (prs_analyzed r) = len (violations r).
Proof.
  destruct (batch_violations_are_concatenated Demo.env Demo.octo_demo ["a"; "b"]%string 2
              None 5 0 false (Demo.start Demo.hub))
    as ((r & s' & Hrun & Hall & Hcount & _) & _).
  exists r, s'. split; [exact Hrun|]. split; [exact Hall | exact Hcount].
Defined.

Lemma batch_survives_failing_prs_witness :
  exists r s',
    _analyze_latest_prs Demo.env Demo.octo_demo ["a"; "b"]%string 2 None 5 0 false
      (Demo.start Demo.hub) = (Ok r, s')
    /\ success r = true
    /\ length (prs_analyzed r) = 3%nat.
Proof.
  destruct (batch_survives_failing_prs Demo.env Demo.octo_demo ["a"; "b"]%string 2
              None 5 0 false (Demo.start Demo.hub) Demo.three_prs
              (candidate_prs Demo.env Demo.octo_demo None 5 (Demo.start Demo.hub)).2)
    as (r & s' & Hrun & Hsuccess & _ & Hlength & _).
  - reflexivity.
  - discriminate.
  - exists r, s'. split; [exact Hrun|]. split; [exact Hsuccess | exact Hlength].
Defined.

Lemma max_prs_selects_fetch_strategy_witness :
  1 <= 50 <= 200
  /\ exists rest,
       calls (_analyze_latest_prs Demo.env Demo.octo_demo ["a"]%string 1 None 50 0 false
                (Demo.start Demo.hub)).2
       = CFetchAllPullRequests "octo/demo" None 50 :: rest.
Proof.
  destruct (max_prs_selects_fetch_strategy Demo.env (Some 50) 50) as (Hrange & _ & Hcalls).
  - reflexivity.
  - split; [exact Hrange|].
    destruct (Hcalls Demo.octo_demo ["a"%string] 1 None 0 false (Demo.start Demo.hub))
      as (rest & Hrest & _).
    exists rest. exact Hrest.
Defined.

Lemma fatal_failures_are_reported_witness :
  exists r s',
    analyze Demo.env Demo.octo_demo (Some 1) (Some "- a"%string) None 5 false
      (Demo.start Demo.hub) = (Ok r, s')
    /\ success r = false
    /\ violations r = []
    /\ error r
       = Some "No rules found. Please provide rules or ensure .watchflow/rules.yaml exists."%string.
Proof.
  destruct (fatal_failures_are_reported Demo.env Demo.octo_demo (Some 1) (Some "- a"%string)
              None 5 false) as (_ & Hfails & _).
  apply (Hfails (Demo.start Demo.hub) NoRulesResolved).
  apply fails_no_rules
    with (repo_data := PDict {["full_name" := PStr "octo/demo"]})
         (s1 := Demo.found_repository) (s2 := Demo.found_repository).
  - reflexivity.
  - reflexivity.
  - reflexivity.
Defined.

(** C7 as stated fails: two rules are resolved, the payload of PR #7 makes
    the building of its context raise, and the result reports 0 rules. *)
Lemma rules_loaded_counterexample :
  resolved Demo.env Demo.octo_demo (Some Demo.two_rules_and_a_stray) None
    (Demo.start Demo.hub) ["a"; "b"]%string Demo.found_repository
  /\ rules_loaded
       <$> (analyze Demo.env Demo.octo_demo (Some 7) (Some Demo.two_rules_and_a_stray) None
              5 false (Demo.start Demo.hub)).1
     = Ok 0
  /\ 0 <> len ["a"; "b"]%string.
Proof.
  split; [|split].
  - exists (PDict {["full_name" := PStr "octo/demo"]}), Demo.found_repository.
    split; [|split; [|split]]; [vm_compute; reflexivity..|discriminate].
  - vm_compute. reflexivity.
  - discriminate.
Qed.

Lemma rules_loaded_is_fixed_at_resolution_witness :
  exists r s',
    analyze Demo.env Demo.octo_demo (Some 1) (Some Demo.two_rules_and_a_stray) None 5 false
      (Demo.start Demo.hub) = (Ok r, s')
    /\ rules_loaded r = 2.
Proof.
  destruct (rules_loaded_is_fixed_at_resolution Demo.env Demo.octo_demo (Some 1)
              (Some Demo.two_rules_and_a_stray) None 5 false (Demo.start Demo.hub))
    as (Hresolved & _).
  destruct (Hresolved ["a"; "b"]%string Demo.found_repository) as (Hreturned & _).
  - exists (PDict {["full_name" := PStr "octo/demo"]}), Demo.found_repository.
    split; [|split; [|split]]; [vm_compute; reflexivity..|discriminate].
  - destruct (Hreturned (value_or Demo.no_result Demo.dispatched.1) Demo.dispatched.2)
      as (Hrun & Hloaded & _).
    + vm_compute. reflexivity.
    + eexists _, _. split; [exact Hrun | exact Hloaded].
Defined.

Lemma build_event_data_tolerates_failed_fetches_witness :
  exists ev s',
    _build_event_data Demo.env "octo/demo" (PDict (Demo.pr 1 "Add parser" Demo.octocat)) None
      (Demo.start Demo.hub) = (Ok ev, s')
    /\ is_Some (ev !! "changed_files").
Proof.
  destruct (build_event_data_tolerates_failed_fetches Demo.env "octo/demo"
              (Demo.pr 1 "Add parser" Demo.octocat) None (Demo.start Demo.hub))
    as (_ & _ & Hbuild & _).
  destruct (Hbuild (PInt 1)) as (reviews & s1 & files & s2 & found & probes & s3
                                 & Hreviews & _ & Hfiles & _ & _ & _ & _ & Hcontext).
  - reflexivity.
  - reflexivity.
  - reflexivity.
  - assert (s1 = (_fetch_pr_reviews Demo.env "octo/demo" (PInt 1) None
                    (Demo.start Demo.hub)).2) as -> by (by rewrite Hreviews).
    assert (files = value_or PNone
                      (_fetch_pr_files Demo.env "octo/demo" (PInt 1) None
                         (_fetch_pr_reviews Demo.env "octo/demo" (PInt 1) None
                            (Demo.start Demo.hub)).2).1) as -> by (by rewrite Hfiles).
    destruct Hcontext as (ev & Hrun & _ & _ & _ & Hchanged & _).
    + vm_compute. reflexivity.
    + exists ev, s3. split; [exact Hrun|]. rewrite Hchanged. by eexists.
Defined.

Lemma evaluator_failure_is_silent_witness :
  exists s', _evaluate_rules Demo.env ["c"%string] Demo.built_context Demo.built.2
             = (Ok [], s').
Proof.
  destruct (evaluator_failure_is_silent Demo.env ["c"%string] Demo.built_context
              Demo.built.2 "engine unavailable" (Demo.tick (world Demo.built.2)))
    as (_ & Heval & _).
  - vm_compute. reflexivity.
  - exact Heval.
Defined.
(** ** What every result of an analysis looks like *)

Section ResultFacts.
Context {W Rule Time : Type} (E : Env W Rule Time).

Local Abbreviation M := (M W Rule).
Local Abbreviation St := (St W Rule).

Lemma failure_result_coherent info github_token start_time (s : St) f loaded :
  coherent info (failure_result E info github_token start_time s f loaded).
Proof.
  split; [done|]. split; [by split|]. split; [done|]. by split.
Qed.

(** What [_analyze_single_pr] returns: the PR was not found, or it was
    evaluated. *)
Lemma analyze_single_pr_returns info number rules loaded github_token start_time
    (s : St) r s' :
  _analyze_single_pr E info number rules loaded github_token start_time s = (Ok r, s') ->
  (exists payload,
     _fetch_pr_data E (full_name info) number github_token s = (Ok payload, s')
     /\ truthy payload = false
     /\ r = failure_result E info github_token start_time s' (TargetPRNotFound number) loaded)
  \/ (exists payload s1 pr ev s2 found,
        _fetch_pr_data E (full_name info) number github_token s = (Ok payload, s1)
        /\ truthy payload = true
        /\ payload = PDict pr
        /\ _build_event_data E (full_name info) payload github_token s1 = (Ok ev, s2)
        /\ _evaluate_rules E rules ev s2 = (Ok found, s')
        /\ r = {| success := true;
                  violations := found;
                  rules_loaded := loaded;
                  processing_time_ms := elapsed_ms E start_time (time_time E (world s'));
                  error := None;
                  repo_info := Some info;
                  pr_data := Some payload;
                  prs_analyzed := [ {| ps_number := default PNone (pr !! "number");
                                       ps_title := default PNone (pr !! "title");
                                       ps_violations_count := len found;
                                       ps_violations := None;
                                       ps_error := None |} ] |}).
Proof.
  intros Hrun.
  destruct (fetch_pr_data_never_raises E (full_name info) number github_token s)
    as (payload & s1 & Hfetch).
  destruct (truthy payload) eqn:Htruthy.
  - right.
    destruct (_build_event_data E (full_name info) payload github_token s1)
      as [[ev|message] s2] eqn:Hbuild.
    + destruct (evaluate_rules_never_raises E rules ev s2) as (found & s3 & Heval).
      destruct (analyze_single_pr_evaluated E info number rules loaded github_token
                  start_time s payload s1 ev s2 found s3 Hfetch Htruthy Hbuild Heval)
        as (pr & Hpr & Hsingle).
      rewrite Hsingle in Hrun. injection Hrun as <- <-.
      by exists payload, s1, pr, ev, s2, found.
    + unfold _analyze_single_pr in Hrun.
      rewrite bind_run, Hfetch, Htruthy in Hrun. cbn [negb] in Hrun.
      cbv beta iota in Hrun. rewrite bind_run, Hbuild in Hrun. done.
  - left.
    rewrite (analyze_single_pr_not_found E _ _ _ _ _ _ _ _ _ Hfetch Htruthy) in Hrun.
    injection Hrun as <- <-. by exists payload.
Qed.

Lemma analyze_single_pr_coherent info number rules loaded github_token start_time
    (s : St) r s' :
  _analyze_single_pr E info number rules loaded github_token start_time s = (Ok r, s') ->
  coherent info r /\ rules_loaded r = loaded.
Proof.
  intros Hrun.
  destruct (analyze_single_pr_returns _ _ _ _ _ _ _ _ _ Hrun)
    as [(payload & _ & _ & ->)|(payload & s1 & pr & ev & s2 & found & _ & _ & _ & _ & _ & ->)].
  - split; [apply failure_result_coherent | done].
  - split; [|done]. split; [done|]. split; [by split|]. split; [done|].
    split; [by split; [|eexists]|]. simpl. lia.
Qed.

Lemma analyze_latest_prs_coherent info rules loaded github_token max_prs start_time
    batch_mode (s : St) r s' :
  _analyze_latest_prs E info rules loaded github_token max_prs start_time batch_mode s
  = (Ok r, s') ->
  coherent info r /\ rules_loaded r = loaded.
Proof.
  intros Hrun.
  destruct (candidate_prs_run E info github_token max_prs s) as (prs & w' & Hprs).
  destruct (analyze_latest_prs_run E info rules loaded github_token max_prs
              start_time batch_mode s prs _ Hprs) as [Hnone Hsome].
  destruct prs as [|pr rest].
  - rewrite Hnone in Hrun by done. injection Hrun as <- <-.
    split; [|done]. split; [done|]. split; [by split|]. split; [done|]. by split.
  - destruct Hsome as (found & summaries & s2 & Hbatch & Hlatest); [done|].
    rewrite Hlatest in Hrun. injection Hrun as <- <-.
    destruct (batch_run_totals E _ _ _ _ _ _ _ _ Hbatch) as (_ & Hcount & Hlength & _).
    split; [|done]. split; [done|]. split; [by split|]. split; [done|].
    split; [|done]. intros _. split; [|by eexists].
    simpl. intros ->. simpl in Hlength. done.
Qed.

(** X1. Whatever [analyze] returns names the repository that was asked
    about; it is successful exactly when it carries no error message; an
    unsuccessful result has no violation, no summary and no PR; a
    successful one has a PR, at least one summary and as many rules as
    were resolved, at least one; and on every path the violation counts
    of the summaries add up to the number of violations. *)
Theorem analyze_result_is_coherent info requested_pr rules_yaml github_token max_prs
    batch_mode (s : St) r s' :
  analyze E info requested_pr rules_yaml github_token max_prs batch_mode s = (Ok r, s') ->
  coherent info r
  /\ (success r = true ->
      0 < rules_loaded r
      /\ exists rules s2,
           resolved E info rules_yaml github_token s rules s2
           /\ rules_loaded r = len rules).
Proof.
  rewrite analyze_stages. cbv zeta. intros Hrun.
  destruct (lookup_repository E info github_token s) as [[repo_data|message] s1] eqn:Hlookup.
  2: { injection Hrun as <- <-. split; [apply failure_result_coherent | done]. }
  destruct (truthy repo_data) eqn:Htruthy.
  2: { injection Hrun as <- <-. split; [apply failure_result_coherent | done]. }
  destruct (_load_rules E (full_name info) rules_yaml github_token s1)
    as [[[|rule rules]|message] s2] eqn:Hrules.
  1, 3: injection Hrun as <- <-; split; [apply failure_result_coherent | done].
  destruct (dispatch E info requested_pr (rule :: rules) github_token max_prs
              (time_time E (world s)) batch_mode s2) as [[r'|message] s3] eqn:Hdispatch.
  2: { injection Hrun as <- <-. split; [apply failure_result_coherent | done]. }
  injection Hrun as <- <-.
  assert (coherent info r' /\ rules_loaded r' = len (rule :: rules)) as [Hcoherent Hloaded].
  { unfold dispatch in Hdispatch.
    destruct (int_truthy (target_pr info requested_pr)).
    - by eapply analyze_single_pr_coherent.
    - by eapply analyze_latest_prs_coherent. }
  split; [done|]. intros _. split.
  - rewrite Hloaded. unfold len. simpl. lia.
  - exists (rule :: rules), s2. split; [|done]. by exists repo_data, s1.
Qed.

End ResultFacts.
(** ** What the analysis asks of the outside world *)

Section CallFacts.
Context {W Rule Time : Type} (E : Env W Rule Time).

Local Abbreviation M := (M W Rule).
Local Abbreviation St := (St W Rule).

Ltac about := repeat (performs_step; try done); try (by simpl).

Lemma load_rules_about repo_full_name rules_yaml github_token :
  performs (call_about E repo_full_name github_token)
    (_load_rules E repo_full_name rules_yaml github_token).
Proof. unfold _load_rules. about. Qed.

Lemma fetch_pr_data_about repo_full_name number github_token :
  performs (call_about E repo_full_name github_token)
    (_fetch_pr_data E repo_full_name number github_token).
Proof. unfold _fetch_pr_data. about. Qed.

Lemma fetch_pr_reviews_about repo_full_name number github_token :
  performs (call_about E repo_full_name github_token)
    (_fetch_pr_reviews E repo_full_name number github_token).
Proof. unfold _fetch_pr_reviews. about. Qed.

Lemma fetch_pr_files_about repo_full_name number github_token :
  performs (call_about E repo_full_name github_token)
    (_fetch_pr_files E repo_full_name number github_token).
Proof. unfold _fetch_pr_files. about. Qed.

Lemma fetch_codeowners_about repo_full_name github_token paths :
  performs (call_about E repo_full_name github_token)
    (fetch_codeowners_loop E repo_full_name github_token paths).
Proof. induction paths as [|path rest IH]; simpl; about. Qed.

Lemma build_event_data_about repo_full_name pr_data github_token :
  performs (call_about E repo_full_name github_token)
    (_build_event_data E repo_full_name pr_data github_token).
Proof.
  unfold _build_event_data.
  apply performs_bind; [apply performs_lift|]. intros login. cbv zeta.
  apply performs_bind; [apply performs_lift|]. intros number.
  destruct (truthy number); [|apply performs_ret].
  apply performs_bind; [apply fetch_pr_reviews_about|]. intros reviews.
  apply performs_bind; [apply fetch_pr_files_about|]. intros files.
  apply performs_bind; [apply performs_lift|]. intros changed.
  apply performs_bind; [apply fetch_codeowners_about|]. intros found.
  destruct (str_truthy found); apply performs_ret.
Qed.

Lemma evaluate_rules_about repo_full_name github_token rules event_data :
  performs (call_about E repo_full_name github_token) (_evaluate_rules E rules event_data).
Proof. unfold _evaluate_rules. about. Qed.

Lemma analyze_prs_loop_about info rules github_token prs :
  forall all_violations prs_analyzed,
    performs (call_about E (full_name info) github_token)
      (analyze_prs_loop E info rules github_token prs all_violations prs_analyzed).
Proof.
  induction prs as [|pr rest IH]; intros all_violations prs_analyzed; simpl.
  - apply performs_ret.
  - apply performs_bind; [|intros acc; apply IH].
    apply performs_try; [|intros e; apply performs_ret].
    apply performs_bind; [apply build_event_data_about|]. intros ev.
    apply performs_bind; [apply evaluate_rules_about|]. intros found. apply performs_ret.
Qed.

(** X2. Every call the analysis makes to the repository client names the
    repository under analysis and carries the credential that was
    supplied (or none when none was), and every HTTP request goes to the
    configured API for that repository: the analysis never reaches for
    another repository and never uses another credential. *)
Theorem analyze_stays_on_repository info requested_pr rules_yaml github_token max_prs
    batch_mode :
  performs (call_about E (full_name info) github_token)
    (analyze E info requested_pr rules_yaml github_token max_prs batch_mode).
Proof.
  unfold analyze.
  apply performs_bind; [apply performs_now|]. intros start_time. cbv zeta.
  apply performs_try; [|intros e; about].
  apply performs_bind; [by apply performs_perform|]. intros repo_data.
  destruct (negb (truthy repo_data)); [about|].
  apply performs_bind; [apply load_rules_about|]. intros [|rule rules]; [about|].
  destruct (int_truthy _).
  - unfold _analyze_single_pr.
    apply performs_bind; [apply fetch_pr_data_about|]. intros payload.
    destruct (negb (truthy payload)); [about|].
    apply performs_bind; [apply build_event_data_about|]. intros ev.
    apply performs_bind; [apply evaluate_rules_about|]. intros found. about.
  - unfold _analyze_latest_prs.
    apply performs_bind.
    { destruct (20 <? max_prs); [unfold _fetch_all_prs_paginated | unfold _fetch_open_prs];
        about. }
    intros [|pr prs]; [about|].
    apply performs_bind; [apply analyze_prs_loop_about|]. intros acc. about.
Qed.

End CallFacts.
(** ** How many calls reach the hosting service *)

Section CostFacts.
Context {W Rule Time : Type} (E : Env W Rule Time).

Local Abbreviation M := (M W Rule).
Local Abbreviation St := (St W Rule).

Lemma service_calls_app (l1 l2 : list (Call Rule)) :
  service_calls (l1 ++ l2) = (service_calls l1 + service_calls l2)%nat.
Proof. unfold service_calls. by rewrite List.filter_app, length_app. Qed.

Lemma costs_ret {A} (a : A) : costs (Rule := Rule) (W := W) 0 (mret a : M A).
Proof. intros s r s' [= <- <-]. exists []. by rewrite app_nil_r. Qed.

Lemma costs_lift {A} (o : outcome A) : costs (Rule := Rule) (W := W) 0 (lift o).
Proof. intros s r s' [= <- <-]. exists []. by rewrite app_nil_r. Qed.

Lemma costs_now : costs (Rule := Rule) 0 (now E).
Proof. intros s r s' [= <- <-]. exists []. by rewrite app_nil_r. Qed.

Lemma costs_perform {A} (c : Call Rule) (f : W -> outcome A * W) :
  costs (if service_call c then 1 else 0) (perform c f).
Proof.
  intros s r s'. unfold perform. destruct (f (world s)) as [r1 w1].
  intros [= <- <-]. exists [c]. split; [done|].
  unfold service_calls. simpl. by destruct (service_call c).
Qed.

Lemma costs_weaken {A} (n n' : nat) (m : M A) : (n <= n')%nat -> costs n m -> costs n' m.
Proof.
  intros Hle Hm s r s' Hrun. destruct (Hm _ _ _ Hrun) as (l & -> & Hl).
  exists l. split; [done | lia].
Qed.

Lemma costs_bind {A B} (n1 n2 : nat) (m : M A) (f : A -> M B) :
  costs n1 m -> (forall a, costs n2 (f a)) -> costs (n1 + n2) (m ≫= f).
Proof.
  intros Hm Hf s r s'. rewrite bind_run.
  destruct (m s) as [[a|e] s1] eqn:Hms.
  - intros Hfa. destruct (Hm _ _ _ Hms) as (l1 & Hs1 & Hl1).
    destruct (Hf _ _ _ _ Hfa) as (l2 & Hs2 & Hl2).
    exists (l1 ++ l2). rewrite Hs2, Hs1, app_assoc, service_calls_app. split; [done | lia].
  - intros [= <- <-]. destruct (Hm _ _ _ Hms) as (l1 & Hs1 & Hl1).
    exists l1. split; [done | lia].
Qed.

Lemma costs_try {A} (n1 n2 : nat) (m : M A) (h : exn -> M A) :
  costs n1 m -> (forall e, costs n2 (h e)) -> costs (n1 + n2) (try_except m h).
Proof.
  intros Hm Hh s r s'. rewrite try_except_run.
  destruct (m s) as [[a|e] s1] eqn:Hms.
  - intros [= <- <-]. destruct (Hm _ _ _ Hms) as (l1 & Hs1 & Hl1).
    exists l1. split; [done | lia].
  - intros Hhe. destruct (Hm _ _ _ Hms) as (l1 & Hs1 & Hl1).
    destruct (Hh _ _ _ _ Hhe) as (l2 & Hs2 & Hl2).
    exists (l1 ++ l2). rewrite Hs2, Hs1, app_assoc, service_calls_app. split; [done | lia].
Qed.

(** A handler that only returns costs nothing. *)
Lemma costs_guarded {A} (n : nat) (m : M A) (dflt : A) :
  costs n m -> costs n (try_except m (fun _ => mret dflt)).
Proof.
  intros Hm. eapply costs_weaken; [|apply costs_try; [exact Hm | intros e; apply costs_ret]].
  lia.
Qed.

(** One HTTP exchange: the headers, the session, the request. *)
Lemma exchange_costs {A} github_token u
    (k : pyval -> Response -> M A) (early : M A) :
  costs 0 early ->
  (forall headers response, costs 0 (k headers response)) ->
  costs 1
    (headers ← perform (CGetAuthHeaders github_token) (get_auth_headers E github_token);
     if negb (truthy headers) then early
     else
       _ ← perform CGetSession (get_session E);
       response ← perform (CSessionGet u headers) (session_get E u headers);
       k headers response).
Proof.
  intros Hearly Hk.
  apply (costs_bind 0 1); [apply (costs_perform (CGetAuthHeaders github_token))|].
  intros headers. destruct (negb (truthy headers)).
  { eapply costs_weaken; [|exact Hearly]. lia. }
  apply (costs_bind 0 1); [apply (costs_perform CGetSession)|]. intros _.
  apply (costs_bind 1 0); [apply (costs_perform (CSessionGet u headers))|].
  intros response. apply Hk.
Qed.

Lemma fetch_pr_data_costs repo_full_name number github_token :
  costs 1 (_fetch_pr_data E repo_full_name number github_token).
Proof.
  unfold _fetch_pr_data. apply costs_guarded. cbv zeta.
  apply (exchange_costs github_token _ (fun _ response =>
           if status response =? 200 then lift (json response) else mret PNone)).
  - apply costs_ret.
  - intros _ response. destruct (status response =? 200); [apply costs_lift | apply costs_ret].
Qed.

Lemma fetch_pr_reviews_costs repo_full_name number github_token :
  costs 1 (_fetch_pr_reviews E repo_full_name number github_token).
Proof.
  unfold _fetch_pr_reviews. apply costs_guarded. cbv zeta.
  apply (exchange_costs github_token _ (fun _ response =>
           if status response =? 200 then lift (json response) else mret (PList []))).
  - apply costs_ret.
  - intros _ response. destruct (status response =? 200); [apply costs_lift | apply costs_ret].
Qed.

Lemma fetch_pr_files_costs repo_full_name number github_token :
  costs 1 (_fetch_pr_files E repo_full_name number github_token).
Proof.
  unfold _fetch_pr_files. apply costs_guarded. cbv zeta.
  apply (exchange_costs github_token _ (fun _ response =>
           if status response =? 200 then lift (json response) else mret (PList []))).
  - apply costs_ret.
  - intros _ response. destruct (status response =? 200); [apply costs_lift | apply costs_ret].
Qed.

Lemma fetch_codeowners_loop_costs repo_full_name github_token paths :
  costs (length paths) (fetch_codeowners_loop E repo_full_name github_token paths).
Proof.
  induction paths as [|path rest IH]; simpl; [apply costs_ret|].
  apply (costs_bind 1 (length rest)).
  - apply costs_guarded. apply (costs_bind 1 0).
    + apply (costs_perform (CGetFileContent repo_full_name path github_token)).
    + intros content. destruct (str_truthy content); apply costs_ret.
  - intros [content|]; [|exact IH].
    eapply costs_weaken; [|apply costs_ret]. lia.
Qed.

Lemma build_event_data_costs repo_full_name pr_data github_token :
  costs 5 (_build_event_data E repo_full_name pr_data github_token).
Proof.
  unfold _build_event_data.
  apply (costs_bind 0 5); [apply costs_lift|]. intros login. cbv zeta.
  apply (costs_bind 0 5); [apply costs_lift|]. intros number.
  destruct (truthy number); [|eapply costs_weaken; [|apply costs_ret]; lia].
  apply (costs_bind 1 4); [apply fetch_pr_reviews_costs|]. intros reviews.
  apply (costs_bind 1 3); [apply fetch_pr_files_costs|]. intros files.
  apply (costs_bind 0 3); [apply costs_lift|]. intros changed.
  apply (costs_bind 3 0); [apply (fetch_codeowners_loop_costs _ _ codeowners_paths)|].
  intros found. destruct (str_truthy found); apply costs_ret.
Qed.

Lemma evaluate_rules_costs rules event_data : costs 0 (_evaluate_rules E rules event_data).
Proof.
  intros s r s' Hrun.
  destruct (evaluate_rules_performs E rules event_data s r s' Hrun) as (l & Hl & Hall).
  exists l. split; [done|].
  assert (service_calls l = 0%nat) as ->; [|done].
  clear Hl. induction Hall as [|c l Hc _ IH]; [done|].
  destruct c; done.
Qed.

Lemma process_pr_costs info rules github_token pr :
  costs 5 (process_pr E info rules github_token pr).
Proof.
  unfold process_pr. apply (costs_bind 5 0); [apply build_event_data_costs|].
  intros ev. apply evaluate_rules_costs.
Qed.

Lemma batch_run_costs info rules github_token (s : St) prs found summaries s' :
  batch_run E info rules github_token s prs found summaries s' ->
  exists l, calls s' = calls s ++ l /\ (service_calls l <= 5 * length prs)%nat.
Proof.
  induction 1 as [s|s pr prs found s1 more summaries s2 Hpr _ IH
                   |s pr prs message s1 more summaries s2 Hpr _ IH].
  - exists []. by rewrite app_nil_r.
  - destruct (process_pr_costs _ _ _ _ _ _ _ Hpr) as (l1 & Hs1 & Hl1).
    destruct IH as (l2 & Hs2 & Hl2). exists (l1 ++ l2).
    rewrite Hs2, Hs1, app_assoc, service_calls_app. split; [done | simpl; lia].
  - destruct (process_pr_costs _ _ _ _ _ _ _ Hpr) as (l1 & Hs1 & Hl1).
    destruct IH as (l2 & Hs2 & Hl2). exists (l1 ++ l2).
    rewrite Hs2, Hs1, app_assoc, service_calls_app. split; [done | simpl; lia].
Qed.

Lemma load_rules_costs repo_full_name rules_yaml github_token :
  costs 1 (_load_rules E repo_full_name rules_yaml github_token).
Proof.
  unfold _load_rules. destruct (str_truthy rules_yaml).
  { eapply costs_weaken; [|apply costs_lift]. lia. }
  apply (costs_bind 1 0).
  - apply costs_guarded. apply (costs_bind 1 0).
    + apply (costs_perform (CGetFileContent repo_full_name (rules_file_path E) github_token)).
    + intros content. destruct (str_truthy content); [|apply costs_ret].
      apply (costs_bind 0 0); [apply costs_lift | intros rules; apply costs_ret].
  - intros [rules|]; [apply costs_ret|].
    apply (costs_bind 0 0); [apply (costs_perform CLocalRulesExists)|].
    intros [|]; [|apply costs_ret].
    apply (costs_bind 0 0); [apply (costs_perform CLocalRulesReadText)|].
    intros content. apply costs_lift.
Qed.

Lemma analyze_single_pr_costs info number rules loaded github_token start_time :
  costs 6 (_analyze_single_pr E info number rules loaded github_token start_time).
Proof.
  unfold _analyze_single_pr.
  apply (costs_bind 1 5); [apply fetch_pr_data_costs|]. intros payload.
  destruct (negb (truthy payload)).
  { eapply costs_weaken; [|apply (costs_bind 0 0); [apply costs_now|intros t; apply costs_ret]].
    lia. }
  apply (costs_bind 5 0); [apply build_event_data_costs|]. intros ev.
  apply (costs_bind 0 0); [apply evaluate_rules_costs|]. intros found.
  apply (costs_bind 0 0); [apply costs_now|]. intros t.
  apply (costs_bind 0 0); [apply costs_lift|]. intros number'.
  apply (costs_bind 0 0); [apply costs_lift|]. intros title. apply costs_ret.
Qed.

Lemma analyze_latest_prs_costs info rules loaded github_token max_prs start_time
    batch_mode (s : St) r s' :
  _analyze_latest_prs E info rules loaded github_token max_prs start_time batch_mode s
  = (Ok r, s') ->
  exists l,
    calls s' = calls s ++ l /\ (service_calls l <= 1 + 5 * length (prs_analyzed r))%nat.
Proof.
  intros Hrun.
  destruct (candidate_prs_run E info github_token max_prs s) as (prs & w' & Hprs).
  destruct (analyze_latest_prs_run E info rules loaded github_token max_prs
              start_time batch_mode s prs _ Hprs) as [Hnone Hsome].
  destruct prs as [|pr rest].
  - rewrite Hnone in Hrun by done. injection Hrun as <- <-. simpl.
    eexists. split; [done|]. unfold service_calls. simpl. destruct (20 <? max_prs); simpl; lia.
  - destruct Hsome as (found & summaries & s2 & Hbatch & Hlatest); [done|].
    rewrite Hlatest in Hrun. injection Hrun as <- <-.
    destruct (batch_run_costs _ _ _ _ _ _ _ _ Hbatch) as (l & Hl & Hcost).
    destruct (batch_run_totals E _ _ _ _ _ _ _ _ Hbatch) as (_ & _ & Hlength & _).
    simpl in Hl. rewrite <- app_assoc in Hl.
    eexists. split; [exact Hl|]. rewrite service_calls_app. simpl prs_analyzed.
    rewrite Hlength.
    assert (service_calls
              [if 20 <? max_prs
               then CFetchAllPullRequests (Rule := Rule) (full_name info) github_token max_prs
               else CListPullRequests (full_name info) github_token max_prs] = 1%nat) as ->.
    { by destruct (20 <? max_prs). }
    lia.
Qed.

(** X3. The analysis of one PR makes at most eight calls that reach the
    hosting service (the repository, the rules file, the PR, its reviews,
    its files and three CODEOWNERS candidates); the analysis of the
    latest PRs makes at most three plus five for each PR it reports on, a
    paginated listing counting as one call. *)
Theorem analyze_service_calls_are_bounded info requested_pr rules_yaml github_token
    max_prs batch_mode (s : St) r s' :
  analyze E info requested_pr rules_yaml github_token max_prs batch_mode s = (Ok r, s') ->
  exists l,
    calls s' = calls s ++ l
    /\ (int_truthy (target_pr info requested_pr) = true -> (service_calls l <= 8)%nat)
    /\ (int_truthy (target_pr info requested_pr) = false ->
        (service_calls l <= 3 + 5 * length (prs_analyzed r))%nat).
Proof.
  rewrite analyze_stages. cbv zeta. intros Hrun.
  destruct (lookup_repository E info github_token s) as [[repo_data|message] s1] eqn:Hlookup.
  all: pose proof (costs_perform (CGetRepository (full_name info) github_token)
                     (get_repository E (full_name info) github_token) s _ _ Hlookup)
         as (l1 & Hs1 & Hl1); simpl in Hl1.
  2: { injection Hrun as <- <-. exists l1. split; [done|]. split; intros _; lia. }
  destruct (truthy repo_data) eqn:Htruthy.
  2: { injection Hrun as <- <-. exists l1. split; [done|]. split; intros _; lia. }
  destruct (_load_rules E (full_name info) rules_yaml github_token s1)
    as [[[|rule rules]|message] s2] eqn:Hrules.
  all: destruct (load_rules_costs _ _ _ _ _ _ Hrules) as (l2 & Hs2 & Hl2).
  1, 3: injection Hrun as <- <-; exists (l1 ++ l2);
        rewrite Hs2, Hs1, app_assoc, service_calls_app; split; [done|]; split; intros _; lia.
  destruct (dispatch E info requested_pr (rule :: rules) github_token max_prs
              (time_time E (world s)) batch_mode s2) as [[r'|message] s3] eqn:Hdispatch.
  - injection Hrun as <- <-. unfold dispatch in Hdispatch.
    destruct (int_truthy (target_pr info requested_pr)).
    + destruct (analyze_single_pr_costs _ _ _ _ _ _ _ _ _ Hdispatch) as (l3 & Hs3 & Hl3).
      exists ((l1 ++ l2) ++ l3).
      rewrite Hs3, Hs2, Hs1, !app_assoc, !service_calls_app.
      split; [done|]. split; [intros _; lia | done].
    + destruct (analyze_latest_prs_costs _ _ _ _ _ _ _ _ _ _ Hdispatch) as (l3 & Hs3 & Hl3).
      exists ((l1 ++ l2) ++ l3).
      rewrite Hs3, Hs2, Hs1, !app_assoc, !service_calls_app.
      split; [done|]. split; [done | intros _; lia].
  - injection Hrun as <- <-. unfold dispatch in Hdispatch.
    destruct (int_truthy (target_pr info requested_pr)).
    + destruct (analyze_single_pr_costs _ _ _ _ _ _ _ _ _ Hdispatch) as (l3 & Hs3 & Hl3).
      exists ((l1 ++ l2) ++ l3).
      rewrite Hs3, Hs2, Hs1, !app_assoc, !service_calls_app.
      split; [done|]. split; [intros _; lia | done].
    + destruct (analyze_latest_prs_never_raises E info (rule :: rules)
                  (len (rule :: rules)) github_token max_prs (time_time E (world s))
                  batch_mode s2) as (r' & s3' & Hnever).
      rewrite Hnever in Hdispatch. done.
Qed.

End CostFacts.
(** ** Failures of the outside world, as the analysis reports them *)

Section FailureFacts.
Context {W Rule Time : Type} (E : Env W Rule Time).

Local Abbreviation M := (M W Rule).
Local Abbreviation St := (St W Rule).

Lemma perform_run {A} (c : Call Rule) (f : W -> outcome A * W) (s : St) r w1 :
  f (world s) = (r, w1) -> perform c f s = (r, after s c w1).
Proof. intros Hf. unfold perform. by rewrite Hf. Qed.

(** X4. When the lookup of the repository raises or returns nothing, the
    analysis ends there: the lookup is the only call it has made, the
    result is unsuccessful with [rules_loaded = 0], and its error is the
    message of the exception or the text on a repository that is not
    found. The same holds when the repository is found and explicit rule
    text is given that yields no rule: nothing more is fetched, whatever
    rules the repository or the host may hold. *)
Theorem analysis_ends_at_first_failure info requested_pr rules_yaml github_token max_prs
    batch_mode (s : St) res w1 :
  get_repository E (full_name info) github_token (world s) = (res, w1) ->
  let found := after s (CGetRepository (full_name info) github_token) w1 in
  (truthy (value_or PNone res) = false ->
   analyze E info requested_pr rules_yaml github_token max_prs batch_mode s
   = (Ok (failure_result E info github_token (time_time E (world s)) found
            match res with
            | Ok _ => RepositoryUnavailable
            | Raise message => Unexpected message
            end 0), found))
  /\ (truthy (value_or PNone res) = true ->
      str_truthy rules_yaml = true ->
      _parse_rules_from_yaml E (default "" rules_yaml) = Ok [] ->
      analyze E info requested_pr rules_yaml github_token max_prs batch_mode s
      = (Ok (failure_result E info github_token (time_time E (world s)) found
               NoRulesResolved 0), found)).
Proof.
  intros Hget found. rewrite analyze_stages. cbv zeta.
  unfold lookup_repository. rewrite (perform_run _ _ _ _ _ Hget). fold found.
  split.
  - intros Hfalsy. destruct res as [repo_data|message]; [|done].
    simpl in Hfalsy. by rewrite Hfalsy.
  - intros Htruthy Hexplicit Hparse. destruct res as [repo_data|message]; [|done].
    simpl in Htruthy. rewrite Htruthy.
    by rewrite (load_rules_explicit E _ _ _ _ Hexplicit), Hparse.
Qed.

Lemma candidate_prs_listing info github_token max_prs (s : St) res w1 :
  listing E info github_token max_prs (world s) = (res, w1) ->
  candidate_prs E info github_token max_prs s
  = (Ok (value_or [] res), after s (listing_of info github_token max_prs) w1).
Proof.
  unfold listing, listing_of, candidate_prs, _fetch_all_prs_paginated, _fetch_open_prs.
  intros Hlisting.
  destruct (20 <? max_prs); rewrite try_except_run, (perform_run _ _ _ _ _ Hlisting);
    by destruct res.
Qed.

(** X5. A listing of the open PRs that raises is taken for an empty
    listing: be it the single-page or the paginated one, the analysis of
    the latest PRs then returns the unsuccessful result that says no open
    pull request was found, with the number of rules that were resolved;
    the message of the exception appears nowhere, and no PR is looked
    at. *)
Theorem listing_failure_reads_as_no_open_prs info requested_pr rules_yaml github_token
    max_prs batch_mode (s : St) rules s2 res w1 :
  resolved E info rules_yaml github_token s rules s2 ->
  int_truthy (target_pr info requested_pr) = false ->
  listing E info github_token max_prs (world s2) = (res, w1) ->
  value_or [] res = [] ->
  let listed := after s2 (listing_of info github_token max_prs) w1 in
  _analyze_latest_prs E info rules (len rules) github_token max_prs (time_time E (world s))
    batch_mode s2
  = (Ok (failure_result E info github_token (time_time E (world s)) listed NoOpenPRs
           (len rules)), listed)
  /\ analyze E info requested_pr rules_yaml github_token max_prs batch_mode s
     = (Ok (failure_result E info github_token (time_time E (world s)) listed NoOpenPRs
              (len rules)), listed).
Proof.
  intros (repo_data & s1 & Hlookup & Htruthy & Hrules & Hne) Htarget Hlisting Hnone listed.
  pose proof (candidate_prs_listing _ _ _ _ _ _ Hlisting) as Hprs. rewrite Hnone in Hprs.
  destruct (analyze_latest_prs_run E info rules (len rules) github_token max_prs
              (time_time E (world s)) batch_mode s2 [] _ Hprs) as [Hrun _].
  specialize (Hrun eq_refl). split; [exact Hrun|].
  rewrite analyze_stages. cbv zeta. rewrite Hlookup, Htruthy, Hrules.
  destruct rules as [|rule rules]; [done|].
  unfold dispatch. rewrite Htarget. by rewrite Hrun.
Qed.

Ltac same_exchange :=
  intros ? (? & ? & ? & ? & ? & ? & ? & ? & ? & ? & ?);
  repeat match goal with
         | H : ?x = _, H' : ?x = _ |- _ => rewrite H in H'; simplify_eq
         end;
  try match goal with
      | H : status ?r = 200, H' : (status ?r =? 200) = false |- _ => by rewrite H in H'
      end;
  try done; try congruence.

Lemma fetch_pr_data_run repo_full_name number github_token (s : St) :
  exists payload s',
    _fetch_pr_data E repo_full_name number github_token s = (Ok payload, s')
    /\ (forall p,
          exchange_succeeds E github_token (pr_url E repo_full_name number) (world s) p ->
          payload = p)
    /\ ((forall p, ~ exchange_succeeds E github_token (pr_url E repo_full_name number)
                      (world s) p) ->
        payload = PNone)
    /\ (forall res w1,
          get_auth_headers E github_token (world s) = (res, w1) ->
          truthy (value_or PNone res) = false ->
          s' = after s (CGetAuthHeaders github_token) w1).
Proof.
  unfold _fetch_pr_data. rewrite try_except_run, bind_run.
  fold (pr_url E repo_full_name number).
  destruct (get_auth_headers E github_token (world s)) as [res w1] eqn:Hheaders.
  rewrite (perform_run _ _ _ _ _ Hheaders).
  destruct res as [headers|message].
  2: { eexists _, _. split; [done|]. split; [same_exchange|split; [done|]].
       by intros res w [= <- <-] _. }
  destruct (truthy headers) eqn:Htruthy; cbn [negb]; cbv beta iota.
  2: { eexists _, _. split; [done|]. split; [same_exchange|split; [done|]].
       by intros res w [= <- <-] _. }
  rewrite bind_run.
  destruct (get_session E w1) as [res2 w2] eqn:Hsession.
  rewrite (perform_run CGetSession _ (after s (CGetAuthHeaders github_token) w1) _ _ Hsession).
  destruct res2 as [[]|message].
  2: { eexists _, _. split; [done|]. split; [same_exchange|split; [done|]].
       intros res w [= <- <-]. simpl. congruence. }
  rewrite bind_run.
  destruct (session_get E (pr_url E repo_full_name number) headers w2)
    as [res3 w3] eqn:Hget.
  rewrite (perform_run (CSessionGet _ headers) _
             (after (after s (CGetAuthHeaders github_token) w1) CGetSession w2) _ _ Hget).
  destruct res3 as [response|message].
  2: { eexists _, _. split; [done|]. split; [same_exchange|split; [done|]].
       intros res w [= <- <-]. simpl. congruence. }
  destruct (status response =? 200) eqn:Hstatus.
  2: { eexists _, _. split; [done|]. split; [same_exchange|split; [done|]].
       intros res w [= <- <-]. simpl. congruence. }
  unfold lift. destruct (json response) as [body|message] eqn:Hjson.
  - eexists _, _. split; [done|]. split; [same_exchange|split].
    + intros Hnone. exfalso. apply (Hnone body).
      exists headers, w1, w2, response, w3. apply Z.eqb_eq in Hstatus. done.
    + intros res w [= <- <-]. simpl. congruence.
  - eexists _, _. split; [done|]. split; [same_exchange|split; [done|]].
    intros res w [= <- <-]. simpl. congruence.
Qed.

(** X6. Fetching the metadata of a PR never raises. It returns the
    decoded body of the response when the headers were obtained and are
    not empty, the session was opened, the request was answered with
    status 200 and the body was decoded, and [None] in every other case:
    an exception at any of these steps, no headers, another status.
    Without headers no request is made. Whenever the body is not
    obtained, the analysis of that PR reports that the PR was not found
    or access was denied and keeps the number of rules that were
    resolved. *)
Theorem pr_fetch_failure_reads_as_not_found info number rules loaded github_token
    start_time (s : St) :
  exists payload s',
    _fetch_pr_data E (full_name info) number github_token s = (Ok payload, s')
    /\ (forall p,
          exchange_succeeds E github_token (pr_url E (full_name info) number) (world s) p ->
          payload = p)
    /\ (forall res w1,
          get_auth_headers E github_token (world s) = (res, w1) ->
          truthy (value_or PNone res) = false ->
          s' = after s (CGetAuthHeaders github_token) w1)
    /\ ((forall p, ~ exchange_succeeds E github_token (pr_url E (full_name info) number)
                      (world s) p) ->
        payload = PNone
        /\ _analyze_single_pr E info number rules loaded github_token start_time s
           = (Ok (failure_result E info github_token start_time s'
                    (TargetPRNotFound number) loaded), s')).
Proof.
  destruct (fetch_pr_data_run (full_name info) number github_token s)
    as (payload & s' & Hfetch & Hsome & Hnone & Hheaders).
  exists payload, s'. split; [done|]. split; [done|]. split; [done|].
  intros Hfailed. specialize (Hnone Hfailed). subst payload. split; [done|].
  by apply (analyze_single_pr_not_found E info number rules loaded github_token start_time
              s PNone s').
Qed.

Lemma omap_parsed_strings {A} (f : A -> string) (l : list A) :
  omap (parsed_entry E) ((fun a => PStr (f a)) <$> l) = [].
Proof. induction l as [|a l IH]; [done|]. exact IH. Qed.

(** X21. A rule document whose [rules] entry is not a list yields no
    rule and raises nothing: a text or a mapping is gone through item by
    item and holds no mapping, and anything else cannot be gone
    through. *)
Theorem rules_entry_must_be_a_list (yaml_content : string) d rs :
  safe_load E yaml_content = Ok (PDict d) ->
  d !! "rules" = Some rs ->
  (forall entries, rs <> PList entries) ->
  _parse_rules_from_yaml E yaml_content = Ok [].
Proof.
  intros Hload Hrules Hlist. unfold _parse_rules_from_yaml. rewrite Hload. simpl.
  rewrite Hrules. destruct rs as [|b|z|text|entries|keys]; simpl; try done.
  - rewrite parse_rules_loop_omap.
    by rewrite (omap_parsed_strings (fun c => String c EmptyString)).
  - by destruct (Hlist entries).
  - rewrite parse_rules_loop_omap.
    by rewrite (omap_parsed_strings (fun kv : string * pyval => kv.1)).
Qed.

End FailureFacts.
(** ** Contexts and evaluations *)

Section EvaluationFacts.
Context {W Rule Time : Type} (E : Env W Rule Time).

Local Abbreviation M := (M W Rule).
Local Abbreviation St := (St W Rule).

Lemma mapM_outcome_raises {A B} (f : A -> outcome B) (items : list A) item message :
  item ∈ items -> f item = Raise message ->
  exists message', mapM_outcome f items = Raise message'.
Proof.
  intros Hin Hraise. induction Hin as [item items|item other items _ IH]; simpl.
  - rewrite Hraise. by eexists.
  - destruct (f other) as [b|message']; simpl; [|by eexists].
    destruct IH as [message' ->]; [done|]. by eexists.
Qed.

Lemma mapM_outcome_length {A B} (f : A -> outcome B) (items : list A) results :
  mapM_outcome f items = Ok results -> length results = length items.
Proof.
  revert results. induction items as [|item items IH]; intros results; simpl.
  - by intros [= <-].
  - destruct (f item) as [b|message]; simpl; [|done].
    destruct (mapM_outcome f items) as [bs|message]; simpl; [|done].
    intros [= <-]. simpl. f_equal. by apply IH.
Qed.

Lemma event_pr_number_get (event_data : gmap string pyval) :
  (forall v, event_data !! "pull_request_details" = Some v -> is_dict v = true) ->
  (details ← py_get (PDict event_data) "pull_request_details" (PDict ∅);
   py_get details "number" PNone)
  = Ok (event_pr_number event_data).
Proof.
  intros Hdict. unfold event_pr_number. simpl.
  destruct (event_data !! "pull_request_details") as [v|] eqn:Hv; simpl; [|done].
  specialize (Hdict v eq_refl). by destruct v.
Qed.

(** X7. The validation of what the evaluator found is all or nothing:
    when the evaluator returns a list of violations for a well-shaped
    event and the violation model rejects one of them, the wrapper
    returns an empty list, the valid ones included; when it accepts all
    of them, the wrapper returns as many violations as the evaluator
    found, in the same order, each with the PR number of the event. In
    both cases the evaluator was called exactly once. *)
Theorem validation_is_all_or_nothing rules event_data (s : St) result w1 d er raw items :
  (forall v, event_data !! "pull_request_details" = Some v -> is_dict v = true) ->
  execute E event_data rules (world s) = (Ok result, w1) ->
  data result = Some d ->
  d !! "evaluation_result" = Some er ->
  er_violations er = Some raw ->
  py_iter raw = Ok items ->
  let evaluated := after s (CExecute event_data rules) w1 in
  ((exists item message, item ∈ items /\ model_validate E item = Raise message) ->
   _evaluate_rules E rules event_data s = (Ok [], evaluated))
  /\ (forall validated,
        mapM_outcome (model_validate E) items = Ok validated ->
        _evaluate_rules E rules event_data s
        = (Ok (stamp (event_pr_number event_data) <$> validated), evaluated)
        /\ length validated = length items).
Proof.
  intros Hdict Hexecute Hdata Her Hraw Hitems evaluated.
  assert (negb (Nat.eqb (size d) 0) = true) as Hsize.
  { apply negb_true_iff, Nat.eqb_neq. intros Hempty. apply map_size_empty_iff in Hempty.
    by rewrite Hempty in Her. }
  assert (forall validation,
            (items' ← py_iter raw; mapM_outcome (model_validate E) items') = validation ->
            _evaluate_rules E rules event_data s
            = (Ok (match validation with
                   | Ok validated => stamp (event_pr_number event_data) <$> validated
                   | Raise _ => []
                   end), evaluated)) as Hrun.
  { intros validation Hvalidation. unfold _evaluate_rules.
    rewrite try_except_run, bind_run. unfold lift at 1.
    rewrite (event_pr_number_get _ Hdict), bind_run.
    rewrite (perform_run _ _ _ _ _ Hexecute). fold evaluated.
    rewrite Hdata, Hsize, Her, Hraw. rewrite bind_run. unfold lift.
    rewrite Hvalidation. by destruct validation. }
  split.
  - intros (item & message & Hin & Hraise).
    destruct (mapM_outcome_raises _ _ _ _ Hin Hraise) as [message' Hall].
    rewrite (Hrun (Raise message')); [done|]. rewrite Hitems. exact Hall.
  - intros validated Hall. split; [|by eapply mapM_outcome_length].
    rewrite (Hrun (Ok validated)); [done|]. rewrite Hitems. exact Hall.
Qed.

Lemma evaluate_rules_stamps rules event_data (s : St) found s' :
  _evaluate_rules E rules event_data s = (Ok found, s') ->
  Forall (fun v => v_pr_number v = event_pr_number event_data) found.
Proof.
  unfold _evaluate_rules. rewrite try_except_run, bind_run. unfold lift at 1.
  destruct (details ← py_get (PDict event_data) "pull_request_details" (PDict ∅);
            py_get details "number" PNone) as [number|message] eqn:Hnumber.
  2: { intros [= <- _]. constructor. }
  assert (number = event_pr_number event_data) as ->.
  { unfold event_pr_number. simpl in Hnumber.
    destruct (event_data !! "pull_request_details") as [v|]; simpl in Hnumber.
    - destruct v; simpl in Hnumber; try done. by injection Hnumber.
    - by injection Hnumber. }
  rewrite bind_run.
  destruct (perform (CExecute event_data rules) (execute E event_data rules) s)
    as [[result|message] s1]; [|by intros [= <- _]; constructor].
  destruct (data result) as [d|]; [|by intros [= <- _]; constructor].
  destruct (negb (Nat.eqb (size d) 0)); [|by intros [= <- _]; constructor].
  destruct (d !! "evaluation_result") as [er|]; [|by intros [= <- _]; constructor].
  destruct (er_violations er) as [raw|]; [|by intros [= <- _]; constructor].
  rewrite bind_run. unfold lift.
  destruct (items ← py_iter raw; mapM_outcome (model_validate E) items)
    as [validated|message]; [|by intros [= <- _]; constructor].
  intros [= <- _]. apply Forall_fmap, Forall_forall. by intros v _.
Qed.

Lemma build_event_data_details repo_full_name pr_data github_token (s : St) ev s' :
  _build_event_data E repo_full_name pr_data github_token s = (Ok ev, s') ->
  ev !! "pull_request_details" = Some pr_data.
Proof.
  unfold _build_event_data. rewrite bind_run. unfold lift at 1.
  destruct (user ← py_get pr_data "user" PNone; py_get (py_or user (PDict ∅)) "login" PNone)
    as [login|message]; [|done].
  cbv zeta. rewrite bind_run. unfold lift at 1.
  destruct (py_get pr_data "number" PNone) as [number|message]; [|done].
  destruct (truthy number).
  2: { intros [= <- _]. by simplify_map_eq. }
  rewrite bind_run.
  destruct (_fetch_pr_reviews E repo_full_name number github_token s)
    as [[reviews|message] s1]; [|done].
  rewrite bind_run.
  destruct (_fetch_pr_files E repo_full_name number github_token s1)
    as [[files|message] s2]; [|done].
  rewrite bind_run. unfold lift at 1.
  destruct (items ← py_iter (py_or files (PList [])); mapM_outcome changed_file items)
    as [changed|message]; [|done].
  rewrite bind_run.
  destruct (_fetch_codeowners E repo_full_name github_token s2)
    as [[found|message] s3]; [|done].
  destruct (str_truthy found); intros [= <- _]; by simplify_map_eq.
Qed.

Lemma process_pr_stamps info rules github_token pr (s : St) found s' :
  process_pr E info rules github_token pr s = (Ok found, s') ->
  Forall (fun v => v_pr_number v = number_of pr) found.
Proof.
  unfold process_pr. rewrite bind_run.
  destruct (_build_event_data E (full_name info) (PDict pr) github_token s)
    as [[ev|message] s1] eqn:Hbuild; [|done].
  intros Heval. pose proof (evaluate_rules_stamps _ _ _ _ _ Heval) as Hstamped.
  unfold event_pr_number in Hstamped.
  by rewrite (build_event_data_details _ _ _ _ _ _ Hbuild) in Hstamped.
Qed.

Lemma batch_run_stamps info rules github_token (s : St) prs found summaries s' :
  batch_run E info rules github_token s prs found summaries s' ->
  Forall (fun v => exists p, p ∈ summaries /\ v_pr_number v = ps_number p) found.
Proof.
  induction 1 as [s|s pr prs found s1 more summaries s2 Hpr _ IH
                   |s pr prs message s1 more summaries s2 Hpr _ IH].
  - constructor.
  - apply Forall_app. split.
    + eapply Forall_impl; [exact (process_pr_stamps _ _ _ _ _ _ _ Hpr)|].
      intros v Hv. eexists. split; [by left | exact Hv].
    + eapply Forall_impl; [exact IH|].
      intros v (p & Hp & Hv). exists p. split; [by right | done].
  - eapply Forall_impl; [exact IH|].
    intros v (p & Hp & Hv). exists p. split; [by right | done].
Qed.

(** X8. Every violation of a result carries the number of a PR the
    result reports on: in the analysis of one PR the number found in its
    metadata, in the analysis of the latest PRs the number of the listed
    PR it was found for. *)
Theorem violations_carry_their_pr_number info requested_pr rules_yaml github_token max_prs
    batch_mode (s : St) r s' :
  analyze E info requested_pr rules_yaml github_token max_prs batch_mode s = (Ok r, s') ->
  Forall (fun v => exists p, p ∈ prs_analyzed r /\ v_pr_number v = ps_number p) (violations r).
Proof.
  rewrite analyze_stages. cbv zeta. intros Hrun.
  destruct (lookup_repository E info github_token s) as [[repo_data|message] s1].
  2: { injection Hrun as <- <-. constructor. }
  destruct (truthy repo_data).
  2: { injection Hrun as <- <-. constructor. }
  destruct (_load_rules E (full_name info) rules_yaml github_token s1)
    as [[[|rule rules]|message] s2].
  1, 3: injection Hrun as <- <-; constructor.
  destruct (dispatch E info requested_pr (rule :: rules) github_token max_prs
              (time_time E (world s)) batch_mode s2) as [[r'|message] s3] eqn:Hdispatch.
  2: { injection Hrun as <- <-. constructor. }
  injection Hrun as <- <-. unfold dispatch in Hdispatch.
  destruct (int_truthy (target_pr info requested_pr)).
  - destruct (analyze_single_pr_returns E _ _ _ _ _ _ _ _ _ Hdispatch)
      as [(payload & _ & _ & ->)
         |(payload & s4 & pr & ev & s5 & found & _ & _ & -> & Hbuild & Heval & ->)].
    + constructor.
    + simpl. pose proof (evaluate_rules_stamps _ _ _ _ _ Heval) as Hstamped.
      unfold event_pr_number in Hstamped.
      rewrite (build_event_data_details _ _ _ _ _ _ Hbuild) in Hstamped.
      eapply Forall_impl; [exact Hstamped|].
      intros v Hv. eexists. split; [by left | exact Hv].
  - destruct (candidate_prs_run E info github_token max_prs s2) as (prs & w' & Hprs).
    destruct (analyze_latest_prs_run E info (rule :: rules) (len (rule :: rules))
                github_token max_prs (time_time E (world s)) batch_mode s2 prs _ Hprs)
      as [Hnone Hsome].
    destruct prs as [|pr rest].
    + rewrite Hnone in Hdispatch by done. injection Hdispatch as <- _. constructor.
    + destruct Hsome as (found & summaries & s4 & Hbatch & Hlatest); [done|].
      rewrite Hlatest in Hdispatch. injection Hdispatch as <- _. simpl.
      by eapply batch_run_stamps.
Qed.

Lemma changed_files_shape (v : pyval) changed :
  truthy v = true \/ v = PList [] ->
  (items ← py_iter v; mapM_outcome changed_file items) = Ok changed ->
  exists items,
    v = PList items /\ forallb is_dict items = true /\ changed = changed_file_view <$> items.
Proof.
  intros Hv Hchanged.
  assert (forall items changed',
            mapM_outcome changed_file items = Ok changed' ->
            forallb is_dict items = true /\ changed' = changed_file_view <$> items) as Hlist.
  { induction items as [|item items IH]; intros changed'; simpl.
    - by intros [= <-].
    - destruct item; try done. simpl.
      destruct (mapM_outcome changed_file items) as [rest|message]; simpl; [|done].
      intros [= <-]. destruct (IH rest eq_refl) as [-> ->]. done. }
  destruct v as [|b|z|text|items|d]; simpl in Hchanged; try done.
  - destruct text as [|c text]; [by destruct Hv|]. done.
  - exists items. destruct (Hlist _ _ Hchanged). done.
  - destruct (map_to_list d) as [|[key value] rest] eqn:Hd; [|done].
    apply map_to_list_empty_iff in Hd. subst d. by destruct Hv.
Qed.

(** What the context records as the login of the author. *)
Lemma author_login_read (pr : gmap string pyval) (login : pyval) :
  (user ← py_get (PDict pr) "user" PNone; py_get (py_or user (PDict ∅)) "login" PNone)
  = Ok login ->
  login = author_login (PDict pr).
Proof.
  unfold author_login. simpl. destruct (pr !! "user") as [user|]; simpl.
  - unfold py_or. destruct (truthy user) eqn:Htruthy.
    + destruct user; simpl; try done. by intros [= <-].
    + simpl. rewrite lookup_empty. simpl. intros [= <-].
      destruct user as [| | | | |d]; try done. simpl in Htruthy.
      apply negb_false_iff, Nat.eqb_eq, map_size_empty_iff in Htruthy. by subst d.
  - unfold py_or. simpl. rewrite lookup_empty. by intros [= <-].
Qed.

(** X9. A context that was built has a fixed shape. It holds the PR
    metadata it was built from, the name of the repository and the login
    of the author, which is the [login] entry of the [user] entry of the
    metadata, and [None] when there is no such entry. When the metadata
    has no number, or the number 0, nothing was fetched and the context
    has no reviews, files, changed files or CODEOWNERS entry. Otherwise it
    has all of the first three: the files are a list of mappings, the
    changed files are their projection on the four keys [filename],
    [status], [additions] and [deletions], one for each file and in the
    same order, and a CODEOWNERS entry, when there is one, is a text that
    is not empty. *)
Theorem built_context_is_well_shaped repo_full_name pr_data github_token (s : St) ev s' :
  _build_event_data E repo_full_name pr_data github_token s = (Ok ev, s') ->
  ev !! "pull_request_details" = Some pr_data
  /\ ev !! "repository" = Some (PDict {["full_name" := PStr repo_full_name]})
  /\ ev !! "triggering_user" = Some (PDict {["login" := author_login pr_data]})
  /\ (truthy (event_pr_number ev) = false ->
      s' = s
      /\ ev !! "reviews" = None /\ ev !! "files" = None
      /\ ev !! "changed_files" = None /\ ev !! "codeowners_content" = None)
  /\ (truthy (event_pr_number ev) = true ->
      exists reviews items,
        ev !! "reviews" = Some reviews
        /\ (truthy reviews = true \/ reviews = PList [])
        /\ ev !! "files" = Some (PList items)
        /\ forallb is_dict items = true
        /\ ev !! "changed_files" = Some (PList (changed_file_view <$> items))
        /\ (forall c, ev !! "codeowners_content" = Some c ->
                      exists text, c = PStr text /\ text <> "")).
Proof.
  intros Hrun.
  pose proof (build_event_data_details _ _ _ _ _ _ Hrun) as Hdetails.
  destruct (build_event_data_of_dict E _ _ _ _ _ _ Hrun) as [pr ->].
  unfold event_pr_number. rewrite Hdetails. clear Hdetails.
  revert Hrun. unfold _build_event_data. rewrite bind_run. unfold lift at 1.
  destruct (user ← py_get (PDict pr) "user" PNone;
            py_get (py_or user (PDict ∅)) "login" PNone) as [login|message] eqn:Hlogin;
    [|done].
  apply author_login_read in Hlogin.
  cbv zeta. rewrite bind_run. unfold lift at 1. simpl py_get. cbv beta iota.
  destruct (truthy (default PNone (pr !! "number"))) eqn:Hnumber.
  2: { intros [= <- <-]. split; [by simplify_map_eq|]. split; [by simplify_map_eq|].
       split; [rewrite <- Hlogin; by simplify_map_eq|]. split; [|done].
       intros _. by simplify_map_eq. }
  rewrite bind_run.
  destruct (_fetch_pr_reviews E repo_full_name (default PNone (pr !! "number"))
              github_token s) as [[reviews|message] s1]; [|done].
  rewrite bind_run.
  destruct (_fetch_pr_files E repo_full_name (default PNone (pr !! "number"))
              github_token s1) as [[files|message] s2]; [|done].
  rewrite bind_run. unfold lift at 1.
  destruct (items ← py_iter (py_or files (PList [])); mapM_outcome changed_file items)
    as [changed|message] eqn:Hchanged; [|done].
  destruct (changed_files_shape (py_or files (PList [])) changed) as (items & Hfiles & Hdicts & ->).
  { unfold py_or. destruct (truthy files) eqn:Htruthy; [by left | by right]. }
  { exact Hchanged. }
  rewrite Hfiles. rewrite bind_run.
  destruct (_fetch_codeowners E repo_full_name github_token s2)
    as [[found|message] s3]; [|done].
  assert (truthy (py_or reviews (PList [])) = true \/ py_or reviews (PList []) = PList [])
    as Hreviews.
  { unfold py_or. destruct (truthy reviews) eqn:Htruthy; [by left | by right]. }
  destruct (str_truthy found) eqn:Hfound; intros [= <- <-].
  - split; [by simplify_map_eq|]. split; [by simplify_map_eq|].
    split; [rewrite <- Hlogin; by simplify_map_eq|]. split; [done|]. intros _.
    exists (py_or reviews (PList [])), items.
    split; [by simplify_map_eq|]. split; [done|]. split; [by simplify_map_eq|].
    split; [done|]. split; [by simplify_map_eq|].
    intros c. rewrite lookup_insert. intros [= <-].
    destruct found as [text|]; [|done]. exists text. split; [done|].
    intros ->. done.
  - split; [by simplify_map_eq|]. split; [by simplify_map_eq|].
    split; [rewrite <- Hlogin; by simplify_map_eq|]. split; [done|]. intros _.
    exists (py_or reviews (PList [])), items.
    split; [by simplify_map_eq|]. split; [done|]. split; [by simplify_map_eq|].
    split; [done|]. split; [by simplify_map_eq|].
    intros c Hc. by simplify_map_eq.
Qed.

End EvaluationFacts.
(** ** The result as it is served *)

Section ServingFacts.
Context {W Rule Time : Type} (E : Env W Rule Time).

Local Abbreviation M := (M W Rule).
Local Abbreviation St := (St W Rule).

Lemma pr_data_truthy_dict (pr : gmap string pyval) :
  pr <> ∅ -> pr_data_truthy (Some (PDict pr)) = true.
Proof.
  intros Hne. simpl. apply negb_true_iff, Nat.eqb_neq. intros Hsize.
  by apply map_size_empty_iff in Hsize.
Qed.

Lemma py_get_mapping (pr : gmap string pyval) (key inner : string) :
  (forall v, pr !! key = Some v -> is_dict v = true) ->
  exists found,
    (entry ← py_get (PDict pr) key (PDict ∅); py_get entry inner PNone) = Ok found.
Proof.
  intros Hdict. simpl. destruct (pr !! key) as [v|]; simpl; [|by eexists].
  specialize (Hdict v eq_refl). destruct v; try done. by eexists.
Qed.

Lemma py_get_not_mapping (pr : gmap string pyval) (key inner : string) v :
  pr !! key = Some v -> is_dict v = false ->
  (entry ← py_get (PDict pr) key (PDict ∅); py_get entry inner PNone)
  = Raise ("'" +:+ type_name v +:+ "' object has no attribute 'get'").
Proof. intros Hv Hdict. simpl. rewrite Hv. simpl. by destruct v. Qed.

(** The entries of [user], [head] and [base] that make [to_dict] raise. *)
Lemma pr_data_dict_returns (pr : gmap string pyval) :
  (forall key v, key ∈ ["user"; "head"; "base"] -> pr !! key = Some v -> is_dict v = true) ->
  exists login head_branch base_branch,
    pr_data_dict (PDict pr)
    = Ok (PDict (<["number" := default PNone (pr !! "number")]>
                (<["title" := default PNone (pr !! "title")]>
                (<["state" := default PNone (pr !! "state")]>
                (<["user" := login]>
                (<["created_at" := default PNone (pr !! "created_at")]>
                (<["head_branch" := head_branch]>
                {["base_branch" := base_branch]}))))))).
Proof.
  intros Hdict.
  destruct (py_get_mapping pr "user" "login") as [login Hlogin].
  { intros v. apply Hdict. set_solver. }
  destruct (py_get_mapping pr "head" "ref") as [head_branch Hhead].
  { intros v. apply Hdict. set_solver. }
  destruct (py_get_mapping pr "base" "ref") as [base_branch Hbase].
  { intros v. apply Hdict. set_solver. }
  exists login, head_branch, base_branch. unfold pr_data_dict.
  simpl in *.
  destruct (pr !! "user") as [user|]; simpl in *;
    [destruct user; simpl in *; try done|];
    (destruct (pr !! "head") as [head|]; simpl in *;
       [destruct head; simpl in *; try done|]);
    (destruct (pr !! "base") as [base|]; simpl in *;
       [destruct base; simpl in *; try done|]);
    congruence.
Qed.

Lemma pr_data_dict_raises (pr : gmap string pyval) key v :
  key ∈ ["user"; "head"; "base"] -> pr !! key = Some v -> is_dict v = false ->
  exists culprit,
    is_dict culprit = false
    /\ pr_data_dict (PDict pr)
       = Raise ("'" +:+ type_name culprit +:+ "' object has no attribute 'get'").
Proof.
  intros Hkey Hv Hdict. unfold pr_data_dict. simpl.
  destruct (pr !! "user") as [user|] eqn:Huser; simpl.
  { destruct (is_dict user) eqn:Hu.
    2: { exists user. split; [done|]. by destruct user. }
    destruct user; try done. simpl.
    destruct (pr !! "head") as [head|] eqn:Hhead; simpl.
    { destruct (is_dict head) eqn:Hh.
      2: { exists head. split; [done|]. by destruct head. }
      destruct head; try done. simpl.
      destruct (pr !! "base") as [base|] eqn:Hbase; simpl.
      { destruct (is_dict base) eqn:Hb.
        2: { exists base. split; [done|]. by destruct base. }
        exfalso. set_unfold in Hkey. destruct Hkey as [->|[->|[->|[]]]]; congruence. }
      exfalso. set_unfold in Hkey. destruct Hkey as [->|[->|[->|[]]]]; congruence. }
    destruct (pr !! "base") as [base|] eqn:Hbase; simpl.
    { destruct (is_dict base) eqn:Hb.
      2: { exists base. split; [done|]. by destruct base. }
      exfalso. set_unfold in Hkey. destruct Hkey as [->|[->|[->|[]]]]; congruence. }
    exfalso. set_unfold in Hkey. destruct Hkey as [->|[->|[->|[]]]]; congruence. }
  destruct (pr !! "head") as [head|] eqn:Hhead; simpl.
  { destruct (is_dict head) eqn:Hh.
    2: { exists head. split; [done|]. by destruct head. }
    destruct head; try done. simpl.
    destruct (pr !! "base") as [base|] eqn:Hbase; simpl.
    { destruct (is_dict base) eqn:Hb.
      2: { exists base. split; [done|]. by destruct base. }
      exfalso. set_unfold in Hkey. destruct Hkey as [->|[->|[->|[]]]]; congruence. }
    exfalso. set_unfold in Hkey. destruct Hkey as [->|[->|[->|[]]]]; congruence. }
  destruct (pr !! "base") as [base|] eqn:Hbase; simpl.
  { destruct (is_dict base) eqn:Hb.
    2: { exists base. split; [done|]. by destruct base. }
    exfalso. set_unfold in Hkey. destruct Hkey as [->|[->|[->|[]]]]; congruence. }
  exfalso. set_unfold in Hkey. destruct Hkey as [->|[->|[->|[]]]]; congruence.
Qed.

(** X10. [to_dict] returns for every result without PR metadata (or
    with empty metadata), and then serves [None] for it. For a result
    with metadata it returns exactly when each of the entries [user],
    [head] and [base] of the metadata is a mapping or absent; when one of
    them is anything else (a JSON null included) it raises the attribute
    error on [get]. What it returns counts the violations it lists. *)
Theorem to_dict_needs_mappings (r : AnalysisResult) :
  (pr_data_truthy (pr_data r) = false ->
   exists d, to_dict E r = Ok d /\ d !! "pr_data" = Some PNone)
  /\ (forall pr,
        pr_data r = Some (PDict pr) ->
        pr <> ∅ ->
        ((forall key v, key ∈ ["user"; "head"; "base"] -> pr !! key = Some v ->
                        is_dict v = true) ->
         exists d served,
           to_dict E r = Ok d
           /\ d !! "pr_data" = Some (PDict served)
           /\ served !! "number" = Some (default PNone (pr !! "number"))
           /\ served !! "title" = Some (default PNone (pr !! "title")))
        /\ (forall key v,
              key ∈ ["user"; "head"; "base"] -> pr !! key = Some v -> is_dict v = false ->
              exists culprit,
                is_dict culprit = false
                /\ to_dict E r
                   = Raise ("'" +:+ type_name culprit +:+ "' object has no attribute 'get'")))
  /\ (forall d,
        to_dict E r = Ok d ->
        exists dumped,
          d !! "violations" = Some (PList dumped)
          /\ d !! "violations_count" = Some (PInt (len dumped))
          /\ d !! "success" = Some (PBool (success r))).
Proof.
  split; [|split].
  - intros Hfalsy. unfold to_dict. rewrite Hfalsy. simpl. eexists. split; [done|].
    by simplify_map_eq.
  - intros pr Hpr Hne. unfold to_dict. rewrite Hpr, (pr_data_truthy_dict _ Hne).
    change (default PNone (Some (PDict pr))) with (PDict pr). split.
    + intros Hdict.
      destruct (pr_data_dict_returns pr Hdict) as (login & head_branch & base_branch & ->).
      simpl. eexists _, _. split; [done|]. split; [by simplify_map_eq|].
      split; by simplify_map_eq.
    + intros key v Hkey Hv Hdict.
      destruct (pr_data_dict_raises pr key v Hkey Hv Hdict) as (culprit & Hculprit & ->).
      by exists culprit.
  - intros d. unfold to_dict.
    destruct (if pr_data_truthy (pr_data r) then pr_data_dict (default PNone (pr_data r))
              else Ok PNone) as [served|message]; simpl; [|done].
    intros [= <-]. exists (model_dump E <$> violations r).
    split; [by simplify_map_eq|]. split; [|by simplify_map_eq].
    unfold len. rewrite length_fmap. by simplify_map_eq.
Qed.

Lemma to_dict_of_failure info github_token start_time (s : St) f loaded :
  exists d,
    to_dict E (failure_result E info github_token start_time s f loaded) = Ok d
    /\ d !! "success" = Some (PBool false)
    /\ d !! "error" = Some (PStr (failure_message info github_token f))
    /\ d !! "violations" = Some (PList [])
    /\ d !! "violations_count" = Some (PInt 0)
    /\ d !! "rules_loaded" = Some (PInt loaded)
    /\ d !! "repository" = Some (repository_dict info)
    /\ d !! "pr_data" = Some PNone
    /\ d !! "prs_analyzed" = Some (PList []).
Proof.
  eexists. split; [reflexivity|]. repeat split; by simplify_map_eq.
Qed.

(** X11. The analysis endpoint follows the URL endpoint. When the URL
    endpoint raises, which it does with the [ValueError] of the conversion
    of more than 4300 digits only, the analysis endpoint raises the same
    exception, and
    when the URL endpoint finds the reference invalid, the analysis
    endpoint answers 400; in both cases no call to the outside world is
    made. For a valid reference it runs the analysis and serves its
    result: an unsuccessful analysis is served as an ordinary response
    with [success = false], its error message and no violation, never as
    an HTTP error; and when the PR metadata of the result has a JSON null
    for [user], the endpoint raises the attribute error instead of
    answering. A reference of at most 4300 characters is always
    answered by the URL endpoint. *)
Theorem endpoint_serves_the_analysis (request : AnalyzeRequest) (s : St) :
  (forall message,
     parse_github_url request = Raise message ->
     analyze_repository E request s = (Raise message, s)
     /\ exists n,
          GitHubURL.int_max_str_digits < n <= len (GitHubURL.lit (req_repository_url request))
          /\ message = GitHubURL.int_limit_message n)
  /\ (forall reply,
        parse_github_url request = Ok reply ->
        pu_valid reply = false ->
        analyze_repository E request s
        = (Ok (inl {| status_code := 400; detail := invalid_url_detail |}), s))
  /\ (forall reply,
        parse_github_url request = Ok reply ->
        pu_valid reply = true ->
        exists info r s',
          GitHubURL.parse (req_repository_url request) = Ok (Some info)
          /\ analyze E info (req_pr_number request) (req_rules_yaml request)
               (req_github_token request) (req_max_prs request) (req_batch_mode request) s
             = (Ok r, s')
          /\ analyze_repository E request s = (inr <$> to_dict E r, s')
          /\ (success r = false ->
              exists d message,
                analyze_repository E request s = (Ok (inr d), s')
                /\ error r = Some message
                /\ d !! "success" = Some (PBool false)
                /\ d !! "error" = Some (PStr message)
                /\ d !! "violations" = Some (PList [])
                /\ d !! "prs_analyzed" = Some (PList []))
          /\ (forall pr,
                pr_data r = Some (PDict pr) ->
                pr !! "user" = Some PNone ->
                analyze_repository E request s
                = (Raise "'NoneType' object has no attribute 'get'", s')))
  /\ (len (GitHubURL.lit (req_repository_url request)) <= GitHubURL.int_max_str_digits ->
      exists reply, parse_github_url request = Ok reply).
Proof.
  unfold parse_github_url, analyze_repository. rewrite bind_run. unfold lift at 1.
  destruct (GitHubURL.parse (req_repository_url request)) as [[info|]|message'] eqn:Hparse;
    simpl.
  3: { split; [|split; [done|split; [done|]]].
       - intros message [= <-]. split; [done|].
         by apply GroupFacts.parse_raises.
       - intros Hshort.
         destruct (GroupFacts.parse_raises _ _ Hparse) as (n & Hn & _). lia. }
  2: { split; [done|]. split; [by intros reply [= <-]|]. split; [by intros reply [= <-]|].
       by eexists. }
  split; [done|]. split; [by intros reply [= <-]|]. split; [|by eexists].
  intros reply _ _.
  destruct (analyze_never_raises E info (req_pr_number request) (req_rules_yaml request)
              (req_github_token request) (req_max_prs request) (req_batch_mode request) s)
    as (r & s' & Hrun).
  exists info, r, s'. split; [done|]. split; [done|].
  assert ((analyze E info (req_pr_number request) (req_rules_yaml request)
             (req_github_token request) (req_max_prs request) (req_batch_mode request)
           ≫= (fun result => response ← lift (to_dict E result); mret (inr response))) s
          = ((inr <$> to_dict E r) : outcome (HTTPException + gmap string pyval), s'))
    as Hserved.
  { rewrite bind_run, Hrun, bind_run. unfold lift. by destruct (to_dict E r). }
  split; [exact Hserved|]. rewrite Hserved. split.
  - intros Hfailed.
    destruct (analyze_unsuccessful E _ _ _ _ _ _ _ _ _ Hrun Hfailed) as (f & loaded & _ & ->).
    destruct (to_dict_of_failure info (req_github_token request) (time_time E (world s))
                s' f loaded) as (d & -> & Hd).
    exists d, (failure_message info (req_github_token request) f).
    split; [done|]. split; [done|]. tauto.
  - intros pr Hpr Huser. unfold to_dict. rewrite Hpr.
    rewrite pr_data_truthy_dict.
    2: { intros ->. by rewrite lookup_empty in Huser. }
    unfold pr_data_dict. simpl. rewrite Huser. done.
Qed.

End ServingFacts.
(** ** More on repository references *)

Module ParseExtras.
Import GitHubURL ReferenceShapes GroupShapes GitHubURLFacts TrailerFacts GroupFacts ParseFacts.

Lemma rmatch_plus_takes greedy cls (s : list ascii) pos g (k : cont) m :
  rmatch (RPlus greedy cls) s pos g k = Some m ->
  exists n, take n s <> [] /\ forallb cls (take n s) = true
            /\ k (pos + n)%nat (drop n s) g = Some m.
Proof.
  simpl. destruct s as [|c s]; [done|]. destruct (cls c) eqn:Hc; [|done].
  intros Hstar.
  assert (exists n, forallb cls (take n s) = true
                    /\ k (S pos + n)%nat (drop n s) g = Some m) as (n & Hn & Hk).
  { destruct greedy; [by apply star_greedy_stops | by apply star_lazy_stops]. }
  exists (S n). simpl. rewrite Hc, Hn. split; [done|]. split; [done|].
  rewrite <- Hk. f_equal. lia.
Qed.

(** Matching keeps the groups well-formed, never unbinds a group, and
    binds the groups the pattern always binds. *)
Lemma rmatch_groups_ok (r : regex) :
  well_grouped r ->
  forall s pos g (k : cont) m,
    groups_ok g ->
    rmatch r s pos g k = Some m ->
    exists pos' s' g',
      groups_ok g'
      /\ (forall name, is_Some (g !! name) -> is_Some (g' !! name))
      /\ (forall name, binds name r = true -> is_Some (g' !! name))
      /\ k pos' s' g' = Some m.
Proof.
  induction r as [| |l|greedy cls|r IH|r1 IH1 r2 IH2|name r IH|r1 IH1 r2 IH2];
    intros Hr s pos g k m Hg; simpl.
  - destruct (Nat.eqb pos 0); [|done]. intros Hk. by eexists _, _, g.
  - destruct s as [|c [|]]; [intros Hk; by eexists _, _, g| |done].
    destruct (Ascii.eqb c newline); [|done]. intros Hk. by eexists _, _, g.
  - destruct (strip_prefix l s); [|done]. intros Hk. by eexists _, _, g.
  - intros Hm. destruct (rmatch_plus_stops greedy cls s pos g k m Hm) as (n & _ & Hk).
    by eexists _, _, g.
  - destruct (rmatch r s pos g k) eqn:Hm.
    + intros [= <-]. destruct (IH Hr _ _ _ _ _ Hg Hm) as (pos' & s' & g' & ? & ? & _ & ?).
      by eexists _, _, g'.
    + intros Hk. by eexists _, _, g.
  - destruct Hr as [Hr1 Hr2]. destruct (rmatch r1 s pos g k) eqn:Hm.
    + intros [= <-]. destruct (IH1 Hr1 _ _ _ _ _ Hg Hm) as (pos' & s' & g' & ? & ? & Hb & ?).
      eexists _, _, g'. split; [done|]. split; [done|]. split; [|done].
      intros name [? _]%andb_true_iff. by apply Hb.
    + intros Hm2. destruct (IH2 Hr2 _ _ _ _ _ Hg Hm2) as (pos' & s' & g' & ? & ? & Hb & ?).
      eexists _, _, g'. split; [done|]. split; [done|]. split; [|done].
      intros name [_ ?]%andb_true_iff. by apply Hb.
  - destruct r as [| | |greedy cls| | | |]; try done. destruct Hr as [Hslash Hdigit].
    intros Hm. apply rmatch_plus_takes in Hm as (n & Hne & Hn & Hk).
    eexists _, _, _. split; [|split; [|split; [|exact Hk]]].
    + unfold groups_ok, groups in *. intros name' x. rewrite lookup_insert. case_decide as Hname.
      * intros [= <-]. replace (pos + n - pos)%nat with n by lia. subst name'.
        split; [done|]. rewrite forallb_forall in Hn. split.
        -- apply forallb_forall. intros c Hc. by apply Hslash, Hn.
        -- intros Hpr. apply forallb_forall. intros c Hc. by apply Hdigit, Hn.
      * apply Hg.
    + unfold groups in *. intros name' Hsome. rewrite lookup_insert. by case_decide.
    + unfold groups in *. intros name'. simpl. rewrite orb_false_r.
      intros ->%String.eqb_eq. rewrite lookup_insert. by case_decide.
  - destruct Hr as [Hr1 Hr2]. intros Hm.
    destruct (IH1 Hr1 _ _ _ _ _ Hg Hm) as (pos1 & s1 & g1 & Hg1 & Hkeep1 & Hb1 & Hm1).
    destruct (IH2 Hr2 _ _ _ _ _ Hg1 Hm1) as (pos2 & s2 & g2 & Hg2 & Hkeep2 & Hb2 & Hm2).
    eexists _, _, g2. split; [done|]. split; [by auto|]. split; [|done].
    intros name [?|?]%orb_true_iff; [by apply Hkeep2, Hb1 | by apply Hb2].
Qed.

Lemma re_match_groups_ok (r : regex) (s : list ascii) (m : groups) :
  well_grouped r ->
  re_match r s = Some m ->
  groups_ok m /\ (forall name, binds name r = true -> is_Some (m !! name)).
Proof.
  intros Hr Hm.
  destruct (rmatch_groups_ok r Hr s 0%nat ∅ accept m) as (pos' & s' & g' & Hg' & _ & Hb & Hk).
  - unfold groups_ok, groups. intros name x. by rewrite lookup_empty.
  - exact Hm.
  - injection Hk as <-. done.
Qed.

Lemma patterns_well_grouped :
  well_grouped HTTPS_PATTERN /\ well_grouped BARE_PATTERN
  /\ well_grouped SSH_PATTERN /\ well_grouped SHORT_PATTERN.
Proof.
  pose proof digit_is_not_slash. pose proof owner_char_is_not_slash.
  pose proof repo_char_is_not_slash.
  repeat split; try done; by intros c.
Qed.

Lemma patterns_bind_owner_and_repo (name : string) :
  name = "owner" \/ name = "repo" ->
  binds name HTTPS_PATTERN = true /\ binds name BARE_PATTERN = true
  /\ binds name SSH_PATTERN = true /\ binds name SHORT_PATTERN = true.
Proof. by intros [-> | ->]. Qed.

Lemma str_nonempty (x : list ascii) : x <> [] -> str x <> "".
Proof. by destruct x. Qed.

Lemma decimal_digits_nonnegative (x : list ascii) :
  forallb digit x = true -> 0 <= decimal x.
Proof.
  unfold decimal.
  assert (forall acc, 0 <= acc -> forallb digit x = true ->
                      0 <= fold_left (fun acc c => 10 * acc + (Z.of_N (code c) - 48)) x acc)
    as Hfold; [|by apply Hfold].
  induction x as [|c x IH]; intros acc Hacc; simpl; [done|].
  intros [Hc Hx]%andb_true_iff. apply IH; [|done].
  unfold digit in Hc. apply andb_true_iff in Hc as [Hlow _]. apply N.leb_le in Hlow. lia.
Qed.

Lemma parse_proper (text : string) (info : GitHubRepoInfo) :
  parse text = Ok (Some info) ->
  owner info <> "" /\ slash_count (owner info) = 0%nat
  /\ repo info <> "" /\ slash_count (repo info) = 0%nat
  /\ slash_count (full_name info) = 1%nat
  /\ (forall b, branch info = Some b -> b <> "" /\ slash_count b = 0%nat)
  /\ (forall n, pr_number info = Some n -> 0 <= n).
Proof.
  intros Hparse.
  destruct patterns_well_grouped as (Hhttps & Hbare & Hssh & Hshort).
  destruct (patterns_bind_owner_and_repo "owner") as (Ho1 & Ho2 & Ho3 & Ho4); [by left|].
  destruct (patterns_bind_owner_and_repo "repo") as (Hr1 & Hr2 & Hr3 & Hr4); [by right|].
  assert (forall m name,
            groups_ok m -> is_Some (m !! name) ->
            default "" (group m name) <> ""
            /\ slash_count (default "" (group m name)) = 0%nat) as Hbound.
  { intros m name Hm [x Hx]. unfold group. rewrite Hx. simpl.
    destruct (Hm name x Hx) as (Hne & Hslash & _).
    split; [by apply str_nonempty | by apply slash_count_str]. }
  assert (forall m b,
            groups_ok m -> group m "branch" = Some b ->
            b <> "" /\ slash_count b = 0%nat) as Hbranch.
  { intros m b Hm. unfold group. destruct (m !! "branch") as [x|] eqn:Hx; [|done].
    intros [= <-]. destruct (Hm "branch" x Hx) as (Hne & Hslash & _).
    split; [by apply str_nonempty | by apply slash_count_str]. }
  assert (forall m n,
            groups_ok m ->
            match m !! "pr" with
            | Some (c :: d) => Some (decimal (c :: d))
            | _ => None
            end = Some n -> 0 <= n) as Hpr.
  { intros m n Hm. destruct (m !! "pr") as [[|c d]|] eqn:Hx; try done.
    intros [= <-]. destruct (Hm "pr" _ Hx) as (_ & _ & Hdigits).
    by apply decimal_digits_nonnegative, Hdigits. }
  assert (owner info <> "" /\ slash_count (owner info) = 0%nat
          /\ repo info <> "" /\ slash_count (repo info) = 0%nat
          /\ (forall b, branch info = Some b -> b <> "" /\ slash_count b = 0%nat)
          /\ (forall n, pr_number info = Some n -> 0 <= n))
    as (Howner & Howner' & Hrepo & Hrepo' & Hb & Hn).
  { assert (forall r m,
              well_grouped r -> binds "owner" r = true -> binds "repo" r = true ->
              re_match r (strip (lit text)) = Some m ->
              Some <$> with_branch_and_pr m = Ok (Some info) ->
              owner info <> "" /\ slash_count (owner info) = 0%nat
              /\ repo info <> "" /\ slash_count (repo info) = 0%nat
              /\ (forall b, branch info = Some b -> b <> "" /\ slash_count b = 0%nat)
              /\ (forall n, pr_number info = Some n -> 0 <= n)) as Hconverted.
    { intros r m Hr Ho Hrepo Hmatch.
      destruct (with_branch_and_pr m) as [info'|message] eqn:Hinfo; [|done].
      intros [= ->].
      destruct (with_branch_and_pr_returns m info Hinfo) as (-> & -> & -> & ->).
      destruct (re_match_groups_ok _ _ _ Hr Hmatch) as [Hm Hbinds].
      destruct (Hbound m "owner" Hm (Hbinds _ Ho)), (Hbound m "repo" Hm (Hbinds _ Hrepo)).
      split; [done|]. split; [done|]. split; [done|]. split; [done|].
      split; [intros b; by apply Hbranch | intros n; by apply Hpr]. }
    revert Hparse. unfold parse.
    destruct (re_match HTTPS_PATTERN _) as [m|] eqn:Hm1.
    { by apply (Hconverted HTTPS_PATTERN m). }
    destruct (re_match BARE_PATTERN _) as [m|] eqn:Hm2.
    { by apply (Hconverted BARE_PATTERN m). }
    destruct (re_match SSH_PATTERN _) as [m|] eqn:Hm3.
    { intros [= <-]. destruct (re_match_groups_ok _ _ _ Hssh Hm3) as [Hm Hbinds].
      destruct (Hbound m "owner" Hm (Hbinds _ Ho3)), (Hbound m "repo" Hm (Hbinds _ Hr3)).
      cbn [owner_and_repo owner repo branch pr_number]. by repeat (split; [done|]). }
    destruct (re_match SHORT_PATTERN _) as [m|] eqn:Hm4; [|done].
    intros [= <-]. destruct (re_match_groups_ok _ _ _ Hshort Hm4) as [Hm Hbinds].
    destruct (Hbound m "owner" Hm (Hbinds _ Ho4)), (Hbound m "repo" Hm (Hbinds _ Hr4)).
    cbn [owner_and_repo owner repo branch pr_number]. by repeat (split; [done|]). }
  repeat (split; [done|]). split; [|done].
  unfold full_name. rewrite !slash_count_app, Howner', Hrepo'. done.
Qed.

(** X12. Whatever the parser returns is a proper reference: the owner
    and the repository name are not empty and hold no slash, so that the
    full name has exactly one; a branch, when there is one, is not empty
    and holds no slash; a PR number, when there is one, is not
    negative. *)
Theorem parse_returns_proper_references (text : string) (info : GitHubRepoInfo) :
  parse text = Ok (Some info) ->
  owner info <> "" /\ slash_count (owner info) = 0%nat
  /\ repo info <> "" /\ slash_count (repo info) = 0%nat
  /\ slash_count (full_name info) = 1%nat
  /\ (forall b, branch info = Some b -> b <> "" /\ slash_count b = 0%nat)
  /\ (forall n, pr_number info = Some n -> 0 <= n).
Proof. apply parse_proper. Qed.

(** X22. The URL endpoint looks at nothing but the URL, and what it does
    is what the validity check does: its reply is valid exactly when the
    check accepts the URL, and it raises exactly when the check raises.
    It answers every URL of at most 4300 characters; when it raises, it
    raises the [ValueError] of the conversion of more than 4300 digits.
    An invalid reply has no other field. A valid one has an owner and a
    repository name that are not empty and hold no slash, the full name
    made of the two with a slash between, a PR number that is not
    negative and a branch that is not empty, when there are any. *)
Theorem url_endpoint_reply_is_consistent (request : AnalyzeRequest) :
  pu_valid <$> parse_github_url request = is_valid_github_url (req_repository_url request)
  /\ (forall reply,
        parse_github_url request = Ok reply ->
        (pu_valid reply = false ->
         pu_owner reply = None /\ pu_repo reply = None /\ pu_full_name reply = None
         /\ pu_pr_number reply = None /\ pu_branch reply = None)
        /\ (pu_valid reply = true ->
            exists o r,
              pu_owner reply = Some o /\ pu_repo reply = Some r
              /\ pu_full_name reply = Some (o +:+ "/" +:+ r)
              /\ o <> "" /\ r <> "" /\ slash_count o = 0%nat /\ slash_count r = 0%nat
              /\ (forall n, pu_pr_number reply = Some n -> 0 <= n)
              /\ (forall b, pu_branch reply = Some b -> b <> "" /\ slash_count b = 0%nat)))
  /\ (forall message,
        parse_github_url request = Raise message ->
        exists n, int_max_str_digits < n <= len (lit (req_repository_url request))
                  /\ message = int_limit_message n)
  /\ (len (lit (req_repository_url request)) <= int_max_str_digits ->
      exists reply, parse_github_url request = Ok reply)
  /\ (forall other,
        req_repository_url other = req_repository_url request ->
        parse_github_url other = parse_github_url request).
Proof.
  unfold parse_github_url, is_valid_github_url.
  destruct (parse (req_repository_url request)) as [[info|]|message'] eqn:Hparse; simpl.
  - split; [done|]. split; [|split; [done|split; [by eexists|]]].
    + intros reply [= <-]. simpl. split; [done|]. intros _.
      destruct (parse_proper _ _ Hparse) as (? & ? & ? & ? & _ & ? & ?).
      by exists (owner info), (repo info).
    + intros other ->. by rewrite Hparse.
  - split; [done|]. split; [|split; [done|split; [by eexists|]]].
    + by intros reply [= <-].
    + intros other ->. by rewrite Hparse.
  - split; [done|]. split; [done|]. split; [|split].
    + intros message [= <-]. by apply parse_raises.
    + intros Hshort. destruct (parse_raises _ _ Hparse) as (n & Hn & _). lia.
    + intros other ->. by rewrite Hparse.
Qed.

Lemma lit_app (a b : string) : lit (a +:+ b) = lit a ++ lit b.
Proof.
  induction a as [|c a IH]; [done|].
  change (lit (String c (a +:+ b)) = c :: lit a ++ lit b). unfold lit in *. simpl.
  by rewrite IH.
Qed.

Lemma lstrip_app (t b : list ascii) :
  lstrip (t ++ b) = match lstrip t with
                    | [] => lstrip b
                    | c :: l => c :: l ++ b
                    end.
Proof.
  induction t as [|c t IH]; simpl; [by destruct (lstrip b)|].
  destruct (whitespace c); [exact IH | done].
Qed.

Lemma lstrip_blank (b : list ascii) : forallb whitespace b = true -> lstrip b = [].
Proof.
  induction b as [|c b IH]; [done|]. simpl.
  intros [-> Hb]%andb_true_iff. by apply IH.
Qed.

Lemma strip_surrounded (a t b : list ascii) :
  forallb whitespace a = true -> forallb whitespace b = true ->
  strip (a ++ t ++ b) = strip t.
Proof.
  intros Ha Hb. unfold strip.
  rewrite (lstrip_app a), (lstrip_blank a Ha), (lstrip_app t).
  destruct (lstrip t) as [|c l] eqn:Ht.
  - by rewrite (lstrip_blank b Hb).
  - change (c :: l ++ b) with ((c :: l) ++ b).
    rewrite rev_app_distr, (lstrip_app (rev b)), (lstrip_blank (rev b)); [done|].
    rewrite forallb_forall in Hb. apply forallb_forall. intros x Hx.
    apply Hb. by apply in_rev.
Qed.

(** X13. The parser ignores what [str.strip()] removes: a reference
    preceded and followed by blanks, tabs, line ends or other white space
    parses to what the reference alone parses to, and is valid exactly
    when the reference alone is. *)
Theorem parse_ignores_surrounding_whitespace (before text after : string) :
  blank before = true ->
  blank after = true ->
  parse (before +:+ text +:+ after) = parse text
  /\ is_valid_github_url (before +:+ text +:+ after) = is_valid_github_url text.
Proof.
  intros Hbefore Hafter.
  assert (parse (before +:+ text +:+ after) = parse text) as Hparse.
  { unfold parse. by rewrite !lit_app, strip_surrounded. }
  split; [done|]. unfold is_valid_github_url. by rewrite Hparse.
Qed.

Lemma str_lit (s : string) : str (lit s) = s.
Proof. apply String.string_of_list_ascii_of_string. Qed.

Lemma parse_https (o r : list ascii) (t : Trailer) :
  owner_name o = true -> repo_name r = true -> trailer_ok t = true ->
  convertible t = true ->
  parse (str (lit "https://github.com/" ++ o ++ lit "/" ++ r ++ trailer_text t))
  = Ok (Some (reference o r t)).
Proof.
  intros Ho Hr Ht Hfits. pose proof (repo_name_branch_name r Hr) as Hr'.
  destruct (https_pattern_matches o r t Ho Hr Ht) as [Hhttps _].
  unfold parse. rewrite lit_str, strip_clean by (by apply subject_clean).
  by rewrite Hhttps, reference_of_groups.
Qed.

Lemma parse_short (o r : list ascii) :
  owner_name o = true -> branch_name r = true ->
  parse (str (o ++ lit "/" ++ r)) = Ok (Some (reference o r NoTrailer)).
Proof.
  intros Ho Hr.
  destruct (short_pattern_matches o r Ho Hr) as (Hshort1 & Hshort2 & Hshort3 & Hshort4).
  unfold parse. rewrite lit_str. rewrite strip_clean.
  - by rewrite Hshort1, Hshort2, Hshort3, Hshort4, reference_of_owner_and_repo.
  - unfold owner_name in Ho. apply andb_true_iff in Ho as [Ho1 Ho2].
    destruct o as [|c o]; [done|]. simpl in Ho2. apply andb_true_iff in Ho2 as [Hc _].
    rewrite <- (app_nil_r r).
    apply (subject_clean c [] o r NoTrailer); [|done..].
    by apply owner_char_not_whitespace.
Qed.

(** X14. The [url] and the [full_name] of a reference parse back to its
    owner and repository, whatever branch or PR number it carries, when
    the owner is made of letters, digits, [_] and [-] and the repository
    name of these and [.], both not empty and the name not ending in
    [.git]. *)
Theorem url_and_full_name_parse_back (info : GitHubRepoInfo) :
  owner_name (lit (owner info)) = true ->
  repo_name (lit (repo info)) = true ->
  let plain := {| owner := owner info; repo := repo info;
                  pr_number := None; branch := None |} in
  parse (url info) = Ok (Some plain)
  /\ parse (full_name info) = Ok (Some plain)
  /\ parse (url plain) = Ok (Some plain).
Proof.
  intros Ho Hr plain.
  assert (reference (lit (owner info)) (lit (repo info)) NoTrailer = plain) as Hplain.
  { unfold reference, plain. by rewrite !str_lit. }
  assert (parse (url info) = Ok (Some plain)) as Hurl.
  { pose proof (parse_https _ _ NoTrailer Ho Hr eq_refl eq_refl) as Hparse.
    simpl trailer_text in Hparse. rewrite app_nil_r in Hparse.
    rewrite <- Hplain, <- Hparse. f_equal.
    unfold url, full_name. rewrite <- (str_lit (_ +:+ _)). by rewrite !lit_app. }
  split; [done|]. split; [|done].
  pose proof (parse_short _ _ Ho (repo_name_branch_name _ Hr)) as Hparse.
  rewrite <- Hplain, <- Hparse. f_equal.
  unfold full_name. rewrite <- (str_lit (_ +:+ _)). by rewrite !lit_app.
Qed.

Lemma parse_ssh_dot_git (o r : list ascii) :
  owner_name o = true -> repo_name r = true ->
  parse (str (lit "git@github.com:" ++ o ++ lit "/" ++ r ++ lit ".git"))
  = Ok (Some (reference o r NoTrailer)).
Proof.
  intros Ho Hr. destruct (ssh_pattern_matches o r true Ho Hr) as (Hgit1 & Hgit2 & Hgit3).
  unfold parse. rewrite lit_str.
  rewrite strip_clean by (by apply (subject_clean _ _ o r DotGit);
                          [|apply repo_name_branch_name|]).
  by rewrite Hgit1, Hgit2, Hgit3, reference_of_owner_and_repo.
Qed.

(** X15. A trailing [.git] is dropped from a web URL and from the SSH
    form, but kept in the short form: [owner/name.git] parses to the
    repository [name.git], where [https://github.com/owner/name.git] and
    [git@github.com:owner/name.git] parse to the repository [name]. *)
Theorem short_form_keeps_dot_git (o r : list ascii) :
  owner_name o = true ->
  repo_name r = true ->
  parse (str (o ++ lit "/" ++ r ++ lit ".git"))
  = Ok (Some {| owner := str o; repo := str (r ++ lit ".git");
                pr_number := None; branch := None |})
  /\ parse (str (lit "https://github.com/" ++ o ++ lit "/" ++ r ++ lit ".git"))
     = Ok (Some {| owner := str o; repo := str r; pr_number := None; branch := None |})
  /\ parse (str (lit "git@github.com:" ++ o ++ lit "/" ++ r ++ lit ".git"))
     = Ok (Some {| owner := str o; repo := str r; pr_number := None; branch := None |}).
Proof.
  intros Ho Hr. split; [|split].
  - apply (parse_short o (r ++ lit ".git")); [done|].
    unfold repo_name in Hr. apply andb_true_iff in Hr as [[Hne Hr]%andb_true_iff _].
    unfold branch_name. apply andb_true_iff. split; [by destruct r|].
    rewrite forallb_app, Hr. done.
  - exact (parse_https o r DotGit Ho Hr eq_refl eq_refl).
  - by apply parse_ssh_dot_git.
Qed.

End ParseExtras.
(** ** Repository names that end in a keyword *)

Module KeywordFacts.
Import GitHubURL ReferenceShapes GroupShapes GitHubURLFacts TrailerFacts GroupFacts ParseFacts.

Local Arguments Ascii.eqb : simpl never.
Local Arguments not_slash : simpl never.
Local Arguments digit : simpl never.
Local Arguments repo_char : simpl never.
Local Arguments owner_char : simpl never.
Local Arguments whitespace : simpl never.

(** The trailer pattern matches no glued trailer from inside the
    repository name. *)
Lemma glued_tail_rejects (x2 : list ascii) (t : Trailer) pos g (k : cont) :
  x2 <> [] ->
  forallb repo_char x2 = true ->
  trailer_ok t = true ->
  keyword t = true ->
  rmatch trailer_pattern (x2 ++ glued_text t) pos g k = None.
Proof.
  intros Hne Hx2 Ht Hkeyword. unfold trailer_pattern.
  destruct t; try done; unfold trailer_ok, glued_text, branch_name, pr_digits in *; explore.
Qed.

(** It matches a glued trailer as it matches the trailer. *)
Lemma glued_tail_accepts (t : Trailer) pos g :
  trailer_ok t = true ->
  keyword t = true ->
  rmatch trailer_pattern (glued_text t) pos g accept = Some (trailer_groups t g).
Proof.
  intros Ht Hkeyword. unfold trailer_pattern.
  destruct t as [| | |b|b|n]; try done; unfold trailer_ok, branch_name, pr_digits in Ht.
  - apply andb_true_iff in Ht as [Hne Hb]. destruct b as [|c b]; [done|].
    apply repo_char_not_slash in Hb. simpl in Hb. apply andb_true_iff in Hb as [Hc Hb].
    simpl. evaluate_tests. simpl. rewrite Hc.
    erewrite star_greedy_all; [|exact Hb|simpl; reflexivity].
    simpl. rewrite take_ge by (simpl; lia). done.
  - apply andb_true_iff in Ht as [Hne Hb]. destruct b as [|c b]; [done|].
    apply repo_char_not_slash in Hb. simpl in Hb. apply andb_true_iff in Hb as [Hc Hb].
    simpl. evaluate_tests. simpl. rewrite Hc.
    erewrite star_greedy_all; [|exact Hb|simpl; reflexivity].
    simpl. rewrite take_ge by (simpl; lia). done.
  - apply andb_true_iff in Ht as [Hne Hn]. destruct n as [|c n]; [done|].
    simpl in Hn. apply andb_true_iff in Hn as [Hc Hn].
    simpl. evaluate_tests. simpl. rewrite Hc.
    erewrite star_greedy_all; [|exact Hn|simpl; reflexivity].
    simpl. rewrite take_ge by (simpl; lia). done.
Qed.

Lemma glued_path_matches (o r : list ascii) (t : Trailer) pos g :
  owner_name o = true ->
  repo_name r = true ->
  trailer_ok t = true ->
  keyword t = true ->
  rmatch (rseq path_pattern) (o ++ lit "/" ++ r ++ glued_text t) pos g accept
  = Some (trailer_groups t (<["repo" := r]> (<["owner" := o]> g))).
Proof.
  unfold owner_name, repo_name.
  intros [Ho1 Ho2]%andb_true_iff [[Hr1 Hr2]%andb_true_iff Hgit%negb_true_iff]%andb_true_iff
         Ht Hkeyword.
  change (rseq path_pattern)
    with (RSeq (RGroup "owner" (RPlus true not_slash))
            (RSeq (RLit (lit "/"))
               (RSeq (RGroup "repo" (RPlus false not_slash)) trailer_pattern))).
  rewrite rmatch_seq, rmatch_group.
  apply rmatch_plus_greedy;
    [by apply nonempty_ne | by apply owner_char_not_slash | done |].
  rewrite rmatch_seq, rmatch_lit, rmatch_seq, rmatch_group.
  apply rmatch_plus_lazy; [by apply nonempty_ne | by apply repo_char_not_slash | |].
  - intros x1 x2 -> Hx1 Hx2.
    apply glued_tail_rejects; [done| |done|done].
    by apply forallb_app_r in Hr2.
  - rewrite glued_tail_accepts by done. by rewrite !take_matched.
Qed.

Lemma glued_subject_clean (c : ascii) (p o r : list ascii) (t : Trailer) :
  whitespace c = false ->
  trailer_ok t = true ->
  keyword t = true ->
  clean (c :: p ++ o ++ lit "/" ++ r ++ glued_text t) = true.
Proof.
  intros Hc Ht Hkeyword.
  destruct t as [| | |b|b|n]; try done;
    unfold trailer_ok, branch_name, pr_digits, glued_text in *;
    apply andb_true_iff in Ht as [Hne Hx].
  - replace (p ++ o ++ lit "/" ++ r ++ lit "tree/" ++ b)
      with ((p ++ o ++ lit "/" ++ r ++ lit "tree/") ++ b) by (by rewrite <- !app_assoc).
    apply clean_between; [done..|by apply repo_char_visible].
  - replace (p ++ o ++ lit "/" ++ r ++ lit "blob/" ++ b)
      with ((p ++ o ++ lit "/" ++ r ++ lit "blob/") ++ b) by (by rewrite <- !app_assoc).
    apply clean_between; [done..|by apply repo_char_visible].
  - replace (p ++ o ++ lit "/" ++ r ++ lit "pull/" ++ n)
      with ((p ++ o ++ lit "/" ++ r ++ lit "pull/") ++ n) by (by rewrite <- !app_assoc).
    apply clean_between; [done..|by apply repo_char_visible, digit_repo_char].
Qed.

(** X16. In a web URL the slash between the repository name and
    [tree/], [blob/] or [pull/] is optional. The URL of a repository
    whose name ends in [tree], [blob] or [pull], followed by one more
    path segment, is therefore cut inside the name: with a name [r]
    followed by [tree/b] the parser returns the repository [r] and the
    branch [b], and with [r] followed by [pull/n] the repository [r] and
    the PR number [n] when [n] has at most 4300 digits; with more digits
    it raises the [ValueError] of the conversion. *)
Theorem keyword_suffix_is_split_off (o r : list ascii) (t : Trailer) :
  owner_name o = true ->
  repo_name r = true ->
  trailer_ok t = true ->
  keyword t = true ->
  (convertible t = true ->
   parse (str (lit "https://github.com/" ++ o ++ lit "/" ++ r ++ glued_text t))
   = Ok (Some (reference o r t))
   /\ parse (str (lit "github.com/" ++ o ++ lit "/" ++ r ++ glued_text t))
      = Ok (Some (reference o r t)))
  /\ (convertible t = false ->
      parse (str (lit "https://github.com/" ++ o ++ lit "/" ++ r ++ glued_text t))
      = Raise (int_limit_message (pr_length t))
      /\ parse (str (lit "github.com/" ++ o ++ lit "/" ++ r ++ glued_text t))
         = Raise (int_limit_message (pr_length t))).
Proof.
  intros Ho Hr Ht Hkeyword.
  pose proof (glued_path_matches o r t) as Hpath.
  assert (parse (str (lit "https://github.com/" ++ o ++ lit "/" ++ r ++ glued_text t))
          = Some <$> with_branch_and_pr
                       (trailer_groups t (<["repo" := r]> (<["owner" := o]> ∅)))) as Hhttps.
  { unfold parse. rewrite lit_str, strip_clean by (by apply glued_subject_clean).
    unfold re_match.
    change HTTPS_PATTERN
      with (RSeq (RLit (lit "http"))
              (RSeq (ROpt (RLit (lit "s")))
                 (RSeq (RLit (lit "://github.com/")) (rseq path_pattern)))).
    change (lit "https://github.com/" ++ o ++ lit "/" ++ r ++ glued_text t)
      with (lit "http" ++ lit "s" ++ lit "://github.com/"
              ++ o ++ lit "/" ++ r ++ glued_text t).
    rewrite rmatch_seq, rmatch_lit, rmatch_seq.
    erewrite rmatch_opt_taken;
      [|rewrite rmatch_lit, rmatch_seq, rmatch_lit; by apply Hpath].
    done. }
  assert (parse (str (lit "github.com/" ++ o ++ lit "/" ++ r ++ glued_text t))
          = Some <$> with_branch_and_pr
                       (trailer_groups t (<["repo" := r]> (<["owner" := o]> ∅)))) as Hbare.
  { unfold parse. rewrite lit_str, strip_clean by (by apply glued_subject_clean).
    assert (re_match HTTPS_PATTERN (lit "github.com/" ++ o ++ lit "/" ++ r ++ glued_text t)
            = None) as -> by reflexivity.
    unfold re_match.
    change BARE_PATTERN
      with (RSeq RBegin (RSeq (RLit (lit "github.com/")) (rseq path_pattern))).
    by rewrite rmatch_seq, rmatch_begin, rmatch_seq, rmatch_lit, Hpath by done. }
  rewrite Hhttps, Hbare. split.
  - intros Hfits. by rewrite reference_of_groups.
  - intros Hover. by rewrite reference_over_limit.
Qed.

End KeywordFacts.
(** ** The rule feasibility endpoints *)

Module RulesFacts.
Import GitHubURL GitHubURLFacts RulesAPI.

Lemma strip_prefix_some (l s s' : list ascii) : strip_prefix l s = Some s' -> s = l ++ s'.
Proof.
  revert s. induction l as [|a l IH]; intros s; simpl.
  - by intros [= ->].
  - destruct s as [|b s]; [done|]. destruct (Ascii.eqb_spec a b) as [->|]; [|done].
    intros Hs. by rewrite (IH _ Hs).
Qed.

(** [needle in hay] holds exactly when [hay] is some text, [needle], and
    some text. *)
Lemma contains_spec (needle hay : list ascii) :
  contains needle hay = true <-> exists before after, hay = before ++ needle ++ after.
Proof.
  split.
  - induction hay as [|c hay IH]; simpl.
    + destruct (strip_prefix needle []) as [rest|] eqn:Hprefix; [|done].
      intros _. exists [], rest. exact (strip_prefix_some _ _ _ Hprefix).
    + destruct (strip_prefix needle (c :: hay)) as [rest|] eqn:Hprefix.
      * intros _. exists [], rest. exact (strip_prefix_some _ _ _ Hprefix).
      * intros Hrest. destruct (IH Hrest) as (before & after & ->).
        by exists (c :: before), after.
  - intros (before & after & ->). induction before as [|c before IH]; simpl.
    + destruct (needle ++ after) eqn:Hsubject; simpl;
        by rewrite <- Hsubject, strip_prefix_app.
    + by destruct (strip_prefix needle (c :: before ++ needle ++ after)).
Qed.

Lemma lower_char_idempotent (c : ascii) : lower_char (lower_char c) = lower_char c.
Proof. destruct c as [[] [] [] [] [] [] [] []]; by vm_compute. Qed.

Lemma lower_idempotent (s : list ascii) : lower (lower s) = lower s.
Proof.
  unfold lower. rewrite <- list_fmap_compose. apply list_fmap_ext.
  intros i c _. apply lower_char_idempotent.
Qed.

(** The mock supports a rule exactly when one of its tests succeeds. *)
Lemma evaluate_rule_success (request : RuleEvaluationRequest) :
  ra_success (evaluate_rule request)
  = existsb (fun phrase => contains phrase (lower (lit (rule_text request)))) phrases.
Proof.
  unfold evaluate_rule, phrases. cbv zeta. cbn [fmap list_fmap existsb].
  repeat (match goal with
          | |- context [contains ?p ?t] => destruct (contains p t)
          end; cbn [orb]; try done).
Qed.

Lemma evaluate_rule_replies (request : RuleEvaluationRequest) :
  evaluate_rule request
  ∈ [linked_issue_reply; title_pattern_reply; code_owner_reply; max_lines_reply;
     protected_branches_reply; unsupported_reply].
Proof.
  unfold evaluate_rule. cbv zeta.
  repeat (match goal with
          | |- context [if ?b then _ else _] => destruct b
          end; [set_solver|]).
  set_solver.
Qed.

(** X17. Whatever the rule text, the reply of the mock is one of six,
    and it is coherent: [supported] repeats [success]; a supported rule
    comes with a snippet that is not empty and with a document that is
    the line [rules:] followed by that snippet; an unsupported one comes
    with an empty document and an empty snippet. The document has an
    even number of double quotes in every reply but that of the title
    pattern, whose last quoted text is never closed. *)
Theorem mock_replies_are_coherent (request : RuleEvaluationRequest) :
  let reply := evaluate_rule request in
  ra_data reply !! "supported" = Some (PBool (ra_success reply))
  /\ exists rule_yaml snippet,
       ra_data reply !! "rule_yaml" = Some (PStr rule_yaml)
       /\ ra_data reply !! "snippet" = Some (PStr snippet)
       /\ (ra_success reply = true ->
           rule_yaml = "rules:" +:+ nl +:+ snippet /\ snippet <> "")
       /\ (ra_success reply = false -> rule_yaml = "" /\ snippet = "")
       /\ (Nat.odd (quotes rule_yaml) = true <-> reply = title_pattern_reply).
Proof.
  cbv zeta. pose proof (evaluate_rule_replies request) as Hreply.
  assert (forall r1 r2 : RuleAgentResult, ra_message r1 <> ra_message r2 -> r1 <> r2)
    as Hdistinct by (intros r1 r2 Hne ->; done).
  set_unfold in Hreply.
  destruct Hreply as [->|[->|[->|[->|[->|[->|[]]]]]]].
  - split; [reflexivity|]. exists linked_issue_rule_yaml, linked_issue_snippet.
    split; [reflexivity|]. split; [reflexivity|]. split; [by split|]. split; [done|].
    split; [done|]. intros Heq. by apply Hdistinct in Heq.
  - split; [reflexivity|]. exists title_pattern_rule_yaml, title_pattern_snippet.
    split; [reflexivity|]. split; [reflexivity|]. split; [by split|]. split; [done|].
    by split.
  - split; [reflexivity|]. exists code_owner_rule_yaml, code_owner_snippet.
    split; [reflexivity|]. split; [reflexivity|]. split; [by split|]. split; [done|].
    split; [done|]. intros Heq. by apply Hdistinct in Heq.
  - split; [reflexivity|]. exists max_lines_rule_yaml, max_lines_snippet.
    split; [reflexivity|]. split; [reflexivity|]. split; [by split|]. split; [done|].
    split; [done|]. intros Heq. by apply Hdistinct in Heq.
  - split; [reflexivity|]. exists protected_branches_rule_yaml, protected_branches_snippet.
    split; [reflexivity|]. split; [reflexivity|]. split; [by split|]. split; [done|].
    split; [done|]. intros Heq. by apply Hdistinct in Heq.
  - split; [reflexivity|]. exists "", "".
    split; [reflexivity|]. split; [reflexivity|]. split; [done|]. split; [done|].
    split; [done|]. intros Heq. by apply Hdistinct in Heq.
Qed.

(** X18. The mock supports a rule exactly when its text, put in lower
    case, contains one of the ten phrases it looks for. The tests are
    made in order, so a text that holds [reference an issue] or
    [fixes #], in any mix of upper and lower case and wherever it stands,
    gets the reply on linked issues whatever else it holds. The reply to
    a text is the reply to the same text in lower case. *)
Theorem mock_detects_phrases (request : RuleEvaluationRequest) :
  (ra_success (evaluate_rule request) = true
   <-> exists phrase before after,
         phrase ∈ phrases
         /\ lower (lit (rule_text request)) = before ++ phrase ++ after)
  /\ (forall before phrase after,
        lower phrase = lit "reference an issue" \/ lower phrase = lit "fixes #" ->
        lit (rule_text request) = before ++ phrase ++ after ->
        evaluate_rule request = linked_issue_reply)
  /\ evaluate_rule {| rule_text := str (lower (lit (rule_text request)));
                      extra_event_data := extra_event_data request |}
     = evaluate_rule request.
Proof.
  split; [|split].
  - rewrite evaluate_rule_success, existsb_exists. split.
    + intros (phrase & Hin & Hcontains). apply contains_spec in Hcontains
        as (before & after & Htext).
      exists phrase, before, after. split; [by apply list_elem_of_In | done].
    + intros (phrase & before & after & Hin & Htext).
      exists phrase. split; [by apply list_elem_of_In|].
      apply contains_spec. by exists before, after.
  - intros before phrase after Hphrase Htext. unfold evaluate_rule. cbv zeta.
    rewrite Htext. unfold lower. rewrite !fmap_app. fold (lower phrase).
    destruct Hphrase as [-> | ->].
    + assert (contains (lit "reference an issue")
                ((lower_char <$> before) ++ lit "reference an issue" ++ (lower_char <$> after))
              = true) as ->; [|done].
      apply contains_spec. by eexists _, _.
    + assert (contains (lit "fixes #")
                ((lower_char <$> before) ++ lit "fixes #" ++ (lower_char <$> after))
              = true) as ->; [|by rewrite orb_true_r].
      apply contains_spec. by eexists _, _.
  - unfold evaluate_rule. cbv zeta. cbn [rule_text].
    by rewrite ParseFacts.lit_str, lower_idempotent.
Qed.

End RulesFacts.
(** ** The chat model providers *)

Module ProviderFacts.
Import Providers.

Local Set Warnings "-clear-no-such-hyp".

Lemma get_elem_of (key : string) (d : list (string * pyval)) :
  is_Some (get key d) <-> key ∈ d.*1.
Proof.
  induction d as [|[k v] d IH]; simpl.
  - split; [by intros [? ?] | by intros ?%elem_of_nil].
  - destruct (String.eqb_spec k key) as [->|Hne].
    + split; [intros _; by left | by eexists].
    + rewrite IH. split; [by right|]. by intros [->|?]%elem_of_cons.
Qed.

Lemma get_none (key : string) (d : list (string * pyval)) :
  key ∉ d.*1 -> get key d = None.
Proof.
  intros Hnot. destruct (get key d) as [v|] eqn:Hget; [|done].
  exfalso. apply Hnot, get_elem_of. by eexists.
Qed.

Lemma get_without (names : list string) (key : string) (d : list (string * pyval)) :
  get key (without names d) = if bool_decide (key ∈ names) then None else get key d.
Proof.
  induction d as [|[k v] d IH]; simpl.
  - by case_bool_decide.
  - destruct (bool_decide (k ∈ names)) eqn:Hk; simpl.
    + rewrite IH. destruct (String.eqb_spec k key) as [->|Hne]; [|done].
      by rewrite Hk.
    + destruct (String.eqb_spec k key) as [->|Hne]; [by rewrite Hk | done].
Qed.

Lemma without_dict (names : list string) (d : list (string * pyval)) :
  is_dict_items d -> is_dict_items (without names d).
Proof.
  unfold is_dict_items. induction d as [|[k v] d IH]; simpl; [done|].
  intros [Hk Hd]%NoDup_cons. destruct (bool_decide (k ∈ names)); simpl; [by apply IH|].
  apply NoDup_cons. split; [|by apply IH].
  intros Hin. apply Hk. apply get_elem_of in Hin. rewrite get_without in Hin.
  apply get_elem_of. by case_bool_decide; [destruct Hin|].
Qed.

(** After [d.update(other)] a key holds what [other] gives it, else what
    it held. *)
Lemma update_lookup (d : gmap string pyval) (other : list (string * pyval)) (key : string) :
  is_dict_items other ->
  update d other !! key = match get key other with
                          | Some v => Some v
                          | None => d !! key
                          end.
Proof.
  unfold is_dict_items, update. revert d.
  induction other as [|[k v] other IH]; intros d; simpl; [done|].
  intros [Hk Hother]%NoDup_cons. rewrite (IH _ Hother).
  destruct (String.eqb_spec k key) as [->|Hne].
  - rewrite (get_none _ _ Hk). by simplify_map_eq.
  - by simplify_map_eq.
Qed.

Lemma first_repeated_some (given : gmap string pyval) (items : list (string * pyval)) key :
  first_repeated given items = Some key ->
  is_Some (get key items) /\ is_Some (given !! key).
Proof.
  induction items as [|[k v] items IH]; simpl; [done|].
  case_bool_decide as Hk.
  - intros [= ->]. rewrite String.eqb_refl. split; [by eexists | done].
  - intros Hrest. destruct (IH Hrest) as [Hget Hgiven]. split; [|done].
    destruct (String.eqb_spec k key) as [->|Hne]; [by eexists | done].
Qed.

Lemma first_repeated_none (given : gmap string pyval) (items : list (string * pyval)) :
  first_repeated given items = None ->
  forall key, is_Some (get key items) -> given !! key = None.
Proof.
  induction items as [|[k v] items IH]; simpl; [by intros _ key [? ?]|].
  case_bool_decide as Hk; [done|]. intros Hrest key.
  destruct (String.eqb_spec k key) as [->|Hne]; [|by apply IH].
  intros _. by apply eq_None_not_Some.
Qed.

(** X19. When the package is there, the OpenAI provider always calls
    [ChatOpenAI]. The key [api_key] gets the [api_key] of [kwargs], or
    [None]; [base_url] is given only when [kwargs] has one that is not
    empty; every other entry of [kwargs] is passed on as it is, and for
    [model], [max_tokens] and [temperature] it takes the place of the
    provider's own setting, which is used only when [kwargs] is silent.
    When the package is missing the provider raises a [RuntimeError]. *)
Theorem openai_passes_kwargs_on (self : Provider) :
  is_dict_items (kwargs self) ->
  (exists keywords,
     openai_get_chat_model true self = ChatOpenAI keywords
     /\ keywords !! "api_key" = Some (default PNone (get "api_key" (kwargs self)))
     /\ keywords !! "base_url"
        = match get "base_url" (kwargs self) with
          | Some base_url => if truthy base_url then Some base_url else None
          | None => None
          end
     /\ (forall key,
           key <> "api_key" -> key <> "base_url" ->
           keywords !! key
           = match get key (kwargs self) with
             | Some v => Some v
             | None =>
                 (<["model" := model self]>
                  (<["max_tokens" := max_tokens self]>
                   {["temperature" := temperature self]}) : gmap string pyval) !! key
             end))
  /\ exists message, openai_get_chat_model false self = RuntimeError message.
Proof.
  intros Hdict. split; [|by eexists].
  unfold openai_get_chat_model. cbn [negb]. cbv zeta.
  eexists. split; [reflexivity|].
  pose proof (without_dict ["api_key"; "base_url"] _ Hdict) as Hothers.
  split; [|split].
  - rewrite (update_lookup _ _ _ Hothers), get_without.
    rewrite bool_decide_eq_true_2 by set_solver.
    destruct (truthy _); by simplify_map_eq.
  - rewrite (update_lookup _ _ _ Hothers), get_without.
    rewrite bool_decide_eq_true_2 by set_solver.
    destruct (get "base_url" (kwargs self)) as [base_url|]; simpl.
    + destruct (truthy base_url); by simplify_map_eq.
    + by simplify_map_eq.
  - intros key Hkey1 Hkey2.
    rewrite (update_lookup _ _ _ Hothers), get_without.
    rewrite bool_decide_eq_false_2 by set_solver.
    destruct (get key (kwargs self)) as [v|]; [done|].
    destruct (decide (key = "model")) as [->|];
      [destruct (truthy _); by simplify_map_eq|].
    destruct (decide (key = "max_tokens")) as [->|];
      [destruct (truthy _); by simplify_map_eq|].
    destruct (decide (key = "temperature")) as [->|];
      [destruct (truthy _); by simplify_map_eq|].
    destruct (truthy _); by simplify_map_eq.
Qed.

Lemma reserved_given (self : Provider) (key : string) headers api_key :
  is_Some ((<["model" := model self]>
            (<["max_tokens" := max_tokens self]>
            (<["temperature" := temperature self]>
            (<["api_key" := api_key]>
            (<["base_url" := PStr OPENROUTER_BASE_URL]>
            {["default_headers" := headers]})))) : gmap string pyval) !! key)
  <-> key ∈ reserved \/ key = "api_key".
Proof.
  unfold reserved. split.
  - intros [v Hv].
    destruct (decide (key = "model")) as [->|]; [set_solver|].
    destruct (decide (key = "max_tokens")) as [->|]; [set_solver|].
    destruct (decide (key = "temperature")) as [->|]; [set_solver|].
    destruct (decide (key = "api_key")) as [->|]; [set_solver|].
    destruct (decide (key = "base_url")) as [->|]; [set_solver|].
    destruct (decide (key = "default_headers")) as [->|]; [set_solver|].
    by simplify_map_eq.
  - intros [Hin | ->]; [|by simplify_map_eq].
    set_unfold in Hin. destruct Hin as [->|[->|[->|[->|[->|[]]]]]]; by simplify_map_eq.
Qed.

(** X20. The OpenRouter provider gives [model], [max_tokens],
    [temperature], [base_url] and [default_headers] itself and passes
    the rest of [kwargs] on beside them. When [kwargs] holds one of
    these five names the call gives that keyword twice and raises a
    [TypeError], where the OpenAI provider lets [kwargs] win. When it
    holds none of them, [ChatOpenAI] is called with the base URL of
    OpenRouter, the provider's own settings, the [api_key] of [kwargs]
    or [None], and every other entry of [kwargs] as it is, [site_url]
    and [site_name] apart, which only go into the headers. *)
Theorem openrouter_rejects_its_own_keywords (self : Provider) :
  is_dict_items (kwargs self) ->
  ((exists key, key ∈ reserved /\ is_Some (get key (kwargs self))) ->
   exists key,
     key ∈ reserved /\ is_Some (get key (kwargs self))
     /\ openrouter_get_chat_model true self = MultipleValues key)
  /\ ((forall key, key ∈ reserved -> get key (kwargs self) = None) ->
      exists keywords,
        openrouter_get_chat_model true self = ChatOpenAI keywords
        /\ keywords !! "base_url" = Some (PStr OPENROUTER_BASE_URL)
        /\ keywords !! "model" = Some (model self)
        /\ keywords !! "max_tokens" = Some (max_tokens self)
        /\ keywords !! "temperature" = Some (temperature self)
        /\ keywords !! "api_key" = Some (default PNone (get "api_key" (kwargs self)))
        /\ keywords !! "site_url" = None
        /\ keywords !! "site_name" = None
        /\ (forall key,
              key ∉ reserved -> key ∉ ["api_key"; "site_url"; "site_name"] ->
              keywords !! key = get key (kwargs self))).
Proof.
  intros Hdict.
  pose proof (without_dict ["api_key"; "site_url"; "site_name"] _ Hdict) as Hothers.
  unfold openrouter_get_chat_model. cbn [negb]. cbv zeta.
  destruct (first_repeated _ _) as [repeated|] eqn:Hrepeated.
  - apply first_repeated_some in Hrepeated as [Hget Hgiven].
    rewrite get_without in Hget. case_bool_decide as Hname; [by destruct Hget|].
    apply reserved_given in Hgiven as [Hreserved | ->]; [|set_solver].
    split.
    + intros _. by exists repeated.
    + intros Hnone. rewrite (Hnone _ Hreserved) in Hget. by destruct Hget.
  - pose proof (first_repeated_none _ _ Hrepeated) as Hfresh. split.
    + intros (key & Hreserved & Hget). exfalso.
      assert (is_Some (get key (without ["api_key"; "site_url"; "site_name"]
                                  (kwargs self)))) as Hkept.
      { rewrite get_without, bool_decide_eq_false_2; [done|].
        unfold reserved in Hreserved. set_solver. }
      specialize (Hfresh key Hkept).
      assert (is_Some (Some (PStr "") : option pyval)) as _ by done.
      apply eq_None_not_Some in Hfresh. apply Hfresh.
      apply reserved_given. by left.
    + intros Hnone. eexists. split; [reflexivity|].
      assert (forall key, key ∈ reserved ->
                get key (without ["api_key"; "site_url"; "site_name"] (kwargs self))
                = None) as Hsilent.
      { intros key Hkey. rewrite get_without. case_bool_decide; [done|]. by apply Hnone. }
      repeat split.
      * rewrite (update_lookup _ _ _ Hothers), Hsilent by (unfold reserved; set_solver).
        by simplify_map_eq.
      * rewrite (update_lookup _ _ _ Hothers), Hsilent by (unfold reserved; set_solver).
        by simplify_map_eq.
      * rewrite (update_lookup _ _ _ Hothers), Hsilent by (unfold reserved; set_solver).
        by simplify_map_eq.
      * rewrite (update_lookup _ _ _ Hothers), Hsilent by (unfold reserved; set_solver).
        by simplify_map_eq.
      * rewrite (update_lookup _ _ _ Hothers), get_without.
        rewrite bool_decide_eq_true_2 by set_solver. by simplify_map_eq.
      * rewrite (update_lookup _ _ _ Hothers), get_without.
        rewrite bool_decide_eq_true_2 by set_solver. by simplify_map_eq.
      * rewrite (update_lookup _ _ _ Hothers), get_without.
        rewrite bool_decide_eq_true_2 by set_solver. by simplify_map_eq.
      * intros key Hkey1 Hkey2.
        rewrite (update_lookup _ _ _ Hothers), get_without.
        rewrite bool_decide_eq_false_2 by done.
        destruct (get key (kwargs self)) as [v|]; [done|].
        apply eq_None_not_Some. intros Hgiven.
        apply reserved_given in Hgiven as [? | ->]; [done|]. set_solver.
Qed.

End ProviderFacts.
(** ** The further properties at work on concrete cases *)

Lemma analyze_result_is_coherent_witness :
  coherent Demo.octo_demo Cases.analysed_result /\ 0 < rules_loaded Cases.analysed_result.
Proof.
  destruct (analyze_result_is_coherent Demo.env Demo.octo_demo (Some 1)
              (Some Demo.two_rules_and_a_stray) None 5 false (Demo.start Demo.hub)
              Cases.analysed_result Cases.analysed.2) as [Hcoherent Hloaded].
  - vm_compute. reflexivity.
  - split; [exact Hcoherent|]. apply Hloaded. reflexivity.
Defined.

Lemma analyze_service_calls_are_bounded_witness :
  exists l,
    calls Cases.analysed.2 = calls (Demo.start Demo.hub) ++ l /\ (service_calls l <= 8)%nat.
Proof.
  destruct (analyze_service_calls_are_bounded Demo.env Demo.octo_demo (Some 1)
              (Some Demo.two_rules_and_a_stray) None 5 false (Demo.start Demo.hub)
              Cases.analysed_result Cases.analysed.2) as (l & Hcalls & Hsingle & _).
  - vm_compute. reflexivity.
  - exists l. split; [exact Hcalls|]. apply Hsingle. reflexivity.
Defined.

Lemma analysis_ends_at_first_failure_witness :
  (analyze Demo.env Cases.absent None None None 5 false (Demo.start Demo.hub)).2
  = after (Demo.start Demo.hub) (CGetRepository "octo/absent" None) (Demo.tick Demo.hub).
Proof.
  destruct (analysis_ends_at_first_failure Demo.env Cases.absent None None None 5 false
              (Demo.start Demo.hub) (Ok PNone) (Demo.tick Demo.hub)) as [Hfails _].
  - reflexivity.
  - rewrite Hfails; reflexivity.
Defined.

Lemma listing_failure_reads_as_no_open_prs_witness :
  error <$> (analyze Cases.offline Demo.octo_demo None (Some Demo.two_rules_and_a_stray) None 5
               false (Demo.start Demo.hub)).1
  = Ok (Some "No open pull requests found in this repository."%string).
Proof.
  destruct (listing_failure_reads_as_no_open_prs Cases.offline Demo.octo_demo None
              (Some Demo.two_rules_and_a_stray) None 5 false (Demo.start Demo.hub)
              ["a"; "b"]%string Demo.found_repository (Raise "connection refused")
              (Demo.tick (world Demo.found_repository))) as [_ Hanalyze].
  - exists (PDict {["full_name" := PStr "octo/demo"]}), Demo.found_repository.
    split; [|split; [|split]]; [reflexivity..|discriminate].
  - reflexivity.
  - reflexivity.
  - reflexivity.
  - rewrite Hanalyze. reflexivity.
Defined.

Lemma validation_is_all_or_nothing_witness :
  (_evaluate_rules Demo.env ["c"%string] Cases.small_event (Demo.start Demo.hub)).1
  = Ok [stamp (PInt 1) Cases.found_c].
Proof.
  destruct (validation_is_all_or_nothing Demo.env ["c"%string] Cases.small_event
              (Demo.start Demo.hub)
              {| data := Some {["evaluation_result" :=
                   {| er_violations := Some (PList [Demo.violation_of "c"]) |}]} |}
              (Demo.tick Demo.hub)
              {["evaluation_result" :=
                  {| er_violations := Some (PList [Demo.violation_of "c"]) |}]}
              {| er_violations := Some (PList [Demo.violation_of "c"]) |}
              (PList [Demo.violation_of "c"]) [Demo.violation_of "c"]) as [_ Hvalid].
  - intros v Hv. vm_compute in Hv. injection Hv as <-. reflexivity.
  - reflexivity.
  - reflexivity.
  - reflexivity.
  - reflexivity.
  - reflexivity.
  - destruct (Hvalid [Cases.found_c]) as [Hrun _]; [reflexivity|].
    rewrite Hrun. reflexivity.
Defined.

Lemma violations_carry_their_pr_number_witness :
  Forall (fun v => exists p, p ∈ prs_analyzed Cases.analysed_result
                             /\ v_pr_number v = ps_number p)
    (violations Cases.analysed_result).
Proof.
  apply (violations_carry_their_pr_number Demo.env Demo.octo_demo (Some 1)
           (Some Demo.two_rules_and_a_stray) None 5 false (Demo.start Demo.hub)
           Cases.analysed_result Cases.analysed.2).
  vm_compute. reflexivity.
Defined.

Lemma built_context_is_well_shaped_witness :
  value_or ∅ Cases.draft.1 !! "repository"
  = Some (PDict {["full_name" := PStr "octo/demo"]})
  /\ value_or ∅ Cases.draft.1 !! "triggering_user" = Some (PDict {["login" := PNone]})
  /\ value_or ∅ Cases.draft.1 !! "files" = None.
Proof.
  destruct (built_context_is_well_shaped Demo.env "octo/demo"
              (PDict {["title" := PStr "Draft"]}) None (Demo.start Demo.hub)
              (value_or ∅ Cases.draft.1) Cases.draft.2)
    as (_ & Hrepository & Hlogin & Hnone & _).
  - reflexivity.
  - split; [exact Hrepository|]. split; [exact Hlogin|]. apply Hnone. reflexivity.
Defined.

Lemma rules_entry_must_be_a_list_witness :
  _parse_rules_from_yaml Cases.offline "rules: none" = Ok [].
Proof.
  apply (rules_entry_must_be_a_list Cases.offline "rules: none" {["rules" := PStr "none"]}
           (PStr "none")).
  - reflexivity.
  - reflexivity.
  - discriminate.
Defined.

Lemma endpoint_serves_the_analysis_witness :
  success <$> Cases.ghost_analysed.1 = Ok true
  /\ (analyze_repository Demo.env Cases.ghost_request (Demo.start Cases.hub_with_ghost)).1
     = Raise "'NoneType' object has no attribute 'get'"
  /\ analyze_repository Demo.env Cases.long_request (Demo.start Demo.hub)
     = (Raise (GitHubURL.int_limit_message 4301), Demo.start Demo.hub).
Proof.
  split; [reflexivity|]. split.
  - destruct (endpoint_serves_the_analysis Demo.env Cases.ghost_request
                (Demo.start Cases.hub_with_ghost)) as (_ & _ & Hvalid & _).
    destruct (Hvalid _ eq_refl eq_refl) as (info & r & s' & Hparse & Hrun & _ & _ & Hghost).
    assert (info = {| owner := "octo"; repo := "demo"; pr_number := Some 9; branch := None |})
      as -> by (vm_compute in Hparse; by injection Hparse).
    assert (r = value_or Demo.no_result Cases.ghost_analysed.1) as ->.
    { change (analyze Demo.env _ _ _ _ _ _ _) with Cases.ghost_analysed in Hrun.
      by rewrite Hrun. }
    rewrite (Hghost (Demo.pr 9 "Old change" PNone)); [reflexivity|reflexivity..].
  - destruct (endpoint_serves_the_analysis Demo.env Cases.long_request
                (Demo.start Demo.hub)) as (Hraises & _).
    apply Hraises. vm_compute. reflexivity.
Defined.

Lemma parse_returns_proper_references_witness :
  slash_count (full_name Demo.octo_demo) = 1%nat.
Proof.
  destruct (ParseExtras.parse_returns_proper_references "octo/demo" Demo.octo_demo)
    as (_ & _ & _ & _ & Hslashes & _).
  - reflexivity.
  - exact Hslashes.
Defined.

Lemma parse_ignores_surrounding_whitespace_witness :
  GitHubURL.parse ("  " +:+ "octo/demo" +:+ RulesAPI.nl) = GitHubURL.parse "octo/demo".
Proof.
  destruct (ParseExtras.parse_ignores_surrounding_whitespace "  " "octo/demo" RulesAPI.nl)
    as [Hparse _].
  - reflexivity.
  - reflexivity.
  - exact Hparse.
Defined.

Lemma url_and_full_name_parse_back_witness :
  GitHubURL.parse "https://github.com/octo/demo" = Ok (Some Demo.octo_demo)
  /\ GitHubURL.parse "octo/demo" = Ok (Some Demo.octo_demo).
Proof.
  destruct (ParseExtras.url_and_full_name_parse_back
              {| owner := "octo"; repo := "demo"; pr_number := Some 7;
                 branch := Some "main" |}) as (Hurl & Hname & _).
  - reflexivity.
  - reflexivity.
  - split; [exact Hurl | exact Hname].
Defined.

Lemma short_form_keeps_dot_git_witness :
  GitHubURL.parse "octo/demo.git"
  = Ok (Some {| owner := "octo"; repo := "demo.git"; pr_number := None; branch := None |}).
Proof.
  destruct (ParseExtras.short_form_keeps_dot_git (GitHubURL.lit "octo") (GitHubURL.lit "demo"))
    as (Hshort & _).
  - reflexivity.
  - reflexivity.
  - exact Hshort.
Defined.

Lemma keyword_suffix_is_split_off_witness :
  GitHubURL.parse "https://github.com/preservim/nerdtree/issues"
  = Ok (Some {| owner := "preservim"; repo := "nerd"; pr_number := None;
                branch := Some "issues" |}).
Proof.
  destruct (KeywordFacts.keyword_suffix_is_split_off (GitHubURL.lit "preservim")
              (GitHubURL.lit "nerd") (ReferenceShapes.Tree (GitHubURL.lit "issues")))
    as (Hfits & _).
  - reflexivity.
  - reflexivity.
  - reflexivity.
  - reflexivity.
  - destruct Hfits as (Hhttps & _); [reflexivity|]. exact Hhttps.
Defined.

Lemma openai_passes_kwargs_on_witness :
  exists keywords,
    Providers.openai_get_chat_model true Cases.provider = Providers.ChatOpenAI keywords
    /\ keywords !! "model" = Some (PStr "gpt-4o-mini").
Proof.
  destruct (ProviderFacts.openai_passes_kwargs_on Cases.provider)
    as [(keywords & Hcall & _ & _ & Hrest) _].
  - unfold Providers.is_dict_items. simpl. apply (bool_decide_unpack _). vm_compute. exact I.
  - exists keywords. split; [exact Hcall|]. rewrite Hrest; [reflexivity|discriminate..].
Defined.

Lemma openrouter_rejects_its_own_keywords_witness :
  exists key,
    key ∈ Providers.reserved
    /\ Providers.openrouter_get_chat_model true Cases.provider = Providers.MultipleValues key.
Proof.
  destruct (ProviderFacts.openrouter_rejects_its_own_keywords Cases.provider)
    as [Hrejects _].
  - unfold Providers.is_dict_items. simpl. apply (bool_decide_unpack _). vm_compute. exact I.
  - destruct Hrejects as (key & Hreserved & _ & Hcall).
    + exists "model"%string. split; [|by eexists].
      apply (bool_decide_unpack _). vm_compute. exact I.
    + exists key. split; [exact Hreserved | exact Hcall].
Defined.
